(** * ReadoutCard: the CRU DMA channel queue engine

    A shallow embedding of [src/Cru/CruDmaChannel.cxx]: the per-link
    transfer queues, the ready queue, the counter of free transfer
    slots, and the start / push / fill / pop / stop operations on them.

    Unsigned machine integers are natural numbers of type [N] with the
    wrap-around of their width written out.  Member functions are
    computations in a small state-and-exception monad over the mutable
    members of the channel object and the card behind its BARs: a thrown
    exception leaves the state as it was at the [throw].  Calls that
    write to the card, and sleeps, are appended to a trace; what the card
    answers to [getSuperpageCount] is an argument of the functions that
    ask.  The two [assert]s of the class are modelled for both builds,
    with and without [NDEBUG].  Logging, the construction of the base
    class and of the BARs, and the identification of the card (serial
    number, temperature, firmware) are left out. *)

From Stdlib Require Import NArith ZArith Lia List Bool.
From stdpp Require Import base numbers list.

Local Open Scope N_scope.

(** ** Machine integers *)

Definition UINT32_MODULUS : N := 4294967296.
Definition INT32_HALF : N := 2147483648.

(** [std::numeric_limits<size_t>::max()] on the 64-bit targets of the
    driver, and arithmetic in [size_t]. *)
Definition SIZE_MAX : N := 18446744073709551615.
Definition size_t_of (x : N) : N := x mod (SIZE_MAX + 1).

(** Conversion of a value to [uint32_t]. *)
Definition uint32 (x : N) : N := x mod UINT32_MODULUS.

(** Conversion of an integer to [uint32_t]; C++ reduces modulo 2^32. *)
Definition uint32_of_Z (z : Z) : N := Z.to_N (z mod Z.of_N UINT32_MODULUS)%Z.

(** Conversion of a [uint32_t] value to [int32_t] (two's complement). *)
Definition int32 (x : N) : Z :=
  let u := uint32 x in
  if u <? INT32_HALF then Z.of_N u else (Z.of_N u - Z.of_N UINT32_MODULUS)%Z.

(** [x++] and [x--] on a [uint32_t]. *)
Definition uint32_incr (x : N) : N := uint32 (x + 1).
Definition uint32_decr (x : N) : N := uint32 (x + (UINT32_MODULUS - 1)).

(** ** Data *)

(** Modelled from the spec: the [Superpage] class is declared in a public
    header that is not among the sources; section 3 of the specification
    gives its members.  The source uses it through [getOffset], [getSize],
    [setReady] and [setReceived]. *)
Record Superpage : Type := mkSuperpage {
  offset : N;
  size : N;
  received : N;
  ready : bool;
  userData : N
}.

Definition getOffset (sp : Superpage) : N := offset sp.
Definition getSize (sp : Superpage) : N := size sp.

Definition setReady (b : bool) (sp : Superpage) : Superpage :=
  {| offset := offset sp; size := size sp; received := received sp;
     ready := b; userData := userData sp |}.

Definition setReceived (r : N) (sp : Superpage) : Superpage :=
  {| offset := offset sp; size := size sp; received := r;
     ready := ready sp; userData := userData sp |}.

(** What [transferSuperpageFromLinkToReady] does to the front superpage
    before it is copied into the ready queue. *)
Definition markArrived (sp : Superpage) : Superpage :=
  setReceived (getSize (setReady true sp)) (setReady true sp).

(** [boost::circular_buffer<Superpage>], the queue type of the channel
    classes: a sequence with a capacity fixed at construction.  On a full
    buffer [push_back] overwrites the oldest element. *)
Definition SuperpageQueue : Type := list Superpage.

Definition queue_size (q : SuperpageQueue) : N := N.of_nat (length q).

Definition push_back (capacity : N) (q : SuperpageQueue) (sp : Superpage)
  : SuperpageQueue :=
  if capacity =? 0 then q
  else if queue_size q <? capacity then q ++ [sp]
  else tail q ++ [sp].

(** One link: its id on the card, the number of superpages received from
    it so far, and the superpages pushed to it and not yet received.  The
    struct is declared in [CruDmaChannel.h], which is not among the
    sources; the counter is a [uint32_t], as the counts of the card that
    it is compared with. *)
Record Link : Type := mkLink {
  id : N;
  superpageCounter : N;
  queue : SuperpageQueue
}.

Inductive LoopbackMode : Type := None_ | Diu | Siu | Internal | Ddg.

(** The members fixed by the constructor. *)
Record Config : Type := mkConfig {
  mLoopbackMode : LoopbackMode;
  mGeneratorEnabled : bool;
  mGeneratorPattern : N;
  mGeneratorDataSizeRandomEnabled : bool;
  mGeneratorDataSize : N;
  mDmaPageSize : N;
  dataSelection : bool
}.

(** Calls that reach the card or the clock, in the order they are made. *)
Inductive Effect : Type :=
| setDataGeneratorPattern (pattern dataSize : N) (randomEnabled : bool)
| setDebugModeEnabled (enabled : bool)
| setDataSource (selection : N)
| resetDataGeneratorCounter
| resetCard
| setDataEmulatorEnabled (enabled : bool)
| pushSuperpageDescriptor (link pages busAddress : N)
| disableDataTaking
| enableDataTaking
| sleep_for (milliseconds : N).

(** The mutable members of the channel, the debug register of the card
    and the trace of the calls made so far.  [mLinkQueuesTotalAvailable]
    is a [uint32_t] like the counters of the links. *)
Record State : Type := mkState {
  mLinks : list Link;
  mReadyQueue : SuperpageQueue;
  mLinkQueuesTotalAvailable : N;
  mDebugRegisterReset : bool;
  debugModeEnabled : bool;
  trace : list Effect
}.

(** What ends a member function early.  The exceptions of the source
    carry only a message and are named after it; [InvalidSuperpage] is
    whatever [checkSuperpage] throws; the last two are not exceptions:
    a failed [assert] and an operation whose behaviour C++ leaves
    undefined (indexing past the end of [mLinks], dividing by zero). *)
Inductive Error : Type :=
| InvalidSuperpage
| TransferQueueFull
| LinkQueueFull
| GetFromEmptyReadyQueue
| PopFromEmptyReadyQueue
| LinkQueueEmpty
| FirmwareReportedTooMany
| GeneratorLoopbackUnsupported
| LoopbackWithoutGeneratorUnsupported
| AssertionFailed
| UndefinedBehaviour.

Inductive Outcome (A : Type) : Type :=
| Returned (a : A)
| Thrown (e : Error).
Arguments Returned {A} a.
Arguments Thrown {A} e.

(** ** The monad of member functions *)

Definition M (A : Type) : Type := State -> Outcome A * State.

Definition ret {A} (a : A) : M A := fun s => (Returned a, s).
Definition throw {A} (e : Error) : M A := fun s => (Thrown e, s).
Definition bind {A B} (m : M A) (k : A -> M B) : M B :=
  fun s => match m s with
           | (Returned a, s') => k a s'
           | (Thrown e, s') => (Thrown e, s')
           end.
Definition get : M State := fun s => (Returned s, s).
Definition modify (f : State -> State) : M unit := fun s => (Returned tt, f s).

Notation "x <- m ;; k" := (bind m (fun x => k))
  (at level 100, m at next level, right associativity).
Notation "m ;;; k" := (bind m (fun _ => k))
  (at level 100, right associativity).

Definition set_mLinks (ls : list Link) (s : State) : State :=
  {| mLinks := ls; mReadyQueue := mReadyQueue s;
     mLinkQueuesTotalAvailable := mLinkQueuesTotalAvailable s;
     mDebugRegisterReset := mDebugRegisterReset s;
     debugModeEnabled := debugModeEnabled s; trace := trace s |}.

Definition set_mReadyQueue (q : SuperpageQueue) (s : State) : State :=
  {| mLinks := mLinks s; mReadyQueue := q;
     mLinkQueuesTotalAvailable := mLinkQueuesTotalAvailable s;
     mDebugRegisterReset := mDebugRegisterReset s;
     debugModeEnabled := debugModeEnabled s; trace := trace s |}.

Definition set_mLinkQueuesTotalAvailable (n : N) (s : State) : State :=
  {| mLinks := mLinks s; mReadyQueue := mReadyQueue s;
     mLinkQueuesTotalAvailable := n;
     mDebugRegisterReset := mDebugRegisterReset s;
     debugModeEnabled := debugModeEnabled s; trace := trace s |}.

Definition set_mDebugRegisterReset (b : bool) (s : State) : State :=
  {| mLinks := mLinks s; mReadyQueue := mReadyQueue s;
     mLinkQueuesTotalAvailable := mLinkQueuesTotalAvailable s;
     mDebugRegisterReset := b;
     debugModeEnabled := debugModeEnabled s; trace := trace s |}.

(** A call on a BAR (or a sleep) is appended to the trace; writing the
    debug register also changes what [getDebugModeEnabled] reads back. *)
Definition call (e : Effect) : M unit :=
  modify (fun s =>
    {| mLinks := mLinks s; mReadyQueue := mReadyQueue s;
       mLinkQueuesTotalAvailable := mLinkQueuesTotalAvailable s;
       mDebugRegisterReset := mDebugRegisterReset s;
       debugModeEnabled := match e with
                           | setDebugModeEnabled b => b
                           | _ => debugModeEnabled s
                           end;
       trace := trace s ++ [e] |}).

(** [mLinks[i]]: indexing a vector out of range is undefined. *)
Definition linkAt (i : nat) : M Link :=
  fun s => match mLinks s !! i with
           | Some link => (Returned link, s)
           | None => (Thrown UndefinedBehaviour, s)
           end.

(** [assert(c)]: compiled with [NDEBUG] it is nothing and [c] is not
    evaluated; otherwise the program is aborted when [c] is false. *)
Definition assert (NDEBUG : bool) (c : bool) : M unit :=
  if NDEBUG then ret tt
  else if c then ret tt else throw AssertionFailed.

(** A loop over the links of [mLinks], in index order: [body] runs for
    [linkIndex], [linkIndex + 1], ... ([n] of them) until one throws. *)
Fixpoint forEachLink (body : nat -> M unit) (linkIndex : nat) (n : nat) : M unit :=
  match n with
  | O => ret tt
  | S n' => body linkIndex ;;; forEachLink body (S linkIndex) n'
  end.

Section CruDmaChannel.

(** Constants and types of [CruDmaChannel.h] and [Cru/Constants.h], and
    members inherited from [DmaChannelPdaBase]; these files are not among
    the sources. *)
Variable LINK_QUEUE_CAPACITY : N.
Variable READY_QUEUE_CAPACITY : N.
Variable LinkIndex_max : N.
Variable DATA_SOURCE_SELECT_INTERNAL : N.
Variable DATA_SOURCE_SELECT_GBT : N.
(** [checkSuperpage] validates the superpage and throws when it rejects it. *)
Variable checkSuperpage : Superpage -> bool.
Variable getBusOffsetAddress : N -> N.

Variable config : Config.

(** Whether the class is compiled with [NDEBUG]; nothing in the sources
    fixes the build. *)
Variable NDEBUG : bool.

(** ** Moving superpages *)

Definition pushSuperpageToLink (linkIndex : nat) (superpage : Superpage) : M unit :=
  link <- linkAt linkIndex ;;
  modify (fun s => set_mLinkQueuesTotalAvailable
                     (uint32_decr (mLinkQueuesTotalAvailable s)) s) ;;;
  modify (fun s => set_mLinks
                     (<[linkIndex :=
                          {| id := id link;
                             superpageCounter := superpageCounter link;
                             queue := push_back LINK_QUEUE_CAPACITY (queue link) superpage |}]>
                        (mLinks s)) s).

Definition transferSuperpageFromLinkToReady (linkIndex : nat) : M unit :=
  link <- linkAt linkIndex ;;
  match queue link with
  | [] => throw LinkQueueEmpty
  | front :: rest =>
      modify (fun s => set_mReadyQueue
                         (push_back READY_QUEUE_CAPACITY (mReadyQueue s) (markArrived front)) s) ;;;
      modify (fun s => set_mLinks
                         (<[linkIndex :=
                              {| id := id link;
                                 superpageCounter := uint32_incr (superpageCounter link);
                                 queue := rest |}]>
                            (mLinks s)) s) ;;;
      modify (fun s => set_mLinkQueuesTotalAvailable
                         (uint32_incr (mLinkQueuesTotalAvailable s)) s)
  end.

(** ** Pushing *)

(** The loop of [getNextLinkIndex] over the links from index [i] on.  The
    search starts from [std::numeric_limits<...>::max()] of [LinkIndex]
    and of [size_t]. *)
Fixpoint getNextLinkIndex_from (links : list Link) (i : N)
    (smallestQueueIndex smallestQueueSize : N) : N :=
  match links with
  | [] => smallestQueueIndex
  | link :: rest =>
      let queueSize := queue_size (queue link) in
      if queueSize <? smallestQueueSize
      then getNextLinkIndex_from rest (i + 1) i queueSize
      else getNextLinkIndex_from rest (i + 1) smallestQueueIndex smallestQueueSize
  end.

Definition getNextLinkIndex (s : State) : N :=
  getNextLinkIndex_from (mLinks s) 0 LinkIndex_max SIZE_MAX.

(** The division [getSize() / mDmaPageSize] is undefined for a page size
    of zero; the model stops there, after the superpage was enqueued. *)
Definition pushSuperpage (superpage : Superpage) : M unit :=
  (if checkSuperpage superpage then ret tt else throw InvalidSuperpage) ;;;
  s <- get ;;
  (if mLinkQueuesTotalAvailable s =? 0 then throw TransferQueueFull else ret tt) ;;;
  let linkIndex := N.to_nat (getNextLinkIndex s) in
  link <- linkAt linkIndex ;;
  (if LINK_QUEUE_CAPACITY <=? queue_size (queue link)
   then throw LinkQueueFull else ret tt) ;;;
  pushSuperpageToLink linkIndex superpage ;;;
  (if mDmaPageSize config =? 0 then throw UndefinedBehaviour else ret tt) ;;;
  let dmaPages := getSize superpage / mDmaPageSize config in
  let busAddress := getBusOffsetAddress (getOffset superpage) in
  call (pushSuperpageDescriptor (id link) dmaPages busAddress).

(** ** Reading the ready queue *)

Definition getSuperpage : M Superpage :=
  s <- get ;;
  match mReadyQueue s with
  | [] => throw GetFromEmptyReadyQueue
  | front :: _ => ret front
  end.

Definition popSuperpage : M Superpage :=
  s <- get ;;
  match mReadyQueue s with
  | [] => throw PopFromEmptyReadyQueue
  | front :: rest => modify (set_mReadyQueue rest) ;;; ret front
  end.

(** ** Filling *)

(** The inner loop of [fillSuperpages], with [n] iterations left. *)
Fixpoint fillLink_loop (linkIndex : nat) (n : nat) : M unit :=
  match n with
  | O => ret tt
  | S n' =>
      s <- get ;;
      if READY_QUEUE_CAPACITY <=? queue_size (mReadyQueue s)
      then ret tt
      else transferSuperpageFromLinkToReady linkIndex ;;; fillLink_loop linkIndex n'
  end.

(** The body of the outer loop.  [getSuperpageCount] is what the card
    answers for each link id during this call. *)
Definition fillLink (getSuperpageCount : N -> N) (linkIndex : nat) : M unit :=
  link <- linkAt linkIndex ;;
  let superpageCount := uint32 (getSuperpageCount (id link)) in
  let available := superpageCounter link <? superpageCount in
  if available then
    let amountAvailable := uint32 (superpageCount - superpageCounter link) in
    if queue_size (queue link) <? amountAvailable
    then throw FirmwareReportedTooMany
    else fillLink_loop linkIndex (N.to_nat amountAvailable)
  else ret tt.

(** The outer loop, at [linkIndex] with [n] links left. *)
Definition fillSuperpages_from (getSuperpageCount : N -> N) (linkIndex : nat) (n : nat)
  : M unit :=
  forEachLink (fillLink getSuperpageCount) linkIndex n.

Definition fillSuperpages (getSuperpageCount : N -> N) : M unit :=
  s <- get ;;
  fillSuperpages_from getSuperpageCount 0 (length (mLinks s)).

(** ** Starting *)

Definition enableDebugMode : M unit :=
  s <- get ;;
  if negb (debugModeEnabled s)
  then call (setDebugModeEnabled true) ;;; modify (set_mDebugRegisterReset true)
  else ret tt.

Definition resetCru : M unit :=
  call resetDataGeneratorCounter ;;;
  call (sleep_for 100) ;;;
  call resetCard ;;;
  call (sleep_for 100).

Definition setBufferReady : M unit :=
  call (setDataEmulatorEnabled true) ;;; call (sleep_for 10).

Definition setBufferNonReady : M unit :=
  call (setDataEmulatorEnabled false).

(** The choice of [dataSourceSelection] at the head of [deviceStartDma]. *)
Definition selectDataSource : M N :=
  if mGeneratorEnabled config then
    match mLoopbackMode config with
    | Internal => enableDebugMode ;;; ret DATA_SOURCE_SELECT_INTERNAL
    | Ddg => ret DATA_SOURCE_SELECT_GBT
    | _ => throw GeneratorLoopbackUnsupported
    end
  else
    match mLoopbackMode config with
    | None_ => ret DATA_SOURCE_SELECT_GBT
    | _ => throw LoopbackWithoutGeneratorUnsupported
    end.

Definition clearLink (link : Link) : Link :=
  {| id := id link; superpageCounter := 0; queue := [] |}.

(** The block headed "Initialize link queues". *)
Definition initializeLinkQueues : M unit :=
  modify (fun s => set_mLinks (map clearLink (mLinks s)) s) ;;;
  modify (set_mReadyQueue []) ;;;
  modify (fun s => set_mLinkQueuesTotalAvailable
                     (uint32 (size_t_of (LINK_QUEUE_CAPACITY * N.of_nat (length (mLinks s))))) s).

Definition deviceStartDma : M unit :=
  (if mGeneratorEnabled config
   then call (setDataGeneratorPattern (mGeneratorPattern config) (mGeneratorDataSize config)
                (mGeneratorDataSizeRandomEnabled config))
   else ret tt) ;;;
  dataSourceSelection <- selectDataSource ;;
  (if dataSelection config then call (setDataSource dataSourceSelection) else ret tt) ;;;
  resetCru ;;;
  initializeLinkQueues ;;;
  setBufferReady ;;;
  if dataSourceSelection =? DATA_SOURCE_SELECT_GBT
  then call disableDataTaking ;;; call enableDataTaking
  else ret tt.

(** ** Stopping *)

(** The inner loop of [deviceStopDma], with [n] iterations left. *)
Fixpoint stopLink_loop (linkIndex : nat) (n : nat) : M unit :=
  match n with
  | O => ret tt
  | S n' =>
      s <- get ;;
      if READY_QUEUE_CAPACITY <=? queue_size (mReadyQueue s)
      then ret tt
      else
        link <- linkAt linkIndex ;;
        (match queue link with
         | [] => ret tt
         | _ :: _ => transferSuperpageFromLinkToReady linkIndex
         end) ;;;
        stopLink_loop linkIndex n'
  end.

(** The body of the outer loop, up to and including its assertion.  The
    local count of moved superpages is only logged and is left out. *)
Definition stopLink (getSuperpageCount : N -> N) (linkIndex : nat) : M unit :=
  link <- linkAt linkIndex ;;
  let superpageCount := int32 (getSuperpageCount (id link)) in
  let amountAvailable := uint32_of_Z (superpageCount - Z.of_N (superpageCounter link)) in
  stopLink_loop linkIndex (N.to_nat (uint32 (amountAvailable + 1))) ;;;
  link' <- linkAt linkIndex ;;
  assert NDEBUG (queue_size (queue link') =? 0).

Definition deviceStopDma_from (getSuperpageCount : N -> N) (linkIndex : nat) (n : nat)
  : M unit :=
  forEachLink (stopLink getSuperpageCount) linkIndex n.

Definition deviceStopDma (getSuperpageCount : N -> N) : M unit :=
  setBufferNonReady ;;;
  call disableDataTaking ;;;
  s <- get ;;
  deviceStopDma_from getSuperpageCount 0 (length (mLinks s)) ;;;
  s' <- get ;;
  assert NDEBUG
    (mLinkQueuesTotalAvailable s' =?
     size_t_of (LINK_QUEUE_CAPACITY * N.of_nat (length (mLinks s')))).

(** ** Queries *)

(** The two sizes are returned as [int]. *)
Definition getTransferQueueAvailable (s : State) : Z :=
  int32 (mLinkQueuesTotalAvailable s).

Definition isTransferQueueEmpty (s : State) : bool :=
  mLinkQueuesTotalAvailable s =? size_t_of (LINK_QUEUE_CAPACITY * N.of_nat (length (mLinks s))).

Definition getReadyQueueSize (s : State) : Z := int32 (queue_size (mReadyQueue s)).

Definition isReadyQueueFull (s : State) : bool :=
  queue_size (mReadyQueue s) =? READY_QUEUE_CAPACITY.

(** ** Bookkeeping used by the statements below *)

(** The number of superpages in the link queues, found by scanning them. *)
Definition pendingTotal (links : list Link) : N :=
  foldr (fun link acc => queue_size (queue link) + acc) 0 links.

Definition fullCapacity (s : State) : N :=
  LINK_QUEUE_CAPACITY * N.of_nat (length (mLinks s)).

(** The free slots as a scan of the queues gives them. *)
Definition scanAvailable (s : State) : N :=
  fullCapacity s - pendingTotal (mLinks s).

(** The counter and the queues agree, and the capacity fits the counter. *)
Definition slotsInvariant (s : State) : Prop :=
  mLinkQueuesTotalAvailable s + pendingTotal (mLinks s) = fullCapacity s
  /\ fullCapacity s < UINT32_MODULUS.

(** Free places in the ready queue. *)
Definition readyRoom (s : State) : nat :=
  N.to_nat (READY_QUEUE_CAPACITY - queue_size (mReadyQueue s)).

(** The state in which the [m] oldest superpages of link [linkIndex]
    (whose record was [link]) have been moved to the ready queue by [m]
    calls of [transferSuperpageFromLinkToReady]. *)
Definition transferred (linkIndex m : nat) (link : Link) (s : State) : State :=
  {| mLinks := <[linkIndex :=
                  {| id := id link;
                     superpageCounter := Nat.iter m uint32_incr (superpageCounter link);
                     queue := drop m (queue link) |}]> (mLinks s);
     mReadyQueue := mReadyQueue s ++ map markArrived (take m (queue link));
     mLinkQueuesTotalAvailable := Nat.iter m uint32_incr (mLinkQueuesTotalAvailable s);
     mDebugRegisterReset := mDebugRegisterReset s;
     debugModeEnabled := debugModeEnabled s;
     trace := trace s |}.

(** The state after [pushSuperpageToLink] has appended [superpage] to the
    queue of link [linkIndex] (whose record was [link]). *)
Definition enqueued (linkIndex : nat) (link : Link) (superpage : Superpage) (s : State)
  : State :=
  {| mLinks := <[linkIndex :=
                  {| id := id link;
                     superpageCounter := superpageCounter link;
                     queue := queue link ++ [superpage] |}]> (mLinks s);
     mReadyQueue := mReadyQueue s;
     mLinkQueuesTotalAvailable := uint32_decr (mLinkQueuesTotalAvailable s);
     mDebugRegisterReset := mDebugRegisterReset s;
     debugModeEnabled := debugModeEnabled s;
     trace := trace s |}.

(** The descriptor that [pushSuperpage] hands to the card. *)
Definition descriptorOf (link : Link) (superpage : Superpage) : Effect :=
  pushSuperpageDescriptor (id link) (getSize superpage / mDmaPageSize config)
    (getBusOffsetAddress (getOffset superpage)).

Definition announced (e : Effect) (s : State) : State :=
  {| mLinks := mLinks s;
     mReadyQueue := mReadyQueue s;
     mLinkQueuesTotalAvailable := mLinkQueuesTotalAvailable s;
     mDebugRegisterReset := mDebugRegisterReset s;
     debugModeEnabled := debugModeEnabled s;
     trace := trace s ++ [e] |}.

(** The bound of the inner loop of [deviceStopDma] for [link]: what the
    card reports beyond the link's counter, plus one. *)
Definition stopBound (getSuperpageCount : N -> N) (link : Link) : N :=
  uint32 (uint32_of_Z (int32 (getSuperpageCount (id link))
                       - Z.of_N (superpageCounter link)) + 1).

(** How many superpages that loop moves. *)
Definition stopMoves (getSuperpageCount : N -> N) (link : Link) (s : State) : nat :=
  N.to_nat (stopBound getSuperpageCount link)
    `min` (length (queue link) `min` readyRoom s).

(** [deviceStartDma] in two phases: up to the end of the block that
    initializes the queues, and from [setBufferReady] on. *)
Definition startUpToQueues : M N :=
  (if mGeneratorEnabled config
   then call (setDataGeneratorPattern (mGeneratorPattern config) (mGeneratorDataSize config)
                (mGeneratorDataSizeRandomEnabled config))
   else ret tt) ;;;
  dataSourceSelection <- selectDataSource ;;
  (if dataSelection config then call (setDataSource dataSourceSelection) else ret tt) ;;;
  resetCru ;;;
  initializeLinkQueues ;;;
  ret dataSourceSelection.

Definition startFromArming (dataSourceSelection : N) : M unit :=
  setBufferReady ;;;
  if dataSourceSelection =? DATA_SOURCE_SELECT_GBT
  then call disableDataTaking ;;; call enableDataTaking
  else ret tt.

(** The combinations of generator and loopback mode that the CRU accepts. *)
Definition supportedConfiguration : bool :=
  if mGeneratorEnabled config then
    match mLoopbackMode config with
    | Internal | Ddg => true
    | _ => false
    end
  else
    match mLoopbackMode config with
    | None_ => true
    | _ => false
    end.

(** Queues and counters as the block "Initialize link queues" leaves them. *)
Definition queuesInitialized (s0 s : State) : Prop :=
  mLinks s = map clearLink (mLinks s0)
  /\ mReadyQueue s = []
  /\ mLinkQueuesTotalAvailable s = uint32 (size_t_of (fullCapacity s0)).

(** The states a channel can be in once it has been started: those that a
    returning [deviceStartDma] leaves (for a capacity that fits the
    counter), and those that push, fill, pop and stop make of them,
    whatever these return or throw. *)
Inductive reachable : State -> Prop :=
| reachable_start s s' :
    fullCapacity s < UINT32_MODULUS ->
    deviceStartDma s = (Returned tt, s') ->
    reachable s'
| reachable_push s superpage :
    reachable s -> reachable (pushSuperpage superpage s).2
| reachable_fill s getSuperpageCount :
    reachable s -> reachable (fillSuperpages getSuperpageCount s).2
| reachable_pop s :
    reachable s -> reachable (popSuperpage s).2
| reachable_stop s getSuperpageCount :
    reachable s -> reachable (deviceStopDma getSuperpageCount s).2.

(** ** Runs without pops *)

Inductive Operation : Type :=
| Push (superpage : Superpage)
| Fill (getSuperpageCount : N -> N)
| Stop (getSuperpageCount : N -> N).

(** The state after a sequence of operations, with the superpages whose
    push returned, each with the index of the link it was pushed to, in
    the order of the pushes.  A caller may catch an exception and go on;
    going on after a failed assertion only adds runs. *)
Fixpoint runOperations (ops : list Operation) (s : State)
  : State * list (nat * Superpage) :=
  match ops with
  | [] => (s, [])
  | Push superpage :: rest =>
      let (outcome, s1) := pushSuperpage superpage s in
      let (s', accepted) := runOperations rest s1 in
      (s', match outcome with
           | Returned _ => (N.to_nat (getNextLinkIndex s), superpage) :: accepted
           | Thrown _ => accepted
           end)
  | Fill getSuperpageCount :: rest =>
      runOperations rest (fillSuperpages getSuperpageCount s).2
  | Stop getSuperpageCount :: rest =>
      runOperations rest (deviceStopDma getSuperpageCount s).2
  end.

(** The superpages pushed to link [k], in the order of the pushes. *)
Fixpoint pushedTo (k : nat) (accepted : list (nat * Superpage)) : list Superpage :=
  match accepted with
  | [] => []
  | (linkIndex, superpage) :: rest =>
      if Nat.eqb linkIndex k then superpage :: pushedTo k rest else pushedTo k rest
  end.

(** The queue of link [k]. *)
Definition linkQueue (k : nat) (s : State) : SuperpageQueue :=
  match mLinks s !! k with
  | Some link => queue link
  | None => []
  end.

(** From [s] to [s'] link [k] was served in order: its queue in [s]
    followed by [pushed] is what has left it, [out], followed by its queue
    in [s']; the ready queue has grown at the back, and the superpages of
    [out] are among the new entries in the same order. *)
Definition drainsInOrder (k : nat) (pushed : list Superpage) (s s' : State) : Prop :=
  exists out added,
    linkQueue k s ++ pushed = out ++ linkQueue k s'
    /\ mReadyQueue s' = mReadyQueue s ++ added
    /\ map markArrived out `sublist_of` added.

(** A channel with one link whose ready queue, followed by the link's
    queue, holds [history] (as the superpages look once they have arrived). *)
Definition servesInOrder (history : list Superpage) (s : State) : Prop :=
  exists link,
    mLinks s = [link] /\
    mReadyQueue s ++ map markArrived (queue link) = history.

(** ** The rest of the class *)

(** [ResetLevel::type], as the [ResetLevel.h] among the sources declares
    it.  The class is compiled against a later header (its constructor
    names a level that this one lacks); [deviceResetChannel] only tells
    [Nothing] from the other levels. *)
Inductive ResetLevel : Type := Nothing | Rorc | RorcDiu | RorcDiuSiu.

Definition deviceResetChannel (resetLevel : ResetLevel) : M unit :=
  match resetLevel with
  | Nothing => ret tt
  | _ => resetCru
  end.

Definition resetDebugMode : M unit :=
  s <- get ;;
  if mDebugRegisterReset s then call (setDebugModeEnabled false) else ret tt.

(** [~CruDmaChannel]; the message about superpages left in the ready
    queue is only logged. *)
Definition destructor : M unit :=
  setBufferNonReady ;;;
  match mLoopbackMode config with
  | Internal => resetDebugMode
  | _ => ret tt
  end.

(** *** The constructor *)

(** What the constructor reads of its [Parameters]: every getter answers
    an optional value.  The link mask is a set of ids; it is given here as
    the sequence that iterating over it yields. *)
Record Parameters : Type := mkParameters {
  getGeneratorLoopback : option LoopbackMode;
  getGeneratorEnabled : option bool;
  getGeneratorPattern : option N;
  getGeneratorRandomSizeEnabled : option bool;
  getGeneratorDataSize : option N;
  getDmaPageSize : option N;
  getLinkMask : option (list N)
}.

(** [Cru::MAX_LINKS], [Cru::DMA_PAGE_SIZE] and [GeneratorPattern::Incremental]. *)
Variable MAX_LINKS : N.
Variable DMA_PAGE_SIZE : N.
Variable Incremental : N.

(** The two exceptions of the constructor. *)
Inductive ConstructorError : Type :=
| LoopbackModeNotSupported (mode : LoopbackMode)
| InvalidLinkId (linkId : N).

(** The loop headed "Insert links": [links] is [mLinks] so far.  A link is
    pushed with its id alone; its counter is then zero and its queue
    empty, unless [CruDmaChannel.h], which is not among the sources, says
    otherwise. *)
Fixpoint insertLinks (linkMask : list N) (links : list Link)
  : sum ConstructorError (list Link) :=
  match linkMask with
  | [] => inr links
  | linkId :: rest =>
      if MAX_LINKS <=? linkId
      then inl (InvalidLinkId linkId)
      else insertLinks rest
             (links ++ [ {| id := linkId; superpageCounter := 0; queue := [] |} ])
  end.

(** The constructor, as far as it fixes the members of [Config] and
    [mLinks]; [dataSelectionFeature] is what the firmware of the card
    reports.  The construction of the base class and of the BARs is left
    out. *)
Definition constructor (parameters : Parameters) (dataSelectionFeature : bool)
  : sum ConstructorError (Config * list Link) :=
  let members :=
    {| mLoopbackMode := default Internal (getGeneratorLoopback parameters);
       mGeneratorEnabled := default true (getGeneratorEnabled parameters);
       mGeneratorPattern := default Incremental (getGeneratorPattern parameters);
       mGeneratorDataSizeRandomEnabled :=
         default false (getGeneratorRandomSizeEnabled parameters);
       mGeneratorDataSize := default DMA_PAGE_SIZE (getGeneratorDataSize parameters);
       mDmaPageSize := default DMA_PAGE_SIZE (getDmaPageSize parameters);
       dataSelection := dataSelectionFeature |} in
  match mLoopbackMode members with
  | Diu | Siu => inl (LoopbackModeNotSupported (mLoopbackMode members))
  | _ =>
      match insertLinks (default [0] (getLinkMask parameters)) [] with
      | inl e => inl e
      | inr links => inr (members, links)
      end
  end.

(** ** Sessions: any sequence of calls *)

Inductive Call : Type :=
| CallStart
| CallPush (superpage : Superpage)
| CallFill (getSuperpageCount : N -> N)
| CallPeek
| CallPop
| CallStop (getSuperpageCount : N -> N)
| CallReset (resetLevel : ResetLevel).

(** What a sequence of calls leaves: the state, the superpages whose push
    returned (each with the index of its link) and the superpages that the
    pops returned, both in the order of the calls. *)
Record Session : Type := mkSession {
  finalState : State;
  acceptedPushes : list (nat * Superpage);
  poppedSuperpages : list Superpage
}.

Fixpoint runCalls (calls : list Call) (s : State) : Session :=
  match calls with
  | [] => {| finalState := s; acceptedPushes := []; poppedSuperpages := [] |}
  | CallStart :: rest => runCalls rest (deviceStartDma s).2
  | CallPush superpage :: rest =>
      let later := runCalls rest (pushSuperpage superpage s).2 in
      match (pushSuperpage superpage s).1 with
      | Returned _ =>
          {| finalState := finalState later;
             acceptedPushes :=
               (N.to_nat (getNextLinkIndex s), superpage) :: acceptedPushes later;
             poppedSuperpages := poppedSuperpages later |}
      | Thrown _ => later
      end
  | CallFill getSuperpageCount :: rest =>
      runCalls rest (fillSuperpages getSuperpageCount s).2
  | CallPeek :: rest => runCalls rest (getSuperpage s).2
  | CallPop :: rest =>
      let later := runCalls rest (popSuperpage s).2 in
      match (popSuperpage s).1 with
      | Returned superpage =>
          {| finalState := finalState later;
             acceptedPushes := acceptedPushes later;
             poppedSuperpages := superpage :: poppedSuperpages later |}
      | Thrown _ => later
      end
  | CallStop getSuperpageCount :: rest =>
      runCalls rest (deviceStopDma getSuperpageCount s).2
  | CallReset resetLevel :: rest =>
      runCalls rest (deviceResetChannel resetLevel s).2
  end.

(** ** Properties of states used by the further statements *)

(** No queue holds more than its capacity. *)
Definition withinCapacity (s : State) : Prop :=
  queue_size (mReadyQueue s) <= READY_QUEUE_CAPACITY
  /\ forall link, link ∈ mLinks s -> queue_size (queue link) <= LINK_QUEUE_CAPACITY.

(** A superpage as [transferSuperpageFromLinkToReady] leaves it. *)
Definition complete (superpage : Superpage) : Prop :=
  ready superpage = true /\ received superpage = size superpage.

(** The link queues differ in length by one at most. *)
Definition balanced (s : State) : Prop :=
  forall link other,
    link ∈ mLinks s -> other ∈ mLinks s ->
    queue_size (queue link) <= queue_size (queue other) + 1.

(** The superpages of all link queues, link after link. *)
Definition allPending (links : list Link) : list Superpage :=
  concat (map queue links).

(** The card does not report more for [link] than was pushed to it. *)
Definition plausible (getSuperpageCount : N -> N) (link : Link) : Prop :=
  uint32 (getSuperpageCount (id link)) <= superpageCounter link + queue_size (queue link).

(** The number of superpages of [link] that the card reports as new. *)
Definition arrivals (getSuperpageCount : N -> N) (link : Link) : nat :=
  N.to_nat (uint32 (getSuperpageCount (id link)) - superpageCounter link).

(** [link] once its new arrivals have left it, and the arrivals of a list
    of links as they enter the ready queue. *)
Definition afterArrivals (getSuperpageCount : N -> N) (link : Link) : Link :=
  {| id := id link;
     superpageCounter := superpageCounter link + N.of_nat (arrivals getSuperpageCount link);
     queue := drop (arrivals getSuperpageCount link) (queue link) |}.

Definition arrived (getSuperpageCount : N -> N) (links : list Link) : list Superpage :=
  concat (map (fun link =>
                 map markArrived (take (arrivals getSuperpageCount link) (queue link)))
            links).

(** [link] once all its superpages have left it. *)
Definition drainedLink (link : Link) : Link :=
  {| id := id link;
     superpageCounter := Nat.iter (length (queue link)) uint32_incr (superpageCounter link);
     queue := [] |}.

(** The state after a fill in which every arrival found a place in the
    ready queue, and after a stop that drained every link. *)
Definition afterFill (getSuperpageCount : N -> N) (s : State) : State :=
  {| mLinks := map (afterArrivals getSuperpageCount) (mLinks s);
     mReadyQueue := mReadyQueue s ++ arrived getSuperpageCount (mLinks s);
     mLinkQueuesTotalAvailable :=
       mLinkQueuesTotalAvailable s
       + N.of_nat (length (arrived getSuperpageCount (mLinks s)));
     mDebugRegisterReset := mDebugRegisterReset s;
     debugModeEnabled := debugModeEnabled s;
     trace := trace s |}.

Definition afterDrain (s : State) : State :=
  {| mLinks := map drainedLink (mLinks s);
     mReadyQueue := mReadyQueue s ++ map markArrived (allPending (mLinks s));
     mLinkQueuesTotalAvailable := mLinkQueuesTotalAvailable s + pendingTotal (mLinks s);
     mDebugRegisterReset := mDebugRegisterReset s;
     debugModeEnabled := debugModeEnabled s;
     trace := trace s ++ [setDataEmulatorEnabled false; disableDataTaking] |}.

(** ** The fill and the drain, link by link *)

(** [link] once its [m] oldest superpages have left it, and these
    superpages as they enter the ready queue. *)
Definition movedFrom (m : nat) (link : Link) : Link :=
  {| id := id link;
     superpageCounter := Nat.iter m uint32_incr (superpageCounter link);
     queue := drop m (queue link) |}.

Definition takenFrom (m : nat) (link : Link) : list Superpage :=
  map markArrived (take m (queue link)).

Definition isPlausible (getSuperpageCount : N -> N) (link : Link) : bool :=
  uint32 (getSuperpageCount (id link)) <=? superpageCounter link + queue_size (queue link).

(** The fill in the words of claim C5, to be compared with
    [fillSuperpages]: link after link, each link gives the smaller of its
    arrivals and of the places that the ready queue has left; the fill
    ends at the first link for which the card reports more than its queue
    holds.  The result is the links and the superpages that arrived. *)
Fixpoint fillLinks (getSuperpageCount : N -> N) (links : list Link) (room : nat)
  : list Link * list Superpage :=
  match links with
  | [] => ([], [])
  | link :: rest =>
      if isPlausible getSuperpageCount link then
        let m := (arrivals getSuperpageCount link `min` room)%nat in
        let later := fillLinks getSuperpageCount rest (room - m) in
        (movedFrom m link :: later.1, takenFrom m link ++ later.2)
      else (link :: rest, [])
  end.

Definition filled (getSuperpageCount : N -> N) (s : State) : State :=
  let result := fillLinks getSuperpageCount (mLinks s) (readyRoom s) in
  {| mLinks := result.1;
     mReadyQueue := mReadyQueue s ++ result.2;
     mLinkQueuesTotalAvailable := mLinkQueuesTotalAvailable s + N.of_nat (length result.2);
     mDebugRegisterReset := mDebugRegisterReset s;
     debugModeEnabled := debugModeEnabled s;
     trace := trace s |}.

(** The drain in the words of claim C6, to be compared with
    [deviceStopDma]: link after link, each link gives what the card
    reports beyond its counter plus one, but no more than its queue holds
    or the ready queue has places left.  In a build with assertions the
    drain ends after the first link that it leaves with superpages. *)
Definition stopCount (getSuperpageCount : N -> N) (link : Link) (room : nat) : nat :=
  (N.to_nat (stopBound getSuperpageCount link) `min` (length (queue link) `min` room))%nat.

Fixpoint drainLinks (getSuperpageCount : N -> N) (links : list Link) (room : nat)
  : list Link * list Superpage :=
  match links with
  | [] => ([], [])
  | link :: rest =>
      let m := stopCount getSuperpageCount link room in
      if NDEBUG || Nat.eqb m (length (queue link)) then
        let later := drainLinks getSuperpageCount rest (room - m) in
        (movedFrom m link :: later.1, takenFrom m link ++ later.2)
      else (movedFrom m link :: rest, takenFrom m link)
  end.

(** Whether the drain leaves no link with superpages. *)
Fixpoint drainsAll (getSuperpageCount : N -> N) (links : list Link) (room : nat) : bool :=
  match links with
  | [] => true
  | link :: rest =>
      let m := stopCount getSuperpageCount link room in
      Nat.eqb m (length (queue link)) && drainsAll getSuperpageCount rest (room - m)
  end.

Definition drained (getSuperpageCount : N -> N) (s : State) : State :=
  let result := drainLinks getSuperpageCount (mLinks s) (readyRoom s) in
  {| mLinks := result.1;
     mReadyQueue := mReadyQueue s ++ result.2;
     mLinkQueuesTotalAvailable := mLinkQueuesTotalAvailable s + N.of_nat (length result.2);
     mDebugRegisterReset := mDebugRegisterReset s;
     debugModeEnabled := debugModeEnabled s;
     trace := trace s ++ [setDataEmulatorEnabled false; disableDataTaking] |}.

(** The state in which the loop over the links has gone through [rest],
    the links before being [done]. *)
Definition loopState (done : list Link) (result : list Link * list Superpage)
    (s : State) : State :=
  {| mLinks := done ++ result.1;
     mReadyQueue := mReadyQueue s ++ result.2;
     mLinkQueuesTotalAvailable :=
       mLinkQueuesTotalAvailable s + N.of_nat (length result.2);
     mDebugRegisterReset := mDebugRegisterReset s;
     debugModeEnabled := debugModeEnabled s;
     trace := trace s |}.

(** The states that a drain can empty: no link queue is longer than what
    the card reports beyond the link's counter plus one, and the ready
    queue has room for all that the link queues hold. *)
Definition drainable (getSuperpageCount : N -> N) (s : State) : Prop :=
  (forall link, link ∈ mLinks s ->
     queue_size (queue link) <= stopBound getSuperpageCount link)
  /\ (length (allPending (mLinks s)) <= readyRoom s)%nat.

(** The superpages that the channel holds, as they look once they have
    arrived: the ready queue, then the link queues. *)
Definition held (s : State) : list Superpage :=
  mReadyQueue s ++ map markArrived (allPending (mLinks s)).

(** The descriptors among the calls of a trace. *)
Definition isDescriptor (e : Effect) : bool :=
  match e with
  | pushSuperpageDescriptor _ _ _ => true
  | _ => false
  end.

Definition descriptors (calls : list Effect) : list Effect :=
  List.filter isDescriptor calls.

(** The descriptor of a superpage pushed to the link at [linkIndex]. *)
Definition descriptorAt (links : list Link) (push : nat * Superpage) : Effect :=
  pushSuperpageDescriptor
    (match links !! push.1 with Some link => id link | None => 0 end)
    (getSize push.2 / mDmaPageSize config)
    (getBusOffsetAddress (getOffset push.2)).

(** ** A channel for the examples *)

Definition exampleConfig : Config :=
  {| mLoopbackMode := Internal; mGeneratorEnabled := true; mGeneratorPattern := 0;
     mGeneratorDataSizeRandomEnabled := false; mGeneratorDataSize := 8192;
     mDmaPageSize := 8192; dataSelection := true |}.

(** A stand-in for [checkSuperpage]: it rejects the empty superpage. *)
Definition exampleCheck (superpage : Superpage) : bool := negb (size superpage =? 0).

(** A stand-in for [getBusOffsetAddress]: the buffer starts at 2^32. *)
Definition exampleBusAddress (offset : N) : N := 4294967296 + offset.

Definition exampleSuperpage (n : N) : Superpage :=
  {| offset := n * 1048576; size := 1048576; received := 0; ready := false;
     userData := n |}.

Definition exampleChannel (links : list Link) (readyQueue : SuperpageQueue)
    (available : N) : State :=
  {| mLinks := links; mReadyQueue := readyQueue;
     mLinkQueuesTotalAvailable := available;
     mDebugRegisterReset := false; debugModeEnabled := false; trace := [] |}.

(** Two links of capacity 4: three superpages wait on link 0 and one on
    link 1, so four slots are free. *)
Definition exampleBusy : State :=
  exampleChannel
    [ {| id := 0; superpageCounter := 2;
         queue := [exampleSuperpage 1; exampleSuperpage 3; exampleSuperpage 5] |};
      {| id := 1; superpageCounter := 2; queue := [exampleSuperpage 2] |} ]
    [] 4.

(** The same links with every slot taken. *)
Definition exampleFull : State :=
  exampleChannel
    [ {| id := 0; superpageCounter := 0;
         queue := map exampleSuperpage [1; 3; 5; 7] |};
      {| id := 1; superpageCounter := 0;
         queue := map exampleSuperpage [2; 4; 6; 8] |} ]
    [] 0.

(** What the card reports: [onLink0] for link 0 and [onLink1] for the others. *)
Definition exampleCounts (onLink0 onLink1 : N) (linkId : N) : N :=
  if linkId =? 0 then onLink0 else onLink1.

(** Two superpages wait on link 0 and none on link 1. *)
Definition exampleDraining : State :=
  exampleChannel
    [ {| id := 0; superpageCounter := 2;
         queue := [exampleSuperpage 1; exampleSuperpage 3] |};
      {| id := 1; superpageCounter := 2; queue := [] |} ]
    [] 6.


(** Three pushes with two fills in between. *)
Definition exampleRun : list Operation :=
  [ Push (exampleSuperpage 1); Push (exampleSuperpage 2); Fill (exampleCounts 1 0);
    Push (exampleSuperpage 3); Fill (exampleCounts 2 0) ].

(** Two and three links of capacity 4, just started. *)
Definition exampleStarted : State :=
  exampleChannel
    [ {| id := 0; superpageCounter := 0; queue := [] |};
      {| id := 1; superpageCounter := 0; queue := [] |} ]
    [] 8.

Definition exampleThreeLinks : State :=
  exampleChannel
    [ {| id := 0; superpageCounter := 0; queue := [] |};
      {| id := 1; superpageCounter := 0; queue := [] |};
      {| id := 2; superpageCounter := 0; queue := [] |} ]
    [] 12.

Definition examplePushes (numbers : list N) : list Operation :=
  map (fun n => Push (exampleSuperpage n)) numbers.

(** One link of capacity 4, just started. *)
Definition exampleSingle : State :=
  exampleChannel [ {| id := 0; superpageCounter := 0; queue := [] |} ] [] 4.

(** The busy channel with a full ready queue. *)
Definition exampleReadyFull : State :=
  exampleChannel (mLinks exampleBusy)
    (map (fun n => markArrived (exampleSuperpage n)) [11; 12; 13; 14; 15; 16; 17; 18]) 4.

(** A session without a start: pushes, a fill, pops, a reset and a stop. *)
Definition exampleSession : list Call :=
  [ CallPush (exampleSuperpage 1); CallPush (exampleSuperpage 2);
    CallFill (exampleCounts 1 0); CallPop; CallPush (exampleSuperpage 3);
    CallReset Rorc; CallPeek; CallStop (exampleCounts 2 1); CallPop ].

(** Ten superpages for a channel with eight slots. *)
Definition exampleBurst : list Superpage :=
  map exampleSuperpage [1; 2; 3; 4; 5; 6; 7; 8; 9; 10].

(** Parameters that leave everything to the defaults, and parameters with
    a link mask whose last id is out of range. *)
Definition exampleParameters : Parameters :=
  {| getGeneratorLoopback := None; getGeneratorEnabled := None;
     getGeneratorPattern := None; getGeneratorRandomSizeEnabled := None;
     getGeneratorDataSize := None; getDmaPageSize := None; getLinkMask := None |}.

Definition exampleBadMask : Parameters :=
  {| getGeneratorLoopback := Some Ddg; getGeneratorEnabled := Some true;
     getGeneratorPattern := None; getGeneratorRandomSizeEnabled := None;
     getGeneratorDataSize := None; getDmaPageSize := None;
     getLinkMask := Some [0; 1; 30] |}.

(** The busy channel with two places left in the ready queue. *)
Definition exampleNearlyFull : State :=
  exampleChannel (mLinks exampleBusy)
    (map (fun n => markArrived (exampleSuperpage n)) [11; 12; 13; 14; 15; 16]) 4.

(** The channel as a start and three pushes leave it, before any
    superpage has arrived. *)
Definition exampleUnfilled : State :=
  exampleChannel
    [ {| id := 0; superpageCounter := 0;
         queue := [exampleSuperpage 1; exampleSuperpage 3] |};
      {| id := 1; superpageCounter := 0; queue := [exampleSuperpage 2] |} ]
    [] 5.

(** ** Arithmetic of the counters *)

Ltac nlia :=
  try clear getBusOffsetAddress; try clear checkSuperpage; try clear config;
  zify; Z.to_euclidean_division_equations; lia.

Ltac unfold_ints :=
  unfold uint32_incr, uint32_decr, uint32, uint32_of_Z, int32, size_t_of,
    queue_size, UINT32_MODULUS, INT32_HALF, SIZE_MAX in *.

(** Runs the straight-line code of the start sequence on a symbolic state. *)
Ltac run_start :=
  repeat (progress
    (unfold ret, throw, set_mLinks, set_mReadyQueue, set_mLinkQueuesTotalAvailable,
       set_mDebugRegisterReset;
     cbn [bind get call modify resetCru initializeLinkQueues setBufferReady
          negb mLinks mReadyQueue mLinkQueuesTotalAvailable mDebugRegisterReset
          debugModeEnabled trace fst snd])).

Lemma uint32_small x : x < UINT32_MODULUS -> uint32 x = x.
Proof. unfold_ints. intros. nlia. Qed.

Lemma size_t_of_small x : x < UINT32_MODULUS -> size_t_of x = x.
Proof. unfold_ints. intros. nlia. Qed.

Lemma uint32_to_Z x :
  Z.of_N (uint32 x) = (Z.of_N x mod Z.of_N UINT32_MODULUS)%Z.
Proof. unfold uint32. apply N2Z.inj_mod. Qed.

Lemma uint32_lt x : uint32 x < UINT32_MODULUS.
Proof. unfold_ints. nlia. Qed.

Lemma uint32_decr_exact x :
  0 < x -> x < UINT32_MODULUS -> uint32_decr x = x - 1.
Proof. unfold_ints. intros. nlia. Qed.

Lemma iter_incr_exact m x :
  x + N.of_nat m < UINT32_MODULUS ->
  Nat.iter m uint32_incr x = x + N.of_nat m.
Proof.
  induction m as [|m IH]; intros Hlt.
  - simpl. lia.
  - rewrite Nat.iter_succ, IH by lia. unfold_ints. nlia.
Qed.

Lemma iter_incr_wrap m x :
  m <> 0%nat -> Nat.iter m uint32_incr x = uint32 (x + N.of_nat m).
Proof.
  induction m as [|m IH]; intros Hm; [done|].
  rewrite Nat.iter_succ. destruct m as [|m'].
  - simpl. reflexivity.
  - rewrite IH by done. unfold_ints. nlia.
Qed.

(** The subtraction of [deviceStopDma], an [int32_t] minus a [uint32_t],
    is the difference modulo 2^32. *)
Lemma stop_amount_mod hw c :
  Z.of_N (uint32_of_Z (int32 hw - Z.of_N c)) =
  ((Z.of_N hw - Z.of_N c) mod Z.of_N UINT32_MODULUS)%Z.
Proof.
  unfold uint32_of_Z, int32.
  destruct (uint32 hw <? INT32_HALF); unfold_ints; nlia.
Qed.

(** ** The queues *)

Lemma push_back_room capacity q sp :
  queue_size q < capacity -> push_back capacity q sp = q ++ [sp].
Proof.
  intros Hlt. unfold push_back.
  destruct (N.eqb_spec capacity 0) as [->|_]; [lia|].
  destruct (N.ltb_spec (queue_size q) capacity); [done | lia].
Qed.

Lemma pendingTotal_insert links i link link' :
  links !! i = Some link ->
  pendingTotal (<[i := link']> links) + queue_size (queue link) =
  pendingTotal links + queue_size (queue link').
Proof.
  revert i. induction links as [|l links IH]; intros [|i] Hi; simplify_eq/=.
  - lia.
  - specialize (IH _ Hi). lia.
Qed.

Lemma pendingTotal_lookup_le links i link :
  links !! i = Some link -> queue_size (queue link) <= pendingTotal links.
Proof.
  revert i. induction links as [|l links IH]; intros [|i] Hi; simplify_eq/=.
  - lia.
  - specialize (IH _ Hi). lia.
Qed.

Lemma pendingTotal_clear links : pendingTotal (map clearLink links) = 0.
Proof. induction links as [|l links IH]; simpl; [done|]. rewrite IH. done. Qed.

Lemma pendingTotal_empty links :
  (forall link, link ∈ links -> queue link = []) -> pendingTotal links = 0.
Proof.
  induction links as [|l links IH]; intros Hall; simpl; [done|].
  rewrite (Hall l) by (left). rewrite IH; [done|].
  intros link Hin. apply Hall. by right.
Qed.

Lemma pendingTotal_lower_bound links m :
  (forall link, link ∈ links -> m <= queue_size (queue link)) ->
  m * N.of_nat (length links) <= pendingTotal links.
Proof.
  induction links as [|l links IH]; intros Hall; simpl; [lia|].
  assert (m <= queue_size (queue l)) by (apply Hall; left).
  assert (m * N.of_nat (length links) <= pendingTotal links).
  { apply IH. intros link Hin. apply Hall. by right. }
  nia.
Qed.

(** ** Moving superpages: what the transfer does *)

Lemma transferred_0 i link s : mLinks s !! i = Some link -> transferred i 0 link s = s.
Proof.
  intros Hi. destruct s, link. unfold transferred. simpl in *.
  rewrite drop_0, app_nil_r, list_insert_id; done.
Qed.

Lemma transferred_lookup i m link s :
  mLinks s !! i = Some link ->
  mLinks (transferred i m link s) !! i =
  Some {| id := id link;
          superpageCounter := Nat.iter m uint32_incr (superpageCounter link);
          queue := drop m (queue link) |}.
Proof.
  intros Hi. simpl. apply list_lookup_insert_eq. by eapply lookup_lt_Some.
Qed.

Lemma transferred_1_lookup i link front rest s :
  mLinks s !! i = Some link ->
  queue link = front :: rest ->
  mLinks (transferred i 1 link s) !! i =
  Some {| id := id link;
          superpageCounter := uint32_incr (superpageCounter link);
          queue := rest |}.
Proof. intros Hi Hq. rewrite transferred_lookup, Hq by done. reflexivity. Qed.

Lemma transferred_lookup_ne i j m link s :
  i <> j -> mLinks (transferred i m link s) !! j = mLinks s !! j.
Proof. intros Hne. simpl. by apply list_lookup_insert_ne. Qed.

Lemma transferred_length i m link s :
  length (mLinks (transferred i m link s)) = length (mLinks s).
Proof. simpl. apply length_insert. Qed.

Lemma transferred_succ i m link s front rest :
  queue link = front :: rest ->
  transferred i m {| id := id link;
               superpageCounter := uint32_incr (superpageCounter link);
               queue := rest |} (transferred i 1 link s)
  = transferred i (S m) link s.
Proof.
  intros Hq. unfold transferred. simpl. rewrite Hq. simpl.
  rewrite list_insert_insert_eq, <- !Nat.iter_succ, !Nat.iter_succ_r.
  rewrite <- app_assoc. reflexivity.
Qed.

Lemma transferSuperpageFromLinkToReady_spec i link front rest s :
  mLinks s !! i = Some link ->
  queue link = front :: rest ->
  queue_size (mReadyQueue s) < READY_QUEUE_CAPACITY ->
  transferSuperpageFromLinkToReady i s = (Returned tt, transferred i 1 link s).
Proof.
  intros Hi Hq Hroom.
  unfold transferSuperpageFromLinkToReady, bind, linkAt, modify.
  rewrite Hi, Hq. simpl.
  rewrite push_back_room by done.
  unfold transferred. rewrite Hq. simpl. rewrite drop_0. reflexivity.
Qed.

Lemma transferSuperpageFromLinkToReady_empty i link s :
  mLinks s !! i = Some link ->
  queue link = [] ->
  transferSuperpageFromLinkToReady i s = (Thrown LinkQueueEmpty, s).
Proof.
  intros Hi Hq. unfold transferSuperpageFromLinkToReady, bind, linkAt.
  rewrite Hi, Hq. reflexivity.
Qed.

Lemma readyRoom_full s :
  READY_QUEUE_CAPACITY <= queue_size (mReadyQueue s) -> readyRoom s = 0%nat.
Proof. unfold readyRoom. lia. Qed.

Lemma readyRoom_moved_1 i link front rest s :
  queue link = front :: rest ->
  queue_size (mReadyQueue s) < READY_QUEUE_CAPACITY ->
  readyRoom s = S (readyRoom (transferred i 1 link s)).
Proof.
  intros Hq Hlt. unfold readyRoom, transferred, queue_size in *. simpl.
  rewrite Hq. simpl. rewrite length_app. simpl. lia.
Qed.

(** ** The loops of [fillSuperpages] *)

Lemma fillLink_loop_spec i n : forall s link,
  mLinks s !! i = Some link ->
  (n <= length (queue link))%nat ->
  fillLink_loop i n s = (Returned tt, transferred i (n `min` readyRoom s) link s).
Proof.
  induction n as [|n IH]; intros s link Hi Hn.
  - simpl. rewrite transferred_0 by done. reflexivity.
  - cbn [fillLink_loop]. unfold bind at 1. unfold get.
    destruct (N.leb_spec READY_QUEUE_CAPACITY (queue_size (mReadyQueue s))) as [Hfull|Hroom].
    + rewrite readyRoom_full, Nat.min_0_r, transferred_0 by done. reflexivity.
    + destruct (queue link) as [|front rest] eqn:Hq; [simpl in Hn; lia|].
      unfold bind.
      rewrite (transferSuperpageFromLinkToReady_spec i link front rest) by done.
      pose proof (transferred_1_lookup i link front rest s Hi Hq) as Hi1.
      rewrite (IH _ _ Hi1) by (simpl in *; lia).
      rewrite (transferred_succ i _ link s front rest Hq).
      rewrite (readyRoom_moved_1 i link front rest s Hq Hroom).
      reflexivity.
Qed.

Lemma fillLink_no_arrival hw i link s :
  mLinks s !! i = Some link ->
  uint32 (hw (id link)) <= superpageCounter link ->
  fillLink hw i s = (Returned tt, s).
Proof.
  intros Hi Hle. unfold fillLink, bind, linkAt. rewrite Hi.
  destruct (N.ltb_spec (superpageCounter link) (uint32 (hw (id link)))); [lia|].
  reflexivity.
Qed.

Lemma fillLink_too_many hw i link s :
  mLinks s !! i = Some link ->
  superpageCounter link < uint32 (hw (id link)) ->
  queue_size (queue link) < uint32 (hw (id link)) - superpageCounter link ->
  fillLink hw i s = (Thrown FirmwareReportedTooMany, s).
Proof.
  intros Hi Hlt Hmany. unfold fillLink, bind, linkAt. rewrite Hi.
  destruct (N.ltb_spec (superpageCounter link) (uint32 (hw (id link)))); [|lia].
  pose proof (uint32_lt (hw (id link))).
  rewrite (uint32_small (_ - _)) by lia.
  destruct (N.ltb_spec (queue_size (queue link))
              (uint32 (hw (id link)) - superpageCounter link)); [|lia].
  reflexivity.
Qed.

Lemma fillLink_arrivals hw i link s :
  mLinks s !! i = Some link ->
  superpageCounter link < uint32 (hw (id link)) ->
  uint32 (hw (id link)) - superpageCounter link <= queue_size (queue link) ->
  fillLink hw i s =
  (Returned tt,
   transferred i (N.to_nat (uint32 (hw (id link)) - superpageCounter link) `min` readyRoom s)
     link s).
Proof.
  intros Hi Hlt Hfew. unfold fillLink, bind, linkAt. rewrite Hi.
  destruct (N.ltb_spec (superpageCounter link) (uint32 (hw (id link)))); [|lia].
  pose proof (uint32_lt (hw (id link))).
  rewrite (uint32_small (_ - _)) by lia.
  destruct (N.ltb_spec (queue_size (queue link))
              (uint32 (hw (id link)) - superpageCounter link)); [lia|].
  apply fillLink_loop_spec; [done|]. unfold queue_size in *. lia.
Qed.

Lemma fillLink_out_of_range hw i s :
  mLinks s !! i = None -> fillLink hw i s = (Thrown UndefinedBehaviour, s).
Proof. intros Hi. unfold fillLink, bind, linkAt. rewrite Hi. reflexivity. Qed.

(** ** The loops of [deviceStopDma] *)

Lemma stopLink_loop_spec i n : forall s link,
  mLinks s !! i = Some link ->
  stopLink_loop i n s =
  (Returned tt, transferred i (n `min` (length (queue link) `min` readyRoom s)) link s).
Proof.
  induction n as [|n IH]; intros s link Hi.
  - simpl. rewrite transferred_0 by done. reflexivity.
  - cbn [stopLink_loop]. unfold bind at 1. unfold get.
    destruct (N.leb_spec READY_QUEUE_CAPACITY (queue_size (mReadyQueue s))) as [Hfull|Hroom].
    + rewrite readyRoom_full, !Nat.min_0_r, transferred_0 by done. reflexivity.
    + unfold bind at 1. unfold linkAt at 1. rewrite Hi.
      destruct (queue link) as [|front rest] eqn:Hq.
      * unfold bind, ret. rewrite (IH _ _ Hi), Hq. cbn [length].
        rewrite !Nat.min_0_l, !Nat.min_0_r. reflexivity.
      * unfold bind.
        rewrite (transferSuperpageFromLinkToReady_spec i link front rest) by done.
        pose proof (transferred_1_lookup i link front rest s Hi Hq) as Hi1.
        rewrite (IH _ _ Hi1).
        rewrite (transferred_succ i _ link s front rest Hq).
        rewrite (readyRoom_moved_1 i link front rest s Hq Hroom).
        reflexivity.
Qed.

(** ** [pushSuperpage], case by case *)

Lemma pushSuperpage_cases superpage s :
  pushSuperpage superpage s =
  if checkSuperpage superpage then
    if mLinkQueuesTotalAvailable s =? 0 then (Thrown TransferQueueFull, s)
    else
      match mLinks s !! N.to_nat (getNextLinkIndex s) with
      | None => (Thrown UndefinedBehaviour, s)
      | Some link =>
          if LINK_QUEUE_CAPACITY <=? queue_size (queue link)
          then (Thrown LinkQueueFull, s)
          else
            let s1 := enqueued (N.to_nat (getNextLinkIndex s)) link superpage s in
            if mDmaPageSize config =? 0 then (Thrown UndefinedBehaviour, s1)
            else (Returned tt, announced (descriptorOf link superpage) s1)
      end
  else (Thrown InvalidSuperpage, s).
Proof.
  unfold pushSuperpage, bind, get.
  destruct (checkSuperpage superpage); [|reflexivity].
  cbn [ret]. destruct (mLinkQueuesTotalAvailable s =? 0); [reflexivity|].
  cbn [ret]. unfold linkAt.
  destruct (mLinks s !! N.to_nat (getNextLinkIndex s)) as [link|] eqn:Hi; [|reflexivity].
  destruct (N.leb_spec LINK_QUEUE_CAPACITY (queue_size (queue link))) as [|Hroom];
    [reflexivity|].
  cbn [ret]. unfold pushSuperpageToLink, bind, linkAt, modify. rewrite Hi.
  rewrite push_back_room by done.
  destruct (mDmaPageSize config =? 0); reflexivity.
Qed.

(** ** The free-slot counter against the queues *)

Lemma slotsInvariant_scan s :
  slotsInvariant s -> mLinkQueuesTotalAvailable s = scanAvailable s.
Proof. unfold slotsInvariant, scanAvailable. lia. Qed.

Lemma transferred_slots i m link s :
  mLinks s !! i = Some link ->
  (m <= length (queue link))%nat ->
  slotsInvariant s ->
  mLinkQueuesTotalAvailable (transferred i m link s) =
  mLinkQueuesTotalAvailable s + N.of_nat m.
Proof.
  intros Hi Hm [Hsum Hfit]. simpl.
  pose proof (pendingTotal_lookup_le _ _ _ Hi) as Hle. unfold queue_size in Hle.
  apply iter_incr_exact. lia.
Qed.

Lemma transferred_invariant i m link s :
  mLinks s !! i = Some link ->
  (m <= length (queue link))%nat ->
  slotsInvariant s ->
  slotsInvariant (transferred i m link s).
Proof.
  intros Hi Hm Hinv.
  pose proof (transferred_slots i m link s Hi Hm Hinv) as Hslots.
  destruct Hinv as [Hsum Hfit].
  unfold slotsInvariant, fullCapacity in *. rewrite transferred_length, Hslots.
  split; [|done]. simpl.
  pose proof (pendingTotal_insert (mLinks s) i link
    {| id := id link;
       superpageCounter := Nat.iter m uint32_incr (superpageCounter link);
       queue := drop m (queue link) |} Hi) as Hins.
  simpl in Hins. unfold queue_size in *. rewrite length_drop in Hins. lia.
Qed.

Lemma enqueued_invariant i link superpage s :
  mLinks s !! i = Some link ->
  mLinkQueuesTotalAvailable s <> 0 ->
  slotsInvariant s ->
  slotsInvariant (enqueued i link superpage s)
  /\ mLinkQueuesTotalAvailable (enqueued i link superpage s) =
     mLinkQueuesTotalAvailable s - 1.
Proof.
  intros Hi Hne [Hsum Hfit].
  assert (mLinkQueuesTotalAvailable (enqueued i link superpage s) =
          mLinkQueuesTotalAvailable s - 1) as Hslots.
  { simpl. apply uint32_decr_exact; lia. }
  split; [|done].
  unfold slotsInvariant, fullCapacity in *. rewrite Hslots.
  simpl. rewrite length_insert. split; [|done].
  pose proof (pendingTotal_insert (mLinks s) i link
    {| id := id link; superpageCounter := superpageCounter link;
       queue := queue link ++ [superpage] |} Hi) as Hins.
  simpl in Hins. unfold queue_size in *. rewrite length_app in Hins. simpl in Hins.
  lia.
Qed.

Lemma pushSuperpage_invariant superpage s :
  slotsInvariant s -> slotsInvariant (pushSuperpage superpage s).2.
Proof.
  intros Hinv. rewrite pushSuperpage_cases.
  destruct (checkSuperpage superpage); [|done].
  destruct (N.eqb_spec (mLinkQueuesTotalAvailable s) 0); [done|].
  destruct (mLinks s !! N.to_nat (getNextLinkIndex s)) as [link|] eqn:Hi; [|done].
  destruct (LINK_QUEUE_CAPACITY <=? queue_size (queue link)); [done|].
  cbn zeta.
  destruct (enqueued_invariant _ link superpage s Hi) as [Hinv' _]; [done..|].
  destruct (mDmaPageSize config =? 0); exact Hinv'.
Qed.

Lemma popSuperpage_invariant s :
  slotsInvariant s -> slotsInvariant (popSuperpage s).2.
Proof.
  intros Hinv. unfold popSuperpage, bind, get.
  destruct (mReadyQueue s); exact Hinv.
Qed.

(** ** Loops over the links *)

Lemma forEachLink_preserves (P : State -> Prop) body :
  (forall i s, P s -> P (body i s).2) ->
  forall n i s, P s -> P (forEachLink body i n s).2.
Proof.
  intros Hbody. induction n as [|n IH]; intros i s HP; [done|].
  cbn [forEachLink]. unfold bind.
  pose proof (Hbody i s HP) as HP1.
  destruct (body i s) as [[[]|e] s1]; [|done].
  by apply IH.
Qed.

Lemma forEachLink_split body a b : forall i s,
  forEachLink body i (a + b) s =
  (forEachLink body i a ;;; forEachLink body (i + a) b) s.
Proof.
  induction a as [|a IH]; intros i s.
  - rewrite Nat.add_0_r. reflexivity.
  - cbn [Nat.add forEachLink]. unfold bind.
    destruct (body i s) as [[[]|e] s1]; [|done].
    rewrite IH. unfold bind. by rewrite Nat.add_succ_r.
Qed.

Lemma forEachLink_throws (P : State -> Prop) body e :
  (forall i s, P s -> P (body i s).2) ->
  forall n i s s',
  P s ->
  forEachLink body i n s = (Thrown e, s') ->
  exists j s1, (i <= j < i + n)%nat /\ P s1 /\ body j s1 = (Thrown e, s').
Proof.
  intros Hbody. induction n as [|n IH]; intros i s s' HP Hrun; [done|].
  cbn [forEachLink] in Hrun. unfold bind in Hrun.
  pose proof (Hbody i s HP) as HP1.
  destruct (body i s) as [[[]|e1] s1] eqn:Hb.
  - destruct (IH _ _ _ HP1 Hrun) as (j & s2 & Hj & HP2 & Hthrow).
    exists j, s2. split; [lia|done].
  - simplify_eq. exists i, s. split; [lia|done].
Qed.

Lemma forEachLink_returns (P : State -> Prop) body :
  (forall i s, P s -> P (body i s).2) ->
  forall n i s s',
  P s ->
  forEachLink body i n s = (Returned tt, s') ->
  forall j, (i <= j < i + n)%nat ->
  exists sj sj', P sj /\ body j sj = (Returned tt, sj').
Proof.
  intros Hbody. induction n as [|n IH]; intros i s s' HP Hrun j Hj; [lia|].
  cbn [forEachLink] in Hrun. unfold bind in Hrun.
  pose proof (Hbody i s HP) as HP1.
  destruct (body i s) as [[[]|e1] s1] eqn:Hb; [|done].
  destruct (decide (j = i)) as [->|Hne].
  - by exists s, s1.
  - apply (IH _ _ _ HP1 Hrun). lia.
Qed.

Lemma forEachLink_frame body :
  (forall i j s, i <> j -> mLinks (body i s).2 !! j = mLinks s !! j) ->
  forall n i s j, (j < i \/ i + n <= j)%nat ->
  mLinks (forEachLink body i n s).2 !! j = mLinks s !! j.
Proof.
  intros Hbody. induction n as [|n IH]; intros i s j Hj; [done|].
  cbn [forEachLink]. unfold bind.
  pose proof (Hbody i j s) as Hstep.
  destruct (body i s) as [[[]|e1] s1] eqn:Hb.
  - rewrite IH by lia. apply Hstep. lia.
  - apply Hstep. lia.
Qed.

Lemma forEachLink_idle body s :
  forall n i,
  (forall j, (i <= j < i + n)%nat -> body j s = (Returned tt, s)) ->
  forEachLink body i n s = (Returned tt, s).
Proof.
  induction n as [|n IH]; intros i Hidle; [done|].
  cbn [forEachLink]. unfold bind. rewrite Hidle by lia.
  apply IH. intros j Hj. apply Hidle. lia.
Qed.

(** ** [fillSuperpages] link by link *)

Lemma fillLink_result hw i s :
  fillLink hw i s = (Thrown UndefinedBehaviour, s) /\ mLinks s !! i = None
  \/ fillLink hw i s = (Returned tt, s)
  \/ fillLink hw i s = (Thrown FirmwareReportedTooMany, s)
  \/ exists link m,
       mLinks s !! i = Some link /\ (m <= length (queue link))%nat /\
       fillLink hw i s = (Returned tt, transferred i m link s).
Proof.
  destruct (mLinks s !! i) as [link|] eqn:Hi.
  - destruct (N.le_gt_cases (uint32 (hw (id link))) (superpageCounter link)) as [Hle|Hlt].
    { right; left. by eapply fillLink_no_arrival. }
    destruct (N.le_gt_cases (uint32 (hw (id link)) - superpageCounter link)
                (queue_size (queue link))) as [Hfew|Hmany].
    + right; right; right. eexists link, _. split; [done|]. split; [|by apply fillLink_arrivals].
      unfold queue_size in *. lia.
    + right; right; left. by eapply fillLink_too_many.
  - left. split; [by apply fillLink_out_of_range | done].
Qed.

Lemma fillLink_invariant hw i s :
  slotsInvariant s -> slotsInvariant (fillLink hw i s).2.
Proof.
  intros Hinv.
  destruct (fillLink_result hw i s) as [[-> _]|[->|[->|(link & m & Hi & Hm & ->)]]];
    [done..|].
  by apply transferred_invariant.
Qed.

Lemma fillLink_other hw i j s :
  i <> j -> mLinks (fillLink hw i s).2 !! j = mLinks s !! j.
Proof.
  intros Hne.
  destruct (fillLink_result hw i s) as [[-> _]|[->|[->|(link & m & Hi & Hm & ->)]]];
    [done..|].
  by apply transferred_lookup_ne.
Qed.

Lemma fillLink_length hw i s :
  length (mLinks (fillLink hw i s).2) = length (mLinks s).
Proof.
  destruct (fillLink_result hw i s) as [[-> _]|[->|[->|(link & m & Hi & Hm & ->)]]];
    [done..|].
  apply transferred_length.
Qed.

Lemma fillSuperpages_invariant hw s :
  slotsInvariant s -> slotsInvariant (fillSuperpages hw s).2.
Proof.
  intros Hinv. unfold fillSuperpages, bind, get, fillSuperpages_from.
  apply forEachLink_preserves; [|done].
  intros i s1. apply fillLink_invariant.
Qed.

(** ** [deviceStopDma] link by link *)

Lemma stopLink_spec hw i link s :
  mLinks s !! i = Some link ->
  stopLink hw i s =
  (if NDEBUG then Returned tt
   else if decide (stopMoves hw link s = length (queue link))
        then Returned tt else Thrown AssertionFailed,
   transferred i (stopMoves hw link s) link s).
Proof.
  intros Hi. unfold stopLink, bind at 1, linkAt at 1. rewrite Hi.
  unfold bind at 1. fold (stopBound hw link).
  rewrite (stopLink_loop_spec i _ s link Hi). fold (stopMoves hw link s).
  unfold bind, linkAt. rewrite (transferred_lookup i _ link s Hi). cbn [queue].
  unfold assert. destruct NDEBUG; [reflexivity|].
  unfold queue_size. rewrite length_drop.
  assert (stopMoves hw link s <= length (queue link))%nat by (unfold stopMoves; lia).
  destruct (decide (stopMoves hw link s = length (queue link))) as [Heq|Hne].
  - rewrite Heq, Nat.sub_diag. reflexivity.
  - destruct (N.eqb_spec (N.of_nat (length (queue link) - stopMoves hw link s)) 0);
      [lia | reflexivity].
Qed.

Lemma stopLink_out_of_range hw i s :
  mLinks s !! i = None -> stopLink hw i s = (Thrown UndefinedBehaviour, s).
Proof. intros Hi. unfold stopLink, bind, linkAt. rewrite Hi. reflexivity. Qed.

Lemma stopMoves_le hw link s : (stopMoves hw link s <= length (queue link))%nat.
Proof. unfold stopMoves. lia. Qed.

Lemma stopLink_invariant hw i s :
  slotsInvariant s -> slotsInvariant (stopLink hw i s).2.
Proof.
  intros Hinv. destruct (mLinks s !! i) as [link|] eqn:Hi.
  - rewrite (stopLink_spec hw i link s Hi). cbn [snd].
    apply transferred_invariant; [done | apply stopMoves_le | done].
  - by rewrite stopLink_out_of_range.
Qed.

Lemma stopLink_other hw i j s :
  i <> j -> mLinks (stopLink hw i s).2 !! j = mLinks s !! j.
Proof.
  intros Hne. destruct (mLinks s !! i) as [link|] eqn:Hi.
  - rewrite (stopLink_spec hw i link s Hi). by apply transferred_lookup_ne.
  - by rewrite stopLink_out_of_range.
Qed.

Lemma stopLink_length hw i s :
  length (mLinks (stopLink hw i s).2) = length (mLinks s).
Proof.
  destruct (mLinks s !! i) as [link|] eqn:Hi.
  - rewrite (stopLink_spec hw i link s Hi). apply transferred_length.
  - by rewrite stopLink_out_of_range.
Qed.

Lemma call_announced e s :
  (forall b, e <> setDebugModeEnabled b) ->
  call e s = (Returned tt, announced e s).
Proof. intros He. destruct e; try reflexivity. by destruct (He enabled). Qed.

Lemma announced_invariant e s : slotsInvariant s -> slotsInvariant (announced e s).
Proof. done. Qed.

Lemma deviceStopDma_unfold hw s :
  deviceStopDma hw s =
  let s0 := announced disableDataTaking (announced (setDataEmulatorEnabled false) s) in
  match deviceStopDma_from hw 0 (length (mLinks s)) s0 with
  | (Returned _, s') =>
      (if NDEBUG then Returned tt
       else if mLinkQueuesTotalAvailable s' =? size_t_of (fullCapacity s')
            then Returned tt else Thrown AssertionFailed, s')
  | (Thrown e, s') => (Thrown e, s')
  end.
Proof.
  unfold deviceStopDma, setBufferNonReady, bind, get, call, modify, announced.
  simpl.
  match goal with |- context [deviceStopDma_from hw 0 ?n ?s0] =>
    destruct (deviceStopDma_from hw 0 n s0) as [[[]|e] s'] end; [|done].
  unfold assert, fullCapacity.
  destruct NDEBUG; [reflexivity|]. destruct (_ =? _); reflexivity.
Qed.

Lemma deviceStopDma_invariant hw s :
  slotsInvariant s -> slotsInvariant (deviceStopDma hw s).2.
Proof.
  intros Hinv. rewrite deviceStopDma_unfold. cbn zeta.
  set (s0 := announced disableDataTaking (announced (setDataEmulatorEnabled false) s)).
  assert (slotsInvariant (deviceStopDma_from hw 0 (length (mLinks s)) s0).2) as Hrun.
  { unfold deviceStopDma_from.
    apply forEachLink_preserves; [|done]. intros i s1. apply stopLink_invariant. }
  destruct (deviceStopDma_from hw 0 (length (mLinks s)) s0) as [[[]|e] s']; [|done].
  destruct (_ =? _); exact Hrun.
Qed.

(** ** [deviceStartDma] phase by phase *)

Lemma deviceStartDma_phases s :
  deviceStartDma s =
  (dataSourceSelection <- startUpToQueues ;; startFromArming dataSourceSelection) s.
Proof.
  unfold deviceStartDma, startUpToQueues, startFromArming, bind, ret.
  repeat match goal with
         | |- context [match ?m with pair _ _ => _ end] =>
             lazymatch m with
             | context [match _ with pair _ _ => _ end] => fail
             | _ => destruct m as [[?|?] ?]
             end
         end; reflexivity.
Qed.

Lemma startUpToQueues_supported s :
  supportedConfiguration = true ->
  exists dataSourceSelection s1 pre,
    startUpToQueues s = (Returned dataSourceSelection, s1)
    /\ queuesInitialized s s1
    /\ trace s1 = trace s ++ pre
    /\ setDataEmulatorEnabled true ∉ pre.
Proof.
  unfold supportedConfiguration, startUpToQueues, selectDataSource, enableDebugMode,
    queuesInitialized, fullCapacity.
  destruct (mGeneratorEnabled config), (mLoopbackMode config); try done;
    destruct (dataSelection config), (debugModeEnabled s) eqn:Hdebug; intros _;
    run_start; rewrite ?Hdebug; run_start;
    eexists _, _, _; (split; [reflexivity|]);
    cbn [mLinks mReadyQueue mLinkQueuesTotalAvailable trace];
    rewrite ?length_map, <- ?app_assoc;
    (split; [done|]); (split; [reflexivity|]);
    cbn [app]; rewrite ?not_elem_of_cons; repeat (split; [done|]);
    apply not_elem_of_nil.
Qed.

Lemma startUpToQueues_unsupported s :
  supportedConfiguration = false ->
  exists e s1,
    startUpToQueues s = (Thrown e, s1)
    /\ e = (if mGeneratorEnabled config
            then GeneratorLoopbackUnsupported
            else LoopbackWithoutGeneratorUnsupported)
    /\ mLinks s1 = mLinks s
    /\ mReadyQueue s1 = mReadyQueue s
    /\ mLinkQueuesTotalAvailable s1 = mLinkQueuesTotalAvailable s.
Proof.
  unfold supportedConfiguration, startUpToQueues, selectDataSource.
  destruct (mGeneratorEnabled config), (mLoopbackMode config); try done;
    intros _; run_start; eexists _, _; (split; [reflexivity|]); done.
Qed.

Lemma startFromArming_spec dataSourceSelection s1 :
  exists s' post,
    startFromArming dataSourceSelection s1 = (Returned tt, s')
    /\ mLinks s' = mLinks s1
    /\ mReadyQueue s' = mReadyQueue s1
    /\ mLinkQueuesTotalAvailable s' = mLinkQueuesTotalAvailable s1
    /\ trace s' = trace s1 ++ setDataEmulatorEnabled true :: sleep_for 10 :: post.
Proof.
  unfold startFromArming.
  destruct (dataSourceSelection =? DATA_SOURCE_SELECT_GBT); run_start;
    eexists _, _; (split; [reflexivity|]);
    cbn [mLinks mReadyQueue mLinkQueuesTotalAvailable trace];
    rewrite <- ?app_assoc; done.
Qed.

Lemma queuesInitialized_invariant s0 s :
  fullCapacity s0 < UINT32_MODULUS ->
  queuesInitialized s0 s ->
  slotsInvariant s /\ mLinkQueuesTotalAvailable s = fullCapacity s0.
Proof.
  intros Hfit (Hlinks & _ & Hslots).
  assert (mLinkQueuesTotalAvailable s = fullCapacity s0) as Heq.
  { rewrite Hslots, size_t_of_small by done. by apply uint32_small. }
  split; [|done].
  unfold slotsInvariant. rewrite Heq. unfold fullCapacity in *.
  rewrite Hlinks, pendingTotal_clear, length_map. lia.
Qed.


(** ** The choice of the link *)

Lemma getNextLinkIndex_from_spec links : forall i0 bestIndex bestSize,
  let r := getNextLinkIndex_from links i0 bestIndex bestSize in
  (r = bestIndex /\
   forall j other, links !! j = Some other -> bestSize <= queue_size (queue other))
  \/ (exists k link,
        r = i0 + N.of_nat k /\ links !! k = Some link /\
        queue_size (queue link) < bestSize /\
        (forall j other, links !! j = Some other ->
           queue_size (queue link) <= queue_size (queue other)) /\
        (forall j other, (j < k)%nat -> links !! j = Some other ->
           queue_size (queue link) < queue_size (queue other))).
Proof.
  induction links as [|l links IH]; intros i0 bestIndex bestSize; cbn zeta.
  - left. split; [reflexivity|]. intros j other Hj. done.
  - cbn [getNextLinkIndex_from].
    destruct (N.ltb_spec (queue_size (queue l)) bestSize) as [Hlt|Hge].
    + right.
      destruct (IH (i0 + 1) i0 (queue_size (queue l)))
        as [[Hr Hall]|(k & link & Hr & Hk & Hsize & Hmin & Hfirst)].
      * exists 0%nat, l. rewrite Hr. split; [lia|]. split; [done|]. split; [done|].
        split.
        -- intros [|j] other Hj; simplify_eq/=; [lia|]. by eapply Hall.
        -- intros j other Hj. lia.
      * exists (S k), link. rewrite Hr. split; [lia|]. split; [done|]. split; [lia|].
        split.
        -- intros [|j] other Hj; simplify_eq/=; [lia|]. by eapply Hmin.
        -- intros [|j] other Hj Hlook; simplify_eq/=; [lia|].
           eapply Hfirst; [|done]. lia.
    + destruct (IH (i0 + 1) bestIndex bestSize)
        as [[Hr Hall]|(k & link & Hr & Hk & Hsize & Hmin & Hfirst)].
      * left. split; [done|].
        intros [|j] other Hj; simplify_eq/=; [lia|]. by eapply Hall.
      * right. exists (S k), link. rewrite Hr. split; [lia|]. split; [done|].
        split; [done|]. split.
        -- intros [|j] other Hj; simplify_eq/=; [lia|]. by eapply Hmin.
        -- intros [|j] other Hj Hlook; simplify_eq/=; [lia|].
           eapply Hfirst; [|done]. lia.
Qed.

(** With a free slot and the counter in step with the queues, the chosen
    link exists, is the first of the least loaded ones, and has room. *)
Lemma getNextLinkIndex_least_loaded s :
  slotsInvariant s ->
  mLinkQueuesTotalAvailable s <> 0 ->
  exists i link,
    getNextLinkIndex s = N.of_nat i /\ mLinks s !! i = Some link /\
    queue_size (queue link) < LINK_QUEUE_CAPACITY /\
    (forall j other, mLinks s !! j = Some other ->
       queue_size (queue link) <= queue_size (queue other)) /\
    (forall j other, (j < i)%nat -> mLinks s !! j = Some other ->
       queue_size (queue link) < queue_size (queue other)).
Proof.
  intros [Hsum Hfit] Hfree. unfold getNextLinkIndex.
  destruct (getNextLinkIndex_from_spec (mLinks s) 0 LinkIndex_max SIZE_MAX)
    as [[_ Hall]|(k & link & Hr & Hk & Hsize & Hmin & Hfirst)].
  - exfalso. unfold fullCapacity in *.
    destruct (mLinks s) as [|l links] eqn:Hlinks.
    + simpl in *. lia.
    + pose proof (Hall 0%nat l eq_refl) as Hbig.
      pose proof (pendingTotal_lookup_le (l :: links) 0 l eq_refl) as Hle.
      unfold_ints. lia.
  - exists k, link. rewrite Hr. split; [lia|]. split; [done|]. split; [|done].
    destruct (N.lt_ge_cases (queue_size (queue link)) LINK_QUEUE_CAPACITY) as [|Hfull];
      [done|].
    exfalso.
    pose proof (pendingTotal_lower_bound (mLinks s) LINK_QUEUE_CAPACITY) as Hlow.
    unfold fullCapacity in *.
    assert (LINK_QUEUE_CAPACITY * N.of_nat (length (mLinks s)) <= pendingTotal (mLinks s)).
    { apply Hlow. intros other Hin.
      apply list_elem_of_lookup in Hin as [j Hj].
      specialize (Hmin j other Hj). lia. }
    lia.
Qed.

(** ** What a returning drain leaves behind *)

Lemma deviceStopDma_from_length hw n i s :
  length (mLinks (deviceStopDma_from hw i n s).2) = length (mLinks s).
Proof.
  unfold deviceStopDma_from.
  apply (forEachLink_preserves (fun s1 => length (mLinks s1) = length (mLinks s)));
    [|done].
  intros j s1 <-. apply stopLink_length.
Qed.

(** ** One link: the order of the superpages *)

Lemma transferred_serves history m link s :
  mLinks s = [link] ->
  (m <= length (queue link))%nat ->
  servesInOrder history s ->
  servesInOrder history (transferred 0 m link s).
Proof.
  intros Hlinks Hm (link0 & Hlinks0 & Hview).
  rewrite Hlinks in Hlinks0. simplify_eq.
  eexists. split.
  - cbn [transferred mLinks]. rewrite Hlinks. reflexivity.
  - cbn [transferred mReadyQueue queue].
    rewrite <- app_assoc, <- map_app, take_drop. reflexivity.
Qed.

Lemma announced_serves history e s :
  servesInOrder history s -> servesInOrder history (announced e s).
Proof. done. Qed.

Lemma fillSuperpages_serves history hw s :
  servesInOrder history s -> servesInOrder history (fillSuperpages hw s).2.
Proof.
  intros Hserves. pose proof Hserves as (link & Hlinks & _).
  unfold fillSuperpages, bind, get, fillSuperpages_from. rewrite Hlinks.
  cbn [length forEachLink]. unfold bind.
  destruct (fillLink_result hw 0 s)
    as [[-> _]|[->|[->|(l & m & Hl & Hm & ->)]]]; [done..|].
  rewrite Hlinks in Hl. simplify_eq/=.
  by apply transferred_serves.
Qed.

Lemma deviceStopDma_serves history hw s :
  servesInOrder history s -> servesInOrder history (deviceStopDma hw s).2.
Proof.
  intros Hserves. pose proof Hserves as (link & Hlinks & _).
  rewrite deviceStopDma_unfold. cbn zeta. rewrite Hlinks.
  set (s0 := announced disableDataTaking (announced (setDataEmulatorEnabled false) s)).
  assert (mLinks s0 = [link]) as Hlinks0 by done.
  assert (mLinks s0 !! 0%nat = Some link) as Hl by (by rewrite Hlinks0).
  unfold deviceStopDma_from. cbn [length forEachLink]. unfold bind.
  rewrite (stopLink_spec hw 0 link s0 Hl).
  assert (servesInOrder history (transferred 0 (stopMoves hw link s0) link s0)) as Hmoved.
  { apply transferred_serves; [done | apply stopMoves_le | done]. }
  destruct NDEBUG; [done|].
  destruct (decide _); [|done].
  cbn [ret]. destruct (_ =? _); done.
Qed.

Lemma pushSuperpage_serves history superpage s :
  mDmaPageSize config <> 0 ->
  servesInOrder history s ->
  servesInOrder
    (match (pushSuperpage superpage s).1 with
     | Returned _ => history ++ [markArrived superpage]
     | Thrown _ => history
     end)
    (pushSuperpage superpage s).2.
Proof.
  intros Hpage Hserves. pose proof Hserves as (link & Hlinks & Hview).
  rewrite pushSuperpage_cases.
  destruct (checkSuperpage superpage); [|done].
  destruct (mLinkQueuesTotalAvailable s =? 0); [done|].
  destruct (mLinks s !! N.to_nat (getNextLinkIndex s)) as [l|] eqn:Hl; [|done].
  destruct (LINK_QUEUE_CAPACITY <=? queue_size (queue l)); [done|].
  cbn zeta. destruct (N.eqb_spec (mDmaPageSize config) 0); [done|].
  cbn [fst snd]. apply announced_serves.
  rewrite Hlinks in Hl.
  destruct (N.to_nat (getNextLinkIndex s)) as [|i]; [|by destruct i].
  simplify_eq/=.
  eexists. split.
  - cbn [enqueued mLinks]. rewrite Hlinks. reflexivity.
  - cbn [enqueued mReadyQueue queue]. rewrite map_app, app_assoc. reflexivity.
Qed.

Lemma runOperations_serves ops : forall history s,
  mDmaPageSize config <> 0 ->
  servesInOrder history s ->
  servesInOrder (history ++ map markArrived (map snd (runOperations ops s).2))
    (runOperations ops s).1.
Proof.
  induction ops as [|op ops IH]; intros history s Hpage Hserves.
  - cbn. by rewrite app_nil_r.
  - destruct op as [superpage|hw|hw]; cbn [runOperations].
    + pose proof (pushSuperpage_serves history superpage s Hpage Hserves) as Hpush.
      destruct (pushSuperpage superpage s) as [[[]|e] s1]; cbn [fst snd] in Hpush.
      * specialize (IH _ _ Hpage Hpush).
        destruct (runOperations ops s1) as [s' accepted]. cbn [fst snd map] in *.
        by rewrite <- app_assoc in IH.
      * specialize (IH _ _ Hpage Hpush).
        by destruct (runOperations ops s1) as [s' accepted].
    + apply IH; [done|]. by apply fillSuperpages_serves.
    + apply IH; [done|]. by apply deviceStopDma_serves.
Qed.

(** ** Any link: the order of its superpages *)

Lemma drainsInOrder_refl k s : drainsInOrder k [] s s.
Proof.
  exists [], []. rewrite !app_nil_r. split; [done|]. split; [done|]. constructor.
Qed.

Lemma drainsInOrder_trans k pushed1 pushed2 s s1 s2 :
  drainsInOrder k pushed1 s s1 ->
  drainsInOrder k pushed2 s1 s2 ->
  drainsInOrder k (pushed1 ++ pushed2) s s2.
Proof.
  intros (out1 & added1 & Hq1 & Hr1 & Hsub1) (out2 & added2 & Hq2 & Hr2 & Hsub2).
  exists (out1 ++ out2), (added1 ++ added2). split; [|split].
  - rewrite app_assoc, Hq1, <- !app_assoc, Hq2. reflexivity.
  - rewrite Hr2, Hr1, app_assoc. reflexivity.
  - rewrite map_app. by apply sublist_app.
Qed.

Lemma drainsInOrder_same k s s' :
  mLinks s' = mLinks s -> mReadyQueue s' = mReadyQueue s -> drainsInOrder k [] s s'.
Proof.
  intros Hlinks Hready. exists [], []. unfold linkQueue.
  rewrite Hlinks, Hready, !app_nil_r. split; [done|]. split; [done|]. constructor.
Qed.

Lemma drainsInOrder_moved k i m link s :
  mLinks s !! i = Some link ->
  drainsInOrder k [] s (transferred i m link s).
Proof.
  intros Hi. destruct (decide (i = k)) as [->|Hne].
  - exists (take m (queue link)), (map markArrived (take m (queue link))).
    unfold linkQueue. rewrite Hi, (transferred_lookup k m link s Hi). cbn [queue].
    rewrite app_nil_r, take_drop. done.
  - exists [], (map markArrived (take m (queue link))).
    unfold linkQueue. rewrite (transferred_lookup_ne i k m link s Hne), app_nil_r.
    split; [done|]. split; [done|]. apply sublist_nil_l.
Qed.

Lemma fillLink_drains k hw i s : drainsInOrder k [] s (fillLink hw i s).2.
Proof.
  destruct (fillLink_result hw i s) as [[-> _]|[->|[->|(link & m & Hi & Hm & ->)]]];
    [apply drainsInOrder_refl..|].
  by apply drainsInOrder_moved.
Qed.

Lemma stopLink_drains k hw i s : drainsInOrder k [] s (stopLink hw i s).2.
Proof.
  destruct (mLinks s !! i) as [link|] eqn:Hi.
  - rewrite (stopLink_spec hw i link s Hi). by apply drainsInOrder_moved.
  - rewrite stopLink_out_of_range by done. apply drainsInOrder_refl.
Qed.

Lemma forEachLink_drains k body :
  (forall i s, drainsInOrder k [] s (body i s).2) ->
  forall n i s, drainsInOrder k [] s (forEachLink body i n s).2.
Proof.
  intros Hbody n i s.
  apply (forEachLink_preserves (fun s1 => drainsInOrder k [] s s1));
    [|apply drainsInOrder_refl].
  intros j s1 Hs1. apply (drainsInOrder_trans k [] [] s s1); [done | apply Hbody].
Qed.

Lemma fillSuperpages_drains k hw s : drainsInOrder k [] s (fillSuperpages hw s).2.
Proof.
  unfold fillSuperpages, bind, get, fillSuperpages_from.
  apply forEachLink_drains. intros i s1. apply fillLink_drains.
Qed.

Lemma deviceStopDma_drains k hw s : drainsInOrder k [] s (deviceStopDma hw s).2.
Proof.
  rewrite deviceStopDma_unfold. cbn zeta.
  set (s0 := announced disableDataTaking (announced (setDataEmulatorEnabled false) s)).
  assert (drainsInOrder k [] s (deviceStopDma_from hw 0 (length (mLinks s)) s0).2) as Hrun.
  { apply (drainsInOrder_trans k [] [] s s0); [by apply drainsInOrder_same|].
    unfold deviceStopDma_from. apply forEachLink_drains.
    intros i s1. apply stopLink_drains. }
  destruct (deviceStopDma_from hw 0 (length (mLinks s)) s0) as [[[]|e] s']; [|done].
  destruct (_ =? _); exact Hrun.
Qed.

Lemma pushSuperpage_drains k superpage s :
  mDmaPageSize config <> 0 ->
  drainsInOrder k
    (match (pushSuperpage superpage s).1 with
     | Returned _ =>
         if Nat.eqb (N.to_nat (getNextLinkIndex s)) k then [superpage] else []
     | Thrown _ => []
     end)
    s (pushSuperpage superpage s).2.
Proof.
  intros Hpage. rewrite pushSuperpage_cases.
  destruct (checkSuperpage superpage); [|apply drainsInOrder_refl].
  destruct (mLinkQueuesTotalAvailable s =? 0); [apply drainsInOrder_refl|].
  destruct (mLinks s !! N.to_nat (getNextLinkIndex s)) as [link|] eqn:Hi;
    [|apply drainsInOrder_refl].
  destruct (LINK_QUEUE_CAPACITY <=? queue_size (queue link)); [apply drainsInOrder_refl|].
  cbn zeta. destruct (N.eqb_spec (mDmaPageSize config) 0); [done|].
  cbn [fst snd]. exists [], []. rewrite !app_nil_r. cbn [app].
  split; [|split; [done | constructor]].
  unfold linkQueue. cbn [announced enqueued mLinks].
  destruct (Nat.eqb_spec (N.to_nat (getNextLinkIndex s)) k) as [<-|Hne].
  - rewrite Hi, list_lookup_insert_eq by (by eapply lookup_lt_Some). reflexivity.
  - rewrite list_lookup_insert_ne, app_nil_r by done. reflexivity.
Qed.

Lemma runOperations_drains k ops : forall s,
  mDmaPageSize config <> 0 ->
  drainsInOrder k (pushedTo k (runOperations ops s).2) s (runOperations ops s).1.
Proof.
  induction ops as [|op ops IH]; intros s Hpage.
  - apply drainsInOrder_refl.
  - destruct op as [superpage|hw|hw]; cbn [runOperations].
    + pose proof (pushSuperpage_drains k superpage s Hpage) as Hpush.
      destruct (pushSuperpage superpage s) as [[[]|e] s1]; cbn [fst snd] in Hpush.
      * specialize (IH s1 Hpage).
        destruct (runOperations ops s1) as [s' accepted]. cbn [fst snd pushedTo] in *.
        destruct (Nat.eqb (N.to_nat (getNextLinkIndex s)) k).
        -- by apply (drainsInOrder_trans k [superpage] _ s s1).
        -- by apply (drainsInOrder_trans k [] _ s s1).
      * specialize (IH s1 Hpage).
        destruct (runOperations ops s1) as [s' accepted]. cbn [fst snd] in *.
        by apply (drainsInOrder_trans k [] _ s s1).
    + apply (drainsInOrder_trans k [] _ s (fillSuperpages hw s).2);
        [apply fillSuperpages_drains | by apply IH].
    + apply (drainsInOrder_trans k [] _ s (deviceStopDma hw s).2);
        [apply deviceStopDma_drains | by apply IH].
Qed.

(** ** The states of a started channel *)

Lemma deviceStartDma_invariant s s' :
  fullCapacity s < UINT32_MODULUS ->
  deviceStartDma s = (Returned tt, s') ->
  slotsInvariant s'.
Proof.
  intros Hfit Hstart. rewrite deviceStartDma_phases in Hstart.
  unfold bind in Hstart.
  destruct supportedConfiguration eqn:Hconf.
  - destruct (startUpToQueues_supported s Hconf)
      as (dss & s1 & pre & Hup & Hinit & _).
    rewrite Hup in Hstart.
    destruct (startFromArming_spec dss s1)
      as (s2 & post & Harm & Hlinks & Hready & Hslots & _).
    rewrite Harm in Hstart. simplify_eq.
    destruct (queuesInitialized_invariant s s1 Hfit Hinit) as [[Hsum Hfit1] _].
    unfold slotsInvariant, fullCapacity in *.
    rewrite Hlinks, Hslots. done.
  - destruct (startUpToQueues_unsupported s Hconf) as (e & s1 & Hup & _).
    rewrite Hup in Hstart. done.
Qed.

Lemma reachable_invariant s : reachable s -> slotsInvariant s.
Proof.
  induction 1 as [s s' Hfit Hstart|s superpage _ IH|s hw _ IH|s _ IH|s hw _ IH].
  - by eapply deviceStartDma_invariant.
  - by apply pushSuperpage_invariant.
  - by apply fillSuperpages_invariant.
  - by apply popSuperpage_invariant.
  - by apply deviceStopDma_invariant.
Qed.

(** ** The fill and the drain in closed form *)

Lemma arrivals_le_queue hw link :
  plausible hw link -> (arrivals hw link <= length (queue link))%nat.
Proof. unfold plausible, arrivals, queue_size. lia. Qed.

(** The step for a link whose count is plausible returns; it moves all
    the arrivals when the ready queue has room for them. *)
Lemma fillLink_plausible hw i link s :
  mLinks s !! i = Some link ->
  plausible hw link ->
  fillLink hw i s =
  (Returned tt, transferred i (arrivals hw link `min` readyRoom s) link s).
Proof.
  intros Hi Hok.
  destruct (N.le_gt_cases (uint32 (hw (id link))) (superpageCounter link)) as [Hle|Hlt].
  - rewrite (fillLink_no_arrival hw i link s Hi Hle).
    replace (arrivals hw link) with 0%nat by (unfold arrivals; lia).
    by rewrite Nat.min_0_l, transferred_0.
  - apply fillLink_arrivals; [done..|]. unfold plausible in Hok. lia.
Qed.

Lemma readyRoom_transferred i m link s :
  (m <= length (queue link))%nat ->
  (m <= readyRoom s)%nat ->
  readyRoom (transferred i m link s) = (readyRoom s - m)%nat.
Proof.
  intros Hm Hroom. unfold readyRoom, queue_size in *. cbn [transferred mReadyQueue].
  rewrite length_app, length_map, length_take_le by done. lia.
Qed.

Lemma allPending_cons link rest : allPending (link :: rest) = queue link ++ allPending rest.
Proof. reflexivity. Qed.

Lemma pendingTotal_zero links :
  pendingTotal links = 0 -> forall link, link ∈ links -> queue link = [].
Proof.
  induction links as [|l links IH]; intros Hzero link Hin.
  - by apply elem_of_nil in Hin.
  - simpl in Hzero. apply elem_of_cons in Hin as [->|Hin].
    + destruct (queue l); [done|]. unfold queue_size in Hzero. simpl in Hzero. lia.
    + apply IH; [lia | done].
Qed.

Lemma isPlausible_spec hw link : isPlausible hw link = true <-> plausible hw link.
Proof. unfold isPlausible, plausible. apply N.leb_le. Qed.

Lemma movedFrom_0 link : movedFrom 0 link = link.
Proof. by destruct link. Qed.

Lemma length_takenFrom m link :
  (m <= length (queue link))%nat -> length (takenFrom m link) = m.
Proof. intros Hm. unfold takenFrom. by rewrite length_map, length_take_le. Qed.

Lemma length_takenFrom_le m link : (length (takenFrom m link) <= m)%nat.
Proof. unfold takenFrom. rewrite length_map, length_take. lia. Qed.

Lemma stopCount_le hw link room :
  (stopCount hw link room <= length (queue link))%nat
  /\ (stopCount hw link room <= room)%nat.
Proof. unfold stopCount. lia. Qed.

Lemma loopState_nil done s : mLinks s = done -> loopState done ([], []) s = s.
Proof.
  intros <-. destruct s. unfold loopState. cbn. rewrite !app_nil_r. f_equal. lia.
Qed.

Lemma loopState_rest done rest s :
  mLinks s = done ++ rest -> loopState done (rest, []) s = s.
Proof.
  intros Hlinks. destruct s. unfold loopState. cbn in *.
  rewrite <- Hlinks, app_nil_r. f_equal. lia.
Qed.

(** One more link processed: [m] superpages of [link] moved, then the
    loop went on through [rest]. *)
Lemma loopState_step done link rest m s :
  mLinks s = done ++ link :: rest ->
  (m <= length (queue link))%nat ->
  (m <= readyRoom s)%nat ->
  slotsInvariant s ->
  forall result,
  loopState (done ++ [movedFrom m link]) result (transferred (length done) m link s)
  = loopState done (movedFrom m link :: result.1, takenFrom m link ++ result.2) s.
Proof.
  intros Hlinks Hm Hroom Hinv result.
  assert (mLinks s !! length done = Some link) as Hi.
  { rewrite Hlinks. by apply list_lookup_middle. }
  unfold loopState. rewrite (transferred_slots _ _ link s Hi Hm Hinv).
  cbn [transferred mReadyQueue mDebugRegisterReset debugModeEnabled trace fst snd].
  fold (takenFrom m link).
  rewrite <- !app_assoc, length_app, length_takenFrom by done. cbn [app].
  f_equal. lia.
Qed.

Lemma transferred_links done link rest m s :
  mLinks s = done ++ link :: rest ->
  mLinks (transferred (length done) m link s) = (done ++ [movedFrom m link]) ++ rest.
Proof.
  intros Hlinks. cbn [transferred mLinks]. fold (movedFrom m link). rewrite Hlinks.
  replace (length done) with (length done + 0)%nat at 1 by lia.
  rewrite insert_app_r. cbn. by rewrite <- app_assoc.
Qed.

Lemma fillLinks_room hw : forall links room,
  (length (fillLinks hw links room).2 <= room)%nat.
Proof.
  induction links as [|link links IH]; intros room; cbn [fillLinks]; [simpl; lia|].
  destruct (isPlausible hw link); cbn [snd]; [|simpl; lia].
  rewrite length_app.
  pose proof (length_takenFrom_le (arrivals hw link `min` room) link).
  pose proof (IH (room - arrivals hw link `min` room)%nat). lia.
Qed.

Lemma fillSuperpages_from_filled hw : forall rest done s,
  mLinks s = done ++ rest ->
  slotsInvariant s ->
  (forEachLink (fillLink hw) (length done) (length rest) s).2
  = loopState done (fillLinks hw rest (readyRoom s)) s.
Proof.
  induction rest as [|link rest IH]; intros done s Hlinks Hinv.
  { cbn [length forEachLink fillLinks]. rewrite loopState_nil; [done|].
    by rewrite Hlinks, app_nil_r. }
  assert (mLinks s !! length done = Some link) as Hi.
  { rewrite Hlinks. by apply list_lookup_middle. }
  cbn [length forEachLink fillLinks]. unfold bind.
  destruct (isPlausible hw link) eqn:Hplausible.
  - apply isPlausible_spec in Hplausible.
    pose proof (arrivals_le_queue hw link Hplausible) as Hle.
    rewrite (fillLink_plausible hw _ link s Hi Hplausible).
    set (m := (arrivals hw link `min` readyRoom s)%nat).
    assert (length (done ++ [movedFrom m link]) = S (length done)) as Hlen
      by (rewrite length_app; simpl; lia).
    rewrite <- Hlen.
    rewrite (IH _ _ (transferred_links done link rest m s Hlinks)).
    + rewrite readyRoom_transferred by lia.
      apply (loopState_step done link rest); [done | lia | lia | done].
    + apply transferred_invariant; [done | lia | done].
  - unfold isPlausible in Hplausible. apply N.leb_gt in Hplausible.
    rewrite (fillLink_too_many hw _ link s Hi) by lia.
    cbn [snd]. by rewrite loopState_rest.
Qed.

Lemma fillSuperpages_filled hw s :
  slotsInvariant s -> (fillSuperpages hw s).2 = filled hw s.
Proof.
  intros Hinv. exact (fillSuperpages_from_filled hw (mLinks s) [] s eq_refl Hinv).
Qed.

Lemma fillLinks_app hw rest : forall before room,
  (forall link, link ∈ before -> plausible hw link) ->
  fillLinks hw (before ++ rest) room
  = ((fillLinks hw before room).1
       ++ (fillLinks hw rest (room - length (fillLinks hw before room).2)).1,
     (fillLinks hw before room).2
       ++ (fillLinks hw rest (room - length (fillLinks hw before room).2)).2).
Proof.
  induction before as [|link before IH]; intros room Hok.
  { cbn. rewrite Nat.sub_0_r. by destruct (fillLinks hw rest room). }
  assert (plausible hw link) as Hlink by (apply Hok; left).
  pose proof (arrivals_le_queue hw link Hlink) as Hle.
  cbn [app fillLinks]. apply isPlausible_spec in Hlink as ->.
  rewrite IH by (intros l Hin; apply Hok; by right).
  cbn [fst snd]. rewrite length_app, length_takenFrom by lia.
  rewrite Nat.sub_add_distr, <- !app_assoc. done.
Qed.

Lemma outcome_or (b : bool) (m n : nat) :
  (if b then Returned tt
   else if decide (m = n) then Returned tt else Thrown AssertionFailed)
  = if b || Nat.eqb m n then Returned tt else Thrown AssertionFailed.
Proof. destruct b, (decide (m = n)), (Nat.eqb_spec m n); done. Qed.

Lemma orb_goes_on (b e x : bool) : b || e = true -> b || x = b || (e && x).
Proof. by destruct b, e, x. Qed.

Lemma orb_stops (b e x : bool) : b || e = false -> b || (e && x) = false.
Proof. by destruct b, e, x. Qed.

Lemma pendingTotal_cons link links :
  pendingTotal (link :: links) = queue_size (queue link) + pendingTotal links.
Proof. reflexivity. Qed.

Lemma pendingTotal_allPending links :
  pendingTotal links = N.of_nat (length (allPending links)).
Proof.
  induction links as [|link links IH]; [done|].
  rewrite pendingTotal_cons, allPending_cons, length_app, IH. unfold queue_size. lia.
Qed.

Lemma deviceStopDma_from_drained hw : forall rest done s,
  mLinks s = done ++ rest ->
  slotsInvariant s ->
  forEachLink (stopLink hw) (length done) (length rest) s
  = (if NDEBUG || drainsAll hw rest (readyRoom s)
     then Returned tt else Thrown AssertionFailed,
     loopState done (drainLinks hw rest (readyRoom s)) s).
Proof.
  induction rest as [|link rest IH]; intros done s Hlinks Hinv.
  { cbn [length forEachLink drainLinks drainsAll]. rewrite orb_true_r.
    rewrite loopState_nil; [done|]. by rewrite Hlinks, app_nil_r. }
  assert (mLinks s !! length done = Some link) as Hi.
  { rewrite Hlinks. by apply list_lookup_middle. }
  cbn [length forEachLink drainLinks drainsAll]. unfold bind.
  rewrite (stopLink_spec hw _ link s Hi), outcome_or.
  change (stopMoves hw link s) with (stopCount hw link (readyRoom s)).
  set (m := stopCount hw link (readyRoom s)).
  destruct (stopCount_le hw link (readyRoom s)) as [Hm Hroom]. fold m in Hm, Hroom.
  destruct (NDEBUG || Nat.eqb m (length (queue link))) eqn:Hgo.
  - assert (length (done ++ [movedFrom m link]) = S (length done)) as Hlen
      by (rewrite length_app; simpl; lia).
    rewrite <- Hlen.
    rewrite (IH _ _ (transferred_links done link rest m s Hlinks))
      by (by apply transferred_invariant).
    rewrite readyRoom_transferred by done.
    rewrite (loopState_step done link rest) by done.
    by rewrite (orb_goes_on _ _ _ Hgo).
  - rewrite (orb_stops _ _ _ Hgo). f_equal.
    rewrite <- (loopState_rest (done ++ [movedFrom m link]) rest
                  (transferred (length done) m link s))
      by (by apply transferred_links).
    rewrite (loopState_step done link rest) by done.
    cbn [fst snd]. by rewrite app_nil_r.
Qed.

Lemma drainLinks_pending hw : forall links room,
  N.of_nat (length (drainLinks hw links room).2) + pendingTotal (drainLinks hw links room).1
  = pendingTotal links.
Proof.
  induction links as [|link links IH]; intros room; [done|].
  cbn [drainLinks].
  destruct (stopCount_le hw link room) as [Hm _].
  set (m := stopCount hw link room) in *.
  destruct (NDEBUG || Nat.eqb m (length (queue link))); cbn [fst snd];
    rewrite !pendingTotal_cons, ?length_app, length_takenFrom by done;
    cbn [movedFrom queue]; unfold queue_size; rewrite length_drop.
  - specialize (IH (room - m)%nat). lia.
  - lia.
Qed.

Lemma drainsAll_drainable hw : forall links room,
  drainsAll hw links room = true
  <-> (forall link, link ∈ links -> queue_size (queue link) <= stopBound hw link)
      /\ (length (allPending links) <= room)%nat.
Proof.
  induction links as [|link links IH]; intros room.
  { cbn. split; [|done]. intros _. split; [|lia].
    intros link Hin. by apply not_elem_of_nil in Hin. }
  cbn [drainsAll]. rewrite andb_true_iff, Nat.eqb_eq, allPending_cons, length_app.
  assert (stopCount hw link room = length (queue link)
          <-> queue_size (queue link) <= stopBound hw link
              /\ (length (queue link) <= room)%nat) as Hall
    by (unfold stopCount, queue_size; lia).
  split.
  - intros [Hm Hrest]. rewrite Hm in Hrest. apply IH in Hrest as [Hlinks Hroom].
    apply Hall in Hm as [Hbound Hfits]. split; [|lia].
    intros l Hin. apply elem_of_cons in Hin as [->|Hin]; [done | by apply Hlinks].
  - intros [Hlinks Hroom].
    assert (stopCount hw link room = length (queue link)) as Hm.
    { apply Hall. split; [apply Hlinks; left | lia]. }
    split; [done|]. rewrite Hm. apply IH. split; [|lia].
    intros l Hin. apply Hlinks. by right.
Qed.

Lemma drainLinks_empty hw : forall links room,
  (forall link, link ∈ (drainLinks hw links room).1 -> queue link = [])
  <-> drainsAll hw links room = true.
Proof.
  induction links as [|link links IH]; intros room.
  { cbn. split; [done|]. intros _ link Hin. by apply not_elem_of_nil in Hin. }
  cbn [drainLinks drainsAll].
  destruct (stopCount_le hw link room) as [Hm _].
  set (m := stopCount hw link room) in *.
  destruct (Nat.eqb_spec m (length (queue link))) as [Hall|Hleft].
  - rewrite orb_true_r, andb_true_l. cbn [fst]. rewrite <- IH. split.
    + intros Hempty l Hin. apply Hempty. by right.
    + intros Hempty l Hin. apply elem_of_cons in Hin as [->|Hin]; [|by apply Hempty].
      cbn [movedFrom queue]. rewrite Hall. apply drop_all.
  - rewrite andb_false_l. split; [|done]. intros Hempty.
    assert (queue (movedFrom m link) = []) as Hnone.
    { apply Hempty. destruct (NDEBUG || false); left. }
    apply (f_equal length) in Hnone. cbn [movedFrom queue] in Hnone.
    rewrite length_drop in Hnone. simpl in Hnone. lia.
Qed.

Lemma drainLinks_all hw : forall links room,
  drainsAll hw links room = true ->
  drainLinks hw links room = (map drainedLink links, map markArrived (allPending links)).
Proof.
  induction links as [|link links IH]; intros room Hall; [done|].
  cbn [drainsAll] in Hall. apply andb_true_iff in Hall as [Hm Hrest].
  cbn [drainLinks]. rewrite Hm, orb_true_r. apply Nat.eqb_eq in Hm.
  rewrite Hm in *. rewrite (IH _ Hrest). cbn [fst snd map].
  rewrite allPending_cons, map_app. unfold movedFrom, takenFrom, drainedLink.
  by rewrite drop_all, firstn_all.
Qed.

Lemma deviceStopDma_drained hw s :
  slotsInvariant s ->
  deviceStopDma hw s
  = (if NDEBUG || drainsAll hw (mLinks s) (readyRoom s)
     then Returned tt else Thrown AssertionFailed,
     drained hw s).
Proof.
  intros Hinv. rewrite deviceStopDma_unfold. cbn zeta.
  set (s0 := announced disableDataTaking (announced (setDataEmulatorEnabled false) s)).
  assert (slotsInvariant s0) as Hinv0 by done.
  pose proof (deviceStopDma_from_drained hw (mLinks s) [] s0 eq_refl Hinv0) as Hrun.
  cbn [length] in Hrun. unfold deviceStopDma_from. rewrite Hrun.
  change (readyRoom s0) with (readyRoom s).
  assert (loopState [] (drainLinks hw (mLinks s) (readyRoom s)) s0 = drained hw s)
    as Hstate.
  { unfold loopState, drained, s0, announced. cbn. by rewrite <- app_assoc. }
  rewrite Hstate.
  destruct (NDEBUG || drainsAll hw (mLinks s) (readyRoom s)) eqn:Hgo; [|done].
  apply orb_true_iff in Hgo as [Hbuild|Hall]; [by rewrite Hbuild|].
  assert (mLinkQueuesTotalAvailable (drained hw s) = size_t_of (fullCapacity (drained hw s)))
    as Hslots.
  { destruct Hinv as [Hsum Hfit]. unfold fullCapacity in *.
    cbn [drained mLinks mLinkQueuesTotalAvailable].
    rewrite (drainLinks_all hw _ _ Hall). cbn [fst snd].
    rewrite !length_map, size_t_of_small by done.
    rewrite <- pendingTotal_allPending. done. }
  apply N.eqb_eq in Hslots. rewrite Hslots. by destruct NDEBUG.
Qed.

(** * The claims *)

(** C1. The counter of free slots plus the number of superpages in the
    link queues is the capacity of a link times the number of links: this
    holds when [deviceStartDma] returns, and every push, fill, pop and
    stop keeps it, whatever their outcome, so that it holds in every state
    of a started channel.  The counter is then what a scan of the queues
    gives. *)
Theorem slots_counter_matches_queues s :
  (fullCapacity s < UINT32_MODULUS ->
   forall s', deviceStartDma s = (Returned tt, s') -> slotsInvariant s')
  /\ (slotsInvariant s ->
      mLinkQueuesTotalAvailable s + pendingTotal (mLinks s)
        = LINK_QUEUE_CAPACITY * N.of_nat (length (mLinks s))
      /\ mLinkQueuesTotalAvailable s = scanAvailable s
      /\ (forall superpage, slotsInvariant (pushSuperpage superpage s).2)
      /\ (forall hw, slotsInvariant (fillSuperpages hw s).2)
      /\ slotsInvariant (popSuperpage s).2
      /\ (forall hw, slotsInvariant (deviceStopDma hw s).2))
  /\ (reachable s ->
      mLinkQueuesTotalAvailable s + pendingTotal (mLinks s)
        = LINK_QUEUE_CAPACITY * N.of_nat (length (mLinks s))
      /\ mLinkQueuesTotalAvailable s = scanAvailable s).
Proof.
  split; [|split].
  - intros Hfit s' Hstart. by eapply deviceStartDma_invariant.
  - intros Hinv. split; [apply Hinv|]. split; [by apply slotsInvariant_scan|].
    split; [intros sp; by apply pushSuperpage_invariant|].
    split; [intros hw; by apply fillSuperpages_invariant|].
    split; [by apply popSuperpage_invariant|].
    intros hw; by apply deviceStopDma_invariant.
  - intros Hreach. apply reachable_invariant in Hreach.
    split; [apply Hreach | by apply slotsInvariant_scan].
Qed.

(** C2. With no free slot, [pushSuperpage] changes nothing (no queue, no
    counter, no call to the card) and, for a superpage that passes
    [checkSuperpage], throws the transfer-queue-full exception. *)
Theorem pushSuperpage_full_is_rejected superpage s :
  mLinkQueuesTotalAvailable s = 0 ->
  (pushSuperpage superpage s).2 = s
  /\ (checkSuperpage superpage = true ->
      pushSuperpage superpage s = (Thrown TransferQueueFull, s)).
Proof.
  intros Hfull. rewrite pushSuperpage_cases, Hfull.
  destruct (checkSuperpage superpage); done.
Qed.

(** C3. With a free slot, in a state where the counter agrees with the
    queues, [pushSuperpage] of an accepted superpage returns; the
    superpage is appended to the queue of the link with the fewest
    superpages, the first such link; the counter goes down by one; and
    the trace grows by exactly one descriptor, carrying that link's id,
    [size / mDmaPageSize] pages and the bus address of the offset. *)
Theorem pushSuperpage_least_loaded_link superpage s :
  slotsInvariant s ->
  0 < mLinkQueuesTotalAvailable s ->
  checkSuperpage superpage = true ->
  mDmaPageSize config <> 0 ->
  exists i link s',
    pushSuperpage superpage s = (Returned tt, s')
    /\ getNextLinkIndex s = N.of_nat i
    /\ mLinks s !! i = Some link
    /\ (forall j other, mLinks s !! j = Some other ->
          queue_size (queue link) <= queue_size (queue other))
    /\ (forall j other, (j < i)%nat -> mLinks s !! j = Some other ->
          queue_size (queue link) < queue_size (queue other))
    /\ mLinks s' = <[i := {| id := id link;
                             superpageCounter := superpageCounter link;
                             queue := queue link ++ [superpage] |}]> (mLinks s)
    /\ mReadyQueue s' = mReadyQueue s
    /\ mLinkQueuesTotalAvailable s' + 1 = mLinkQueuesTotalAvailable s
    /\ trace s' = trace s ++
         [pushSuperpageDescriptor (id link)
            (getSize superpage / mDmaPageSize config)
            (getBusOffsetAddress (getOffset superpage))].
Proof.
  intros Hinv Hfree Hcheck Hpage.
  destruct (getNextLinkIndex_least_loaded s Hinv) as (i & link & Hidx & Hi & Hroom & Hmin & Hfirst);
    [lia|].
  exists i, link. eexists. rewrite pushSuperpage_cases, Hcheck, Hidx, Nat2N.id, Hi.
  destruct (N.eqb_spec (mLinkQueuesTotalAvailable s) 0); [lia|].
  destruct (N.leb_spec LINK_QUEUE_CAPACITY (queue_size (queue link))); [lia|].
  destruct (N.eqb_spec (mDmaPageSize config) 0); [done|].
  cbn zeta. split; [reflexivity|]. split; [done|].
  destruct (enqueued_invariant i link superpage s Hi) as [_ Hslots]; [lia|done|].
  repeat (split; [done|]). split; [|done].
  cbn [announced mLinkQueuesTotalAvailable]. rewrite Hslots. lia.
Qed.

(** C4. If the count the card reports for a link exceeds the link's
    counter by more than the length of the link's queue, [fillSuperpages]
    throws the fatal exception; the step for that link changes nothing,
    and the link's queue and counter are in the final state what they
    were. *)
Theorem fillSuperpages_rejects_excess_arrivals hw s k link :
  mLinks s !! k = Some link ->
  superpageCounter link + queue_size (queue link) < uint32 (hw (id link)) ->
  (forall s1, mLinks s1 !! k = Some link ->
     fillLink hw k s1 = (Thrown FirmwareReportedTooMany, s1))
  /\ exists s',
       fillSuperpages hw s = (Thrown FirmwareReportedTooMany, s')
       /\ mLinks s' !! k = Some link.
Proof.
  intros Hk Hmany.
  assert (forall s1, mLinks s1 !! k = Some link ->
            fillLink hw k s1 = (Thrown FirmwareReportedTooMany, s1)) as Hstep.
  { intros s1 Hk1. apply (fillLink_too_many hw k link s1 Hk1); lia. }
  split; [done|].
  set (P := fun s1 : State =>
              mLinks s1 !! k = Some link /\ length (mLinks s1) = length (mLinks s)).
  assert (forall i s1, P s1 -> P (fillLink hw i s1).2) as Hbody.
  { intros i s1 [Hk1 Hlen]. split; [|by rewrite fillLink_length].
    destruct (decide (i = k)) as [->|Hne].
    - by rewrite Hstep.
    - by rewrite fillLink_other. }
  assert (P s) as HP by done.
  unfold fillSuperpages, bind, get, fillSuperpages_from.
  destruct (forEachLink (fillLink hw) 0 (length (mLinks s)) s) as [[[]|e] s'] eqn:Hrun.
  - exfalso.
    destruct (forEachLink_returns P _ Hbody _ _ _ _ HP Hrun k) as (sk & sk' & [Hk1 _] & Hret).
    { apply lookup_lt_Some in Hk. lia. }
    rewrite (Hstep sk Hk1) in Hret. done.
  - destruct (forEachLink_throws P _ e Hbody _ _ _ _ HP Hrun) as (j & s1 & Hj & [Hk1 Hlen] & Hthrow).
    destruct (fillLink_result hw j s1)
      as [[_ Hnone]|[Hidle|[Hfatal|(l & m & _ & _ & Hmoved)]]].
    + apply lookup_ge_None in Hnone. lia.
    + rewrite Hidle in Hthrow. done.
    + rewrite Hfatal in Hthrow. simplify_eq. by exists s'.
    + rewrite Hmoved in Hthrow. done.
Qed.

(** C5 (amended). For a link that no over-reported link precedes (every
    link before it has a count of the card that is at most its counter
    plus the length of its queue) and for which the card reports [d]
    superpages more than the link's counter, [d] at most the length of the
    link's queue, [fillSuperpages] moves the [m] oldest superpages of the
    queue, in order, to the ready queue, behind the arrivals of the links
    before it; [m] is the smaller of [d] and the places that the ready
    queue has left when the link's turn comes.  Each arrives with [ready]
    set and [received] equal to its size; the link's counter grows by [m]
    and the free-slot counter by the number of all arrivals; the fill
    never moves more superpages than the ready queue has places, and what
    it does not move stays in the link queues.  The state that
    [fillSuperpages] leaves, whether it returns or throws, is the one that
    [filled] describes. *)
Theorem fillSuperpages_moves_arrivals hw s before link after :
  slotsInvariant s ->
  mLinks s = before ++ link :: after ->
  (forall earlier, earlier ∈ before -> plausible hw earlier) ->
  superpageCounter link < uint32 (hw (id link)) ->
  uint32 (hw (id link)) - superpageCounter link <= queue_size (queue link) ->
  let d := N.to_nat (uint32 (hw (id link)) - superpageCounter link) in
  let earlier := fillLinks hw before (readyRoom s) in
  let room := (readyRoom s - length earlier.2)%nat in
  let m := (d `min` room)%nat in
  let later := fillLinks hw after (room - m) in
  let s' := (fillSuperpages hw s).2 in
  s' = filled hw s
  /\ mLinks s' = earlier.1 ++ movedFrom m link :: later.1
  /\ mReadyQueue s'
     = mReadyQueue s ++ earlier.2 ++ map markArrived (take m (queue link)) ++ later.2
  /\ mLinkQueuesTotalAvailable s'
     = mLinkQueuesTotalAvailable s + N.of_nat (length earlier.2 + m + length later.2)
  /\ superpageCounter (movedFrom m link) = superpageCounter link + N.of_nat m
  /\ queue (movedFrom m link) = drop m (queue link)
  /\ (forall superpage, superpage ∈ take m (queue link) ->
        ready (markArrived superpage) = true /\
        received (markArrived superpage) = size superpage /\
        size (markArrived superpage) = size superpage /\
        offset (markArrived superpage) = offset superpage)
  /\ (length earlier.2 + m + length later.2 <= readyRoom s)%nat
  /\ mDebugRegisterReset s' = mDebugRegisterReset s
  /\ debugModeEnabled s' = debugModeEnabled s
  /\ trace s' = trace s.
Proof.
  intros Hinv Hlinks Hearlier Hlt Hfew d earlier room m later s'.
  assert (plausible hw link) as Hlink by (unfold plausible; lia).
  assert (m <= length (queue link))%nat as Hm by (unfold queue_size in *; lia).
  assert (fillLinks hw (mLinks s) (readyRoom s)
          = (earlier.1 ++ movedFrom m link :: later.1,
             earlier.2 ++ takenFrom m link ++ later.2)) as Hclosed.
  { rewrite Hlinks, fillLinks_app by done. fold earlier room.
    cbn [fillLinks]. by apply isPlausible_spec in Hlink as ->. }
  assert (s' = filled hw s) as Hstate by (by apply fillSuperpages_filled).
  pose proof (fillLinks_room hw (mLinks s) (readyRoom s)) as Hbound.
  rewrite Hclosed in Hbound. cbn [snd] in Hbound.
  rewrite !length_app, length_takenFrom in Hbound by done.
  split; [done|]. rewrite Hstate. unfold filled. rewrite Hclosed.
  cbn [fst snd mLinks mReadyQueue mLinkQueuesTotalAvailable mDebugRegisterReset
         debugModeEnabled trace].
  split; [done|]. split; [done|].
  split; [rewrite !length_app, length_takenFrom by done; f_equal; lia|].
  split.
  { cbn [movedFrom superpageCounter]. apply iter_incr_exact.
    pose proof (uint32_lt (hw (id link))). lia. }
  split; [done|]. split; [intros superpage _; done|]. split; [lia|]. done.
Qed.

(** C8. If for every link the count the card reports is the link's
    counter, [fillSuperpages] returns and the state is what it was. *)
Theorem fillSuperpages_idle hw s :
  (forall link, link ∈ mLinks s -> uint32 (hw (id link)) = superpageCounter link) ->
  fillSuperpages hw s = (Returned tt, s).
Proof.
  intros Hsame. unfold fillSuperpages, bind, get, fillSuperpages_from.
  apply forEachLink_idle. intros j Hj.
  destruct (lookup_lt_is_Some_2 (mLinks s) j) as [link Hlink]; [lia|].
  apply (fillLink_no_arrival hw j link s Hlink).
  rewrite (Hsame link); [lia|]. by eapply list_elem_of_lookup_2.
Qed.

(** C10. For a link whose reported count is at most its counter (less
    included), the step of [fillSuperpages] for that link returns and
    changes nothing; the link's queue and counter are in the final state
    what they were; and an exception of [fillSuperpages], if any, comes
    from the step of another link. *)
Theorem fillSuperpages_ignores_stale_count hw s k link :
  mLinks s !! k = Some link ->
  uint32 (hw (id link)) <= superpageCounter link ->
  (forall s1, mLinks s1 !! k = Some link -> fillLink hw k s1 = (Returned tt, s1))
  /\ mLinks (fillSuperpages hw s).2 !! k = Some link
  /\ (forall e s', fillSuperpages hw s = (Thrown e, s') ->
        exists j s1, j <> k /\ fillLink hw j s1 = (Thrown e, s')).
Proof.
  intros Hk Hstale.
  assert (forall s1, mLinks s1 !! k = Some link ->
            fillLink hw k s1 = (Returned tt, s1)) as Hstep.
  { intros s1 Hk1. by apply (fillLink_no_arrival hw k link s1 Hk1). }
  split; [done|].
  set (P := fun s1 : State => mLinks s1 !! k = Some link).
  assert (forall i s1, P s1 -> P (fillLink hw i s1).2) as Hbody.
  { intros i s1 Hk1. unfold P in *.
    destruct (decide (i = k)) as [->|Hne].
    - by rewrite Hstep.
    - by rewrite fillLink_other. }
  unfold fillSuperpages, bind, get, fillSuperpages_from. split.
  - by apply (forEachLink_preserves P).
  - intros e s' Hrun.
    destruct (forEachLink_throws P _ e Hbody _ _ _ _ Hk Hrun) as (j & s1 & _ & Hk1 & Hthrow).
    exists j, s1. split; [|done]. intros ->.
    rewrite (Hstep s1 Hk1) in Hthrow. done.
Qed.

(** C6. [deviceStopDma] makes its two calls on the card and then drains
    link after link: each link gives its oldest superpages, as many as the
    card reports beyond the link's counter plus one (both taken modulo
    2^32), but no more than its queue holds or the ready queue has places
    left; the state it leaves is the one that [drained] describes.  The
    drain leaves every link queue empty, and the free-slot counter at the
    full capacity, exactly in the states that are [drainable]; in the
    others a link keeps superpages.  The two assertions say that this does
    not happen: compiled with [NDEBUG] the function returns all the same,
    in a build with assertions it returns exactly in the drainable states
    and is aborted by a failed assertion in the others. *)
Theorem deviceStopDma_drains_links hw s :
  slotsInvariant s ->
  (deviceStopDma hw s).2 = drained hw s
  /\ ((forall link, link ∈ mLinks (drained hw s) -> queue link = [])
      <-> drainable hw s)
  /\ (mLinkQueuesTotalAvailable (drained hw s) = fullCapacity s <-> drainable hw s)
  /\ (NDEBUG = true -> (deviceStopDma hw s).1 = Returned tt)
  /\ (NDEBUG = false -> ((deviceStopDma hw s).1 = Returned tt <-> drainable hw s))
  /\ (forall e, (deviceStopDma hw s).1 = Thrown e -> e = AssertionFailed)
  /\ (forall link,
        Z.of_N (stopBound hw link) =
        (((Z.of_N (hw (id link)) - Z.of_N (superpageCounter link))
            mod Z.of_N UINT32_MODULUS + 1) mod Z.of_N UINT32_MODULUS)%Z).
Proof.
  intros Hinv. rewrite (deviceStopDma_drained hw s Hinv). cbn [fst snd].
  assert ((forall link, link ∈ mLinks (drained hw s) -> queue link = [])
          <-> drainable hw s) as Hempty.
  { unfold drainable. rewrite <- drainsAll_drainable. apply drainLinks_empty. }
  split; [done|]. split; [done|]. split.
  { rewrite <- Hempty. destruct Hinv as [Hsum Hfit].
    pose proof (drainLinks_pending hw (mLinks s) (readyRoom s)) as Hpending.
    cbn [drained mLinks mLinkQueuesTotalAvailable]. split.
    - intros Hfull. apply pendingTotal_zero. lia.
    - intros Hnone. apply pendingTotal_empty in Hnone. lia. }
  split; [by intros ->|]. split.
  { intros ->. cbn [orb]. unfold drainable. rewrite <- drainsAll_drainable.
    by destruct (drainsAll hw (mLinks s) (readyRoom s)). }
  split.
  { intros e. destruct (NDEBUG || drainsAll hw (mLinks s) (readyRoom s)); [done|].
    by intros [= <-]. }
  intros link. unfold stopBound.
  rewrite uint32_to_Z, N2Z.inj_add, stop_amount_mod. reflexivity.
Qed.


(** C9. In a run of pushes, fills and stops without pops, the superpages
    of a link leave its queue from the front and enter the ready queue at
    the back: what was in the link's queue and then what was pushed to the
    link is, in this order, what has left for the ready queue followed by
    what still waits, and the superpages that left are among the new
    entries of the ready queue in that order.  In a channel with one link
    the ready queue followed by the link's queue is what they held at the
    beginning followed by the pushed superpages in the order of the pushes;
    from empty queues, the ready queue is a prefix of the pushed
    superpages. *)
Theorem ready_queue_keeps_push_order ops s s' accepted :
  mDmaPageSize config <> 0 ->
  runOperations ops s = (s', accepted) ->
  (forall k, exists out added,
     linkQueue k s ++ pushedTo k accepted = out ++ linkQueue k s'
     /\ mReadyQueue s' = mReadyQueue s ++ added
     /\ map markArrived out `sublist_of` added)
  /\ (forall link,
       mLinks s = [link] ->
       exists link',
         mLinks s' = [link']
         /\ mReadyQueue s' ++ map markArrived (queue link')
            = mReadyQueue s ++ map markArrived (queue link ++ map snd accepted)
         /\ (mReadyQueue s = [] -> queue link = [] ->
             mReadyQueue s' =
             take (length (mReadyQueue s')) (map markArrived (map snd accepted)))).
Proof.
  intros Hpage Hrun. split.
  - intros k. pose proof (runOperations_drains k ops s Hpage) as Hdrains.
    by rewrite Hrun in Hdrains.
  - intros link Hlinks.
    assert (servesInOrder (mReadyQueue s ++ map markArrived (queue link)) s) as Hserves.
    { by exists link. }
    pose proof (runOperations_serves ops _ s Hpage Hserves) as Hafter.
    rewrite Hrun in Hafter. cbn [fst snd] in Hafter.
    destruct Hafter as (link' & Hlinks' & Hview).
    exists link'. split; [done|].
    rewrite map_app, app_assoc. split; [done|].
    intros Hready Hqueue. rewrite Hready, Hqueue in Hview. cbn in Hview.
    rewrite <- Hview. by rewrite take_app_length.
Qed.

(** * Further properties of the class *)

(** ** Backpressure and the queries *)

Lemma fillLink_full hw i s :
  READY_QUEUE_CAPACITY <= queue_size (mReadyQueue s) ->
  (fillLink hw i s).2 = s.
Proof.
  intros Hfull.
  destruct (mLinks s !! i) as [link|] eqn:Hi;
    [|by rewrite fillLink_out_of_range].
  destruct (N.le_gt_cases (uint32 (hw (id link))) (superpageCounter link)) as [Hle|Hlt].
  { by rewrite (fillLink_no_arrival hw i link s). }
  destruct (N.le_gt_cases (uint32 (hw (id link)) - superpageCounter link)
              (queue_size (queue link))) as [Hfew|Hmany].
  - rewrite (fillLink_arrivals hw i link s) by done. cbn [snd].
    rewrite readyRoom_full, Nat.min_0_r by done. by apply transferred_0.
  - by rewrite (fillLink_too_many hw i link s).
Qed.

(** X2. While [isReadyQueueFull] answers true, [fillSuperpages] moves
    nothing: whatever the card reports and whether it returns or throws,
    the state after it is the state before. *)
Theorem fillSuperpages_full_ready_queue hw s :
  isReadyQueueFull s = true ->
  (fillSuperpages hw s).2 = s.
Proof.
  unfold isReadyQueueFull. intros Hfull%N.eqb_eq.
  unfold fillSuperpages, bind, get, fillSuperpages_from.
  apply (forEachLink_preserves (fun s1 => s1 = s)); [|done].
  intros i s1 ->. apply fillLink_full. lia.
Qed.

(** X3. In a state where the counter agrees with the queues,
    [isTransferQueueEmpty] answers true exactly when every link queue is
    empty. *)
Theorem isTransferQueueEmpty_iff_no_pending s :
  slotsInvariant s ->
  isTransferQueueEmpty s = true <-> (forall link, link ∈ mLinks s -> queue link = []).
Proof.
  intros [Hsum Hfit]. unfold isTransferQueueEmpty. fold (fullCapacity s).
  rewrite size_t_of_small by done. rewrite N.eqb_eq. split.
  - intros Hall. apply pendingTotal_zero. lia.
  - intros Hempty. rewrite (pendingTotal_empty _ Hempty) in Hsum. lia.
Qed.

(** ** What a push can end in *)

(** X4. In a state where the counter agrees with the queues (and for a
    page size that is not zero) [pushSuperpage] has three outcomes only:
    the exception of [checkSuperpage], the exception for the full transfer
    queue when no slot is free, and a return otherwise; the exception for
    a full link queue is never thrown. *)
Theorem pushSuperpage_outcome superpage s :
  slotsInvariant s ->
  mDmaPageSize config <> 0 ->
  (pushSuperpage superpage s).1 =
  if checkSuperpage superpage then
    if mLinkQueuesTotalAvailable s =? 0 then Thrown TransferQueueFull else Returned tt
  else Thrown InvalidSuperpage.
Proof.
  intros Hinv Hpage. rewrite pushSuperpage_cases.
  destruct (checkSuperpage superpage); [|done].
  destruct (N.eqb_spec (mLinkQueuesTotalAvailable s) 0) as [|Hfree]; [done|].
  destruct (getNextLinkIndex_least_loaded s Hinv Hfree)
    as (i & link & Hidx & Hi & Hroom & _).
  rewrite Hidx, Nat2N.id, Hi.
  destruct (N.leb_spec LINK_QUEUE_CAPACITY (queue_size (queue link))); [lia|].
  cbn zeta. by destruct (N.eqb_spec (mDmaPageSize config) 0).
Qed.

(** ** Fairness of the choice of the link *)

Lemma enqueued_balanced i link superpage s :
  mLinks s !! i = Some link ->
  (forall j other, mLinks s !! j = Some other ->
     queue_size (queue link) <= queue_size (queue other)) ->
  balanced s ->
  balanced (enqueued i link superpage s).
Proof.
  intros Hi Hmin Hbalanced l1 l2 Hin1 Hin2.
  assert (link ∈ mLinks s) as Hlink by (by eapply list_elem_of_lookup_2).
  assert (forall l, l ∈ mLinks (enqueued i link superpage s) ->
            queue_size (queue l) = queue_size (queue link) + 1 \/ l ∈ mLinks s) as Hcases.
  { intros l Hin. cbn [enqueued mLinks] in Hin.
    apply list_elem_of_lookup in Hin as [j Hj].
    destruct (decide (j = i)) as [->|Hne].
    - rewrite list_lookup_insert_eq in Hj by (by eapply lookup_lt_Some).
      simplify_eq. left. cbn [queue]. unfold queue_size. rewrite length_app. simpl. lia.
    - rewrite list_lookup_insert_ne in Hj by done. right.
      by eapply list_elem_of_lookup_2. }
  assert (forall l, l ∈ mLinks s -> queue_size (queue link) <= queue_size (queue l))
    as Hmin'.
  { intros l Hin. apply list_elem_of_lookup in Hin as [j Hj]. by eapply Hmin. }
  destruct (Hcases l1 Hin1) as [H1|H1], (Hcases l2 Hin2) as [H2|H2].
  - lia.
  - specialize (Hmin' l2 H2). lia.
  - specialize (Hbalanced l1 link H1 Hlink). lia.
  - by apply Hbalanced.
Qed.

(** X5. [pushSuperpage] keeps the link queues level: in a state where
    the counter agrees with the queues and the queues differ in length by
    one at most, they still do after the push, whatever its outcome. *)
Theorem pushSuperpage_keeps_links_level superpage s :
  slotsInvariant s ->
  balanced s ->
  balanced (pushSuperpage superpage s).2.
Proof.
  intros Hinv Hbalanced. rewrite pushSuperpage_cases.
  destruct (checkSuperpage superpage); [|done].
  destruct (N.eqb_spec (mLinkQueuesTotalAvailable s) 0) as [|Hfree]; [done|].
  destruct (getNextLinkIndex_least_loaded s Hinv Hfree)
    as (i & link & Hidx & Hi & Hroom & Hmin & _).
  rewrite Hidx, Nat2N.id, Hi.
  destruct (LINK_QUEUE_CAPACITY <=? queue_size (queue link)); [done|].
  cbn zeta.
  pose proof (enqueued_balanced i link superpage s Hi Hmin Hbalanced) as Hafter.
  destruct (mDmaPageSize config =? 0); exact Hafter.
Qed.

(** ** When a fill returns, and what it then leaves *)

Lemma arrivals_counter hw link :
  Nat.iter (arrivals hw link) uint32_incr (superpageCounter link)
  = superpageCounter link + N.of_nat (arrivals hw link).
Proof.
  destruct (arrivals hw link) as [|a] eqn:Ha; [simpl; lia|].
  rewrite <- Ha. apply iter_incr_exact.
  pose proof (uint32_lt (hw (id link))). unfold arrivals in *. lia.
Qed.

Lemma transferred_arrivals i hw link s :
  mLinks (transferred i (arrivals hw link) link s)
  = <[i := afterArrivals hw link]> (mLinks s).
Proof. cbn [transferred mLinks]. by rewrite arrivals_counter. Qed.

Lemma transferred_plausible hw i m link s :
  mLinks s !! i = Some link ->
  (m <= arrivals hw link)%nat ->
  (forall l, l ∈ mLinks s -> plausible hw l) ->
  forall l, l ∈ mLinks (transferred i m link s) -> plausible hw l.
Proof.
  intros Hi Hm Hall l Hin.
  assert (plausible hw link) as Hok by (apply Hall; by eapply list_elem_of_lookup_2).
  pose proof (arrivals_le_queue hw link Hok) as Hle.
  cbn [transferred mLinks] in Hin.
  apply list_elem_of_lookup in Hin as [j Hj].
  destruct (decide (j = i)) as [->|Hne].
  - rewrite list_lookup_insert_eq in Hj by (by eapply lookup_lt_Some). simplify_eq.
    unfold plausible in *. cbn [id superpageCounter queue].
    unfold queue_size in *. rewrite length_drop.
    destruct m as [|m']; [simpl; lia|].
    rewrite iter_incr_exact.
    + lia.
    + pose proof (uint32_lt (hw (id link))). unfold arrivals in *. lia.
  - rewrite list_lookup_insert_ne in Hj by done.
    apply Hall. by eapply list_elem_of_lookup_2.
Qed.

Lemma fillLink_keeps_plausible hw i s :
  (forall l, l ∈ mLinks s -> plausible hw l) ->
  forall l, l ∈ mLinks (fillLink hw i s).2 -> plausible hw l.
Proof.
  intros Hall. destruct (mLinks s !! i) as [link|] eqn:Hi.
  - rewrite (fillLink_plausible hw i link s Hi)
      by (apply Hall; by eapply list_elem_of_lookup_2).
    apply transferred_plausible; [done | lia | done].
  - by rewrite fillLink_out_of_range.
Qed.

(** X6. [fillSuperpages] returns exactly when the card reports for no
    link more than the link's counter plus the length of its queue; the
    only exception it throws is the fatal one. *)
Theorem fillSuperpages_returns_iff_plausible hw s :
  ((exists s', fillSuperpages hw s = (Returned tt, s'))
   <-> forall link, link ∈ mLinks s -> plausible hw link)
  /\ (forall e s', fillSuperpages hw s = (Thrown e, s') -> e = FirmwareReportedTooMany).
Proof.
  unfold fillSuperpages, bind, get, fillSuperpages_from.
  set (sameLength := fun s1 : State => length (mLinks s1) = length (mLinks s)).
  assert (forall i s1, sameLength s1 -> sameLength (fillLink hw i s1).2) as Hlength.
  { intros i s1 Hlen. unfold sameLength in *. by rewrite fillLink_length. }
  split; [split|].
  - intros [s' Hrun] link Hin.
    apply list_elem_of_lookup in Hin as [k Hk].
    destruct (N.le_gt_cases (uint32 (hw (id link)))
                (superpageCounter link + queue_size (queue link))) as [|Hmany]; [done|].
    exfalso.
    set (P := fun s1 : State => mLinks s1 !! k = Some link).
    assert (forall s1, P s1 -> fillLink hw k s1 = (Thrown FirmwareReportedTooMany, s1))
      as Hstep.
    { intros s1 Hk1. apply (fillLink_too_many hw k link s1 Hk1); lia. }
    assert (forall i s1, P s1 -> P (fillLink hw i s1).2) as Hbody.
    { intros i s1 Hk1. unfold P in *. destruct (decide (i = k)) as [->|Hne].
      - by rewrite Hstep.
      - by rewrite fillLink_other. }
    destruct (forEachLink_returns P _ Hbody _ _ _ _ Hk Hrun k) as (sk & sk' & Hk1 & Hret).
    { apply lookup_lt_Some in Hk. lia. }
    rewrite (Hstep sk Hk1) in Hret. done.
  - intros Hall.
    set (P := fun s1 : State =>
                sameLength s1 /\ forall l, l ∈ mLinks s1 -> plausible hw l).
    assert (forall i s1, P s1 -> P (fillLink hw i s1).2) as Hbody.
    { intros i s1 [Hlen Hok]. split; [by apply Hlength | by apply fillLink_keeps_plausible]. }
    assert (P s) as HP by done.
    destruct (forEachLink (fillLink hw) 0 (length (mLinks s)) s) as [[[]|e] s'] eqn:Hrun;
      [by exists s'|].
    exfalso.
    destruct (forEachLink_throws P _ e Hbody _ _ _ _ HP Hrun)
      as (j & s1 & Hj & [Hlen Hok] & Hthrow).
    destruct (lookup_lt_is_Some_2 (mLinks s1) j) as [link Hlink];
      [unfold sameLength in Hlen; lia|].
    rewrite (fillLink_plausible hw j link s1 Hlink) in Hthrow; [done|].
    apply Hok. by eapply list_elem_of_lookup_2.
  - intros e s' Hrun.
    destruct (forEachLink_throws sameLength _ e Hlength _ _ _ _ eq_refl Hrun)
      as (j & s1 & Hj & Hlen & Hthrow).
    destruct (fillLink_result hw j s1)
      as [[_ Hnone]|[Hidle|[Hfatal|(l & m & _ & _ & Hmoved)]]].
    + apply lookup_ge_None in Hnone. unfold sameLength in Hlen. lia.
    + rewrite Hidle in Hthrow. done.
    + rewrite Hfatal in Hthrow. by simplify_eq.
    + rewrite Hmoved in Hthrow. done.
Qed.

Lemma arrived_cons hw link rest :
  arrived hw (link :: rest)
  = map markArrived (take (arrivals hw link) (queue link)) ++ arrived hw rest.
Proof. reflexivity. Qed.

Lemma fillSuperpages_from_all hw : forall rest done s,
  mLinks s = done ++ rest ->
  slotsInvariant s ->
  (forall link, link ∈ rest -> plausible hw link) ->
  (length (arrived hw rest) <= readyRoom s)%nat ->
  forEachLink (fillLink hw) (length done) (length rest) s =
  (Returned tt,
   {| mLinks := done ++ map (afterArrivals hw) rest;
      mReadyQueue := mReadyQueue s ++ arrived hw rest;
      mLinkQueuesTotalAvailable :=
        mLinkQueuesTotalAvailable s + N.of_nat (length (arrived hw rest));
      mDebugRegisterReset := mDebugRegisterReset s;
      debugModeEnabled := debugModeEnabled s;
      trace := trace s |}).
Proof.
  induction rest as [|link rest IH]; intros done s Hlinks Hinv Hok Hroom.
  - cbn [length forEachLink map]. unfold ret. f_equal.
    destruct s. cbn in *. rewrite !app_nil_r in *. rewrite N.add_0_r. by subst.
  - assert (mLinks s !! length done = Some link) as Hi.
    { rewrite Hlinks. by apply list_lookup_middle. }
    assert (plausible hw link) as Hlink by (apply Hok; left).
    pose proof (arrivals_le_queue hw link Hlink) as Hle.
    rewrite arrived_cons, length_app, length_map, length_take_le in Hroom by done.
    cbn [length forEachLink]. unfold bind.
    rewrite (fillLink_plausible hw _ link s Hi Hlink).
    rewrite Nat.min_l by lia.
    set (s1 := transferred (length done) (arrivals hw link) link s).
    assert (mLinks s1 = (done ++ [afterArrivals hw link]) ++ rest) as Hlinks1.
    { unfold s1. rewrite transferred_arrivals, Hlinks.
      replace (length done) with (length done + 0)%nat at 1 by lia.
      rewrite insert_app_r. cbn. by rewrite <- app_assoc. }
    assert (length (done ++ [afterArrivals hw link]) = S (length done)) as Hlen
      by (rewrite length_app; simpl; lia).
    rewrite <- Hlen.
    rewrite (IH _ s1 Hlinks1).
    + f_equal. unfold s1. cbn [transferred mReadyQueue mLinkQueuesTotalAvailable
                                 mDebugRegisterReset debugModeEnabled trace].
      rewrite arrived_cons, <- !app_assoc. cbn [app map].
      rewrite (iter_incr_exact (arrivals hw link) (mLinkQueuesTotalAvailable s)).
      * rewrite length_app, length_map, length_take_le by done.
        f_equal. lia.
      * destruct Hinv as [Hsum Hfit].
        pose proof (pendingTotal_lookup_le _ _ _ Hi) as Hq. unfold queue_size in Hq. lia.
    + by apply transferred_invariant.
    + intros l Hin. apply Hok. by right.
    + unfold s1. rewrite readyRoom_transferred by lia. lia.
Qed.

(** X7. If the card's counts are plausible for every link, the counter
    agrees with the queues and the ready queue has room for all the
    arrivals, [fillSuperpages] returns and leaves this: every link has
    lost its arrivals from the front of its queue and counted them, the
    ready queue has gained them at the back, link after link and oldest
    first, and as many transfer slots are free again. *)
Theorem fillSuperpages_moves_every_arrival hw s :
  slotsInvariant s ->
  (forall link, link ∈ mLinks s -> plausible hw link) ->
  (length (arrived hw (mLinks s)) <= readyRoom s)%nat ->
  fillSuperpages hw s = (Returned tt, afterFill hw s).
Proof.
  intros Hinv Hok Hroom. unfold fillSuperpages, bind, get, fillSuperpages_from.
  by apply (fillSuperpages_from_all hw (mLinks s) [] s).
Qed.

Lemma lookup_map {A B} (f : A -> B) (l : list A) i : map f l !! i = f <$> (l !! i).
Proof. exact (list_lookup_fmap f l i). Qed.

(** X18. A fill that found room for every arrival has taken them all: a
    second fill with the same counts of the card returns and changes
    nothing. *)
Theorem fillSuperpages_twice hw s :
  slotsInvariant s ->
  (forall link, link ∈ mLinks s -> plausible hw link) ->
  (length (arrived hw (mLinks s)) <= readyRoom s)%nat ->
  (fillSuperpages hw ;;; fillSuperpages hw) s = fillSuperpages hw s.
Proof.
  intros Hinv Hok Hroom.
  assert (fillSuperpages hw s = (Returned tt, afterFill hw s)) as Hfirst.
  { unfold fillSuperpages, bind, get, fillSuperpages_from.
    by apply (fillSuperpages_from_all hw (mLinks s) [] s). }
  unfold bind at 1. rewrite Hfirst.
  unfold fillSuperpages, bind, get, fillSuperpages_from.
  apply forEachLink_idle. intros j Hrange.
  destruct (mLinks (afterFill hw s) !! j) as [link'|] eqn:Hj.
  - cbn [afterFill mLinks] in Hj. rewrite lookup_map in Hj.
    destruct (mLinks s !! j) as [link|] eqn:Hlink; [|done]. simplify_eq/=.
    apply (fillLink_no_arrival hw j (afterArrivals hw link)).
    + cbn [afterFill mLinks]. by rewrite lookup_map, Hlink.
    + cbn [afterArrivals id superpageCounter]. unfold arrivals. lia.
  - apply lookup_ge_None in Hj. lia.
Qed.

(** ** When a stop returns, and what it then leaves *)

Lemma drained_afterDrain hw s : drainable hw s -> drained hw s = afterDrain s.
Proof.
  intros Hok. apply drainsAll_drainable in Hok. unfold drained, afterDrain.
  rewrite (drainLinks_all hw _ _ Hok). cbn [fst snd].
  by rewrite length_map, <- pendingTotal_allPending.
Qed.

Lemma afterDrain_drainable hw s : drained hw s = afterDrain s -> drainable hw s.
Proof.
  intros Hsame. apply drainsAll_drainable, drainLinks_empty.
  intros link Hin.
  change (link ∈ mLinks (drained hw s)) in Hin. rewrite Hsame in Hin.
  cbn [afterDrain mLinks] in Hin.
  by apply list_elem_of_In, in_map_iff in Hin as (l & <- & _).
Qed.

(** X8. On a channel whose counter agrees with its queues: in a
    drainable state (the ready queue has room for all the superpages of
    the link queues, and no link queue is longer than what the card reports
    beyond the link's counter plus one) [deviceStopDma] returns and leaves
    every link drained, with one count per superpage, the superpages at
    the back of the ready queue, link after link and oldest first, every
    transfer slot free, and the two register calls in the trace.  In a
    build with assertions it returns in these states only.  Compiled with
    [NDEBUG] it returns in every state, and leaves that state in the
    drainable ones only. *)
Theorem deviceStopDma_returns_iff_drainable hw s :
  slotsInvariant s ->
  (drainable hw s -> deviceStopDma hw s = (Returned tt, afterDrain s))
  /\ (NDEBUG = false ->
      ((exists s', deviceStopDma hw s = (Returned tt, s')) <-> drainable hw s))
  /\ (NDEBUG = true ->
      exists s', deviceStopDma hw s = (Returned tt, s')
                 /\ (s' = afterDrain s <-> drainable hw s)).
Proof.
  intros Hinv. rewrite (deviceStopDma_drained hw s Hinv).
  split; [|split].
  - intros Hok. rewrite (drained_afterDrain hw s Hok).
    apply drainsAll_drainable in Hok as ->. by rewrite orb_true_r.
  - intros ->. cbn [orb]. split.
    + intros [s' Hrun]. apply drainsAll_drainable.
      by destruct (drainsAll hw (mLinks s) (readyRoom s)).
    + intros Hok. apply drainsAll_drainable in Hok as ->. by eexists.
  - intros ->. cbn [orb]. exists (drained hw s). split; [done|]. split.
    + apply afterDrain_drainable.
    + intros Hok. by apply drained_afterDrain.
Qed.

(** ** Sessions: what the calls are made of *)

(** Apart from the start, the calls change the state by a few steps only:
    a transfer of the oldest superpages of a link that fit the ready
    queue, a call on the card, an append to a link queue with room, and
    the removal of the front of the ready queue. *)
Lemma fillLink_steps hw i s :
  (fillLink hw i s).2 = s
  \/ exists link m,
       mLinks s !! i = Some link /\ (m <= length (queue link))%nat
       /\ (m <= readyRoom s)%nat
       /\ (fillLink hw i s).2 = transferred i m link s.
Proof.
  destruct (mLinks s !! i) as [link|] eqn:Hi.
  - destruct (N.le_gt_cases (uint32 (hw (id link))) (superpageCounter link)) as [Hle|Hlt].
    { left. by rewrite (fillLink_no_arrival hw i link s Hi Hle). }
    destruct (N.le_gt_cases (uint32 (hw (id link)) - superpageCounter link)
                (queue_size (queue link))) as [Hfew|Hmany].
    + right.
      exists link,
        (N.to_nat (uint32 (hw (id link)) - superpageCounter link) `min` readyRoom s)%nat.
      rewrite (fillLink_arrivals hw i link s Hi Hlt Hfew).
      unfold queue_size in *. repeat split; lia.
    + left. by rewrite (fillLink_too_many hw i link s Hi Hlt Hmany).
  - left. by rewrite fillLink_out_of_range.
Qed.

Lemma stopLink_steps hw i s :
  (stopLink hw i s).2 = s
  \/ exists link m,
       mLinks s !! i = Some link /\ (m <= length (queue link))%nat
       /\ (m <= readyRoom s)%nat
       /\ (stopLink hw i s).2 = transferred i m link s.
Proof.
  destruct (mLinks s !! i) as [link|] eqn:Hi.
  - right. exists link, (stopMoves hw link s).
    rewrite (stopLink_spec hw i link s Hi). unfold stopMoves. repeat split; lia.
  - left. by rewrite stopLink_out_of_range.
Qed.

Lemma pushSuperpage_steps superpage s :
  (exists e, pushSuperpage superpage s = (Thrown e, s))
  \/ exists link,
       mLinks s !! N.to_nat (getNextLinkIndex s) = Some link
       /\ queue_size (queue link) < LINK_QUEUE_CAPACITY
       /\ let s1 := enqueued (N.to_nat (getNextLinkIndex s)) link superpage s in
          (mDmaPageSize config = 0
           /\ pushSuperpage superpage s = (Thrown UndefinedBehaviour, s1))
          \/ pushSuperpage superpage s
             = (Returned tt, announced (descriptorOf link superpage) s1).
Proof.
  rewrite pushSuperpage_cases.
  destruct (checkSuperpage superpage); [|left; by eexists].
  destruct (mLinkQueuesTotalAvailable s =? 0); [left; by eexists|].
  destruct (mLinks s !! N.to_nat (getNextLinkIndex s)) as [link|]; [|left; by eexists].
  destruct (N.leb_spec LINK_QUEUE_CAPACITY (queue_size (queue link))); [left; by eexists|].
  right. exists link. split; [done|]. split; [done|]. cbn zeta.
  destruct (N.eqb_spec (mDmaPageSize config) 0); [left|right]; done.
Qed.

Lemma popSuperpage_steps s :
  mReadyQueue s = [] /\ popSuperpage s = (Thrown PopFromEmptyReadyQueue, s)
  \/ exists front rest,
       mReadyQueue s = front :: rest
       /\ popSuperpage s = (Returned front, set_mReadyQueue rest s).
Proof.
  unfold popSuperpage, bind, get. destruct (mReadyQueue s) as [|front rest].
  - by left.
  - right. by exists front, rest.
Qed.

Lemma getSuperpage_state s : (getSuperpage s).2 = s.
Proof. unfold getSuperpage, bind, get. by destruct (mReadyQueue s). Qed.

Lemma resetCru_announced s :
  resetCru s =
  (Returned tt,
   announced (sleep_for 100)
     (announced resetCard (announced (sleep_for 100) (announced resetDataGeneratorCounter s)))).
Proof. reflexivity. Qed.

Section Kept.

Variable P : State -> Prop.

Hypothesis P_transferred : forall i m link s,
  P s -> mLinks s !! i = Some link -> (m <= length (queue link))%nat ->
  (m <= readyRoom s)%nat -> P (transferred i m link s).

Hypothesis P_announced : forall e s,
  P s -> (forall b, e <> setDebugModeEnabled b) -> isDescriptor e = false ->
  P (announced e s).

Hypothesis P_described : forall link superpage s,
  P s -> P (announced (descriptorOf link superpage) s).

Hypothesis P_enqueued : forall i link superpage s,
  P s -> mLinks s !! i = Some link -> queue_size (queue link) < LINK_QUEUE_CAPACITY ->
  P (enqueued i link superpage s).

Hypothesis P_popped : forall front rest s,
  P s -> mReadyQueue s = front :: rest -> P (set_mReadyQueue rest s).

Hypothesis P_started : forall s, P s -> P (deviceStartDma s).2.

Lemma fillSuperpages_keeps hw s : P s -> P (fillSuperpages hw s).2.
Proof.
  intros HP. unfold fillSuperpages, bind, get, fillSuperpages_from.
  apply forEachLink_preserves; [|done].
  intros i s1 HP1.
  destruct (fillLink_steps hw i s1) as [->|(link & m & Hi & Hm & Hroom & ->)]; [done|].
  by apply P_transferred.
Qed.

Lemma deviceStopDma_keeps hw s : P s -> P (deviceStopDma hw s).2.
Proof.
  intros HP. rewrite deviceStopDma_unfold. cbn zeta.
  set (s0 := announced disableDataTaking (announced (setDataEmulatorEnabled false) s)).
  assert (P s0) as HP0 by (unfold s0; apply P_announced; [apply P_announced|..]; done).
  assert (P (deviceStopDma_from hw 0 (length (mLinks s)) s0).2) as Hrun.
  { unfold deviceStopDma_from. apply forEachLink_preserves; [|done].
    intros i s1 HP1.
    destruct (stopLink_steps hw i s1) as [->|(link & m & Hi & Hm & Hroom & ->)]; [done|].
    by apply P_transferred. }
  destruct (deviceStopDma_from hw 0 (length (mLinks s)) s0) as [[[]|e] s']; [|done].
  destruct (_ =? _); exact Hrun.
Qed.

Lemma deviceResetChannel_keeps resetLevel s :
  P s -> P (deviceResetChannel resetLevel s).2.
Proof.
  intros HP.
  assert (P (resetCru s).2) as Hreset.
  { rewrite resetCru_announced. cbn [snd]. repeat (apply P_announced; [|done..]). done. }
  by destruct resetLevel.
Qed.

Lemma pushSuperpage_keeps superpage s : P s -> P (pushSuperpage superpage s).2.
Proof.
  intros HP.
  destruct (pushSuperpage_steps superpage s)
    as [[e ->]|(link & Hi & Hroom & [[_ ->]| ->])]; [done|by apply P_enqueued|].
  cbn [snd]. by apply P_described, P_enqueued.
Qed.

Lemma popSuperpage_keeps s : P s -> P (popSuperpage s).2.
Proof.
  intros HP.
  destruct (popSuperpage_steps s) as [[_ ->]|(front & rest & Hready & ->)]; [done|].
  by eapply P_popped.
Qed.

Lemma runCalls_keeps calls : forall s, P s -> P (finalState (runCalls calls s)).
Proof.
  induction calls as [|call calls IH]; intros s HP; [done|].
  destruct call as [|superpage|hw| | |hw|resetLevel]; cbn [runCalls].
  - by apply IH, P_started.
  - pose proof (IH _ (pushSuperpage_keeps superpage s HP)) as Hlater.
    by destruct (pushSuperpage superpage s).1.
  - by apply IH, fillSuperpages_keeps.
  - apply IH. by rewrite getSuperpage_state.
  - pose proof (IH _ (popSuperpage_keeps s HP)) as Hlater.
    by destruct (popSuperpage s).1.
  - by apply IH, deviceStopDma_keeps.
  - by apply IH, deviceResetChannel_keeps.
Qed.

Lemma runCalls_popped_keeps (Q : Superpage -> Prop) :
  (forall s front rest, P s -> mReadyQueue s = front :: rest -> Q front) ->
  forall calls s, P s -> Forall Q (poppedSuperpages (runCalls calls s)).
Proof.
  intros Hfront. induction calls as [|call calls IH]; intros s HP; [by constructor|].
  destruct call as [|superpage|hw| | |hw|resetLevel]; cbn [runCalls].
  - by apply IH, P_started.
  - pose proof (IH _ (pushSuperpage_keeps superpage s HP)) as Hlater.
    by destruct (pushSuperpage superpage s).1.
  - by apply IH, fillSuperpages_keeps.
  - apply IH. by rewrite getSuperpage_state.
  - pose proof (IH _ (popSuperpage_keeps s HP)) as Hlater.
    destruct (popSuperpage_steps s) as [[_ Hpop]|(front & rest & Hready & Hpop)];
      rewrite Hpop in *; cbn [fst snd] in *; [done|].
    constructor; [by eapply Hfront | done].
  - by apply IH, deviceStopDma_keeps.
  - by apply IH, deviceResetChannel_keeps.
Qed.

End Kept.

(** ** Sessions: no superpage is lost *)

Lemma allPending_app links1 links2 :
  allPending (links1 ++ links2) = allPending links1 ++ allPending links2.
Proof. unfold allPending. by rewrite map_app, concat_app. Qed.

Lemma allPending_lookup links i link :
  links !! i = Some link ->
  allPending links
  = allPending (take i links) ++ queue link ++ allPending (drop (S i) links).
Proof.
  intros Hi. rewrite <- (take_drop_middle links i link Hi) at 1.
  by rewrite allPending_app.
Qed.

Lemma allPending_insert links i link link' :
  links !! i = Some link ->
  allPending (<[i := link']> links)
  = allPending (take i links) ++ queue link' ++ allPending (drop (S i) links).
Proof.
  intros Hi. rewrite insert_take_drop by (by eapply lookup_lt_Some).
  by rewrite allPending_app.
Qed.

Lemma held_transferred i m link s :
  mLinks s !! i = Some link ->
  held (transferred i m link s) ≡ₚ held s.
Proof.
  intros Hi. unfold held. cbn [transferred mLinks mReadyQueue].
  rewrite (allPending_insert _ _ link _ Hi), (allPending_lookup _ _ link Hi).
  cbn [queue].
  rewrite <- (take_drop m (queue link)) at 3.
  rewrite !map_app, <- !app_assoc.
  apply Permutation_app_head, Permutation_app_swap_app.
Qed.

Lemma held_enqueued i link superpage s :
  mLinks s !! i = Some link ->
  held (enqueued i link superpage s) ≡ₚ held s ++ [markArrived superpage].
Proof.
  intros Hi. unfold held. cbn [enqueued mLinks mReadyQueue].
  rewrite (allPending_insert _ _ link _ Hi), (allPending_lookup _ _ link Hi).
  cbn [queue].
  rewrite !map_app, <- !app_assoc.
  do 3 apply Permutation_app_head. cbn [map]. apply Permutation_app_comm.
Qed.

(** X9. Through any sequence of calls without a start, on a channel with
    a page size other than zero, no superpage is lost and none is
    duplicated: the superpages that the pops returned, with those that the
    channel still holds, are those it held at first with those whose push
    returned (each as it looks once it has arrived). *)
Theorem runCalls_conserves_superpages calls : forall s,
  mDmaPageSize config <> 0 ->
  CallStart ∉ calls ->
  poppedSuperpages (runCalls calls s) ++ held (finalState (runCalls calls s))
  ≡ₚ held s ++ map markArrived (map snd (acceptedPushes (runCalls calls s))).
Proof.
  induction calls as [|call calls IH]; intros s Hpage Hstart.
  { cbn. by rewrite app_nil_r. }
  apply not_elem_of_cons in Hstart as [Hcall Hstart].
  assert (forall s1, held s1 ≡ₚ held s ->
            poppedSuperpages (runCalls calls s1) ++ held (finalState (runCalls calls s1))
            ≡ₚ held s ++ map markArrived (map snd (acceptedPushes (runCalls calls s1))))
    as Hquiet.
  { intros s1 Hsame. rewrite <- Hsame. by apply IH. }
  assert (forall i m link s1,
            held s1 ≡ₚ held s -> mLinks s1 !! i = Some link ->
            (m <= length (queue link))%nat -> (m <= readyRoom s1)%nat ->
            held (transferred i m link s1) ≡ₚ held s) as Htransferred.
  { intros i m link s1 Hsame Hi _ _. by rewrite held_transferred. }
  assert (forall e s1,
            held s1 ≡ₚ held s -> (forall b, e <> setDebugModeEnabled b) ->
            isDescriptor e = false ->
            held (announced e s1) ≡ₚ held s) as Hannounced by done.
  destruct call as [|superpage|hw| | |hw|resetLevel]; cbn [runCalls]; [done|..].
  - destruct (pushSuperpage_steps superpage s)
      as [[e ->]|(link & Hi & Hroom & [[Hzero _]| ->])]; [|done|]; cbn [fst snd].
    + by apply IH.
    + cbn [acceptedPushes poppedSuperpages finalState map].
      rewrite (IH _ Hpage Hstart).
      change (held (announced (descriptorOf link superpage)
                      (enqueued (N.to_nat (getNextLinkIndex s)) link superpage s)))
        with (held (enqueued (N.to_nat (getNextLinkIndex s)) link superpage s)).
      rewrite (held_enqueued _ link superpage s Hi), <- app_assoc. done.
  - apply Hquiet.
    by apply (fillSuperpages_keeps (fun s1 => held s1 ≡ₚ held s)).
  - apply Hquiet. by rewrite getSuperpage_state.
  - destruct (popSuperpage_steps s) as [[_ ->]|(front & rest & Hready & ->)];
      cbn [fst snd].
    + by apply IH.
    + cbn [acceptedPushes poppedSuperpages finalState].
      rewrite <- app_comm_cons, (IH _ Hpage Hstart).
      unfold held at 2. rewrite Hready. done.
  - apply Hquiet.
    by apply (deviceStopDma_keeps (fun s1 => held s1 ≡ₚ held s)).
  - apply Hquiet.
    by apply (deviceResetChannel_keeps (fun s1 => held s1 ≡ₚ held s)).
Qed.

(** ** Sessions: what a start changes *)

Lemma deviceStartDma_effect s :
  exists calls,
    trace (deviceStartDma s).2 = trace s ++ calls
    /\ descriptors calls = []
    /\ ((mLinks (deviceStartDma s).2 = mLinks s
         /\ mReadyQueue (deviceStartDma s).2 = mReadyQueue s)
        \/ (mLinks (deviceStartDma s).2 = map clearLink (mLinks s)
            /\ mReadyQueue (deviceStartDma s).2 = []))
    /\ ((mDebugRegisterReset (deviceStartDma s).2 = mDebugRegisterReset s
         /\ debugModeEnabled (deviceStartDma s).2 = debugModeEnabled s)
        \/ (mLoopbackMode config = Internal
            /\ debugModeEnabled s = false
            /\ mDebugRegisterReset (deviceStartDma s).2 = true
            /\ debugModeEnabled (deviceStartDma s).2 = true)).
Proof.
  unfold deviceStartDma, selectDataSource, enableDebugMode.
  destruct (mGeneratorEnabled config), (mLoopbackMode config),
    (dataSelection config), (debugModeEnabled s) eqn:Hdebug;
    run_start; rewrite ?Hdebug; run_start;
    try (destruct (_ =? DATA_SOURCE_SELECT_GBT); run_start);
    eexists;
    (split; [rewrite <- ?app_assoc; first [reflexivity | symmetry; apply app_nil_r]|]);
    (split; [reflexivity|]);
    (split; [first [by left | by right] | first [by left | by right]]).
Qed.

(** ** Sessions: the descriptors handed to the card *)

Lemma map_id_insert links i link link' :
  links !! i = Some link -> id link' = id link ->
  map id (<[i := link']> links) = map id links.
Proof.
  revert i. induction links as [|l links IH]; intros [|i] Hi Hid; simplify_eq/=.
  - by rewrite Hid.
  - f_equal. by apply IH.
Qed.

Lemma map_id_clearLink links : map id (map clearLink links) = map id links.
Proof. rewrite map_map. by apply map_ext. Qed.

Lemma map_id_lookup links : forall links' i,
  map id links = map id links' ->
  match links !! i with Some link => id link | None => 0 end
  = match links' !! i with Some link => id link | None => 0 end.
Proof.
  induction links as [|l links IH]; intros [|l' links'] i Hids; simplify_eq/=; [done|].
  destruct i as [|i]; [done|]. cbn. by apply IH.
Qed.

Lemma descriptors_app calls1 calls2 :
  descriptors (calls1 ++ calls2) = descriptors calls1 ++ descriptors calls2.
Proof. apply List.filter_app. Qed.

Lemma descriptors_from_ids calls : forall s links0,
  map id (mLinks s) = map id links0 ->
  descriptors (trace (finalState (runCalls calls s)))
  = descriptors (trace s)
    ++ map (descriptorAt links0) (acceptedPushes (runCalls calls s)).
Proof.
  induction calls as [|call calls IH]; intros s links0 Hids.
  { cbn. by rewrite app_nil_r. }
  set (P := fun s1 : State =>
              map id (mLinks s1) = map id links0
              /\ descriptors (trace s1) = descriptors (trace s)).
  assert (forall s1, P s1 ->
            descriptors (trace (finalState (runCalls calls s1)))
            = descriptors (trace s)
              ++ map (descriptorAt links0) (acceptedPushes (runCalls calls s1)))
    as Hquiet.
  { intros s1 [Hids1 Htrace]. rewrite <- Htrace. by apply IH. }
  assert (P s) as HP by done.
  assert (forall i m link s1,
            P s1 -> mLinks s1 !! i = Some link ->
            (m <= length (queue link))%nat -> (m <= readyRoom s1)%nat ->
            P (transferred i m link s1)) as Htransferred.
  { intros i m link s1 [Hids1 Htrace] Hi _ _. split; [|done].
    cbn [transferred mLinks]. by rewrite (map_id_insert _ _ link). }
  assert (forall e s1,
            P s1 -> (forall b, e <> setDebugModeEnabled b) -> isDescriptor e = false ->
            P (announced e s1)) as Hannounced.
  { intros e s1 [Hids1 Htrace] _ He. split; [done|].
    cbn [announced trace]. rewrite descriptors_app, Htrace.
    unfold descriptors at 2. cbn [List.filter]. rewrite He. apply app_nil_r. }
  destruct call as [|superpage|hw| | |hw|resetLevel]; cbn [runCalls].
  - apply Hquiet.
    destruct (deviceStartDma_effect s) as (calls1 & Htrace & Hnone & Hqueues & _).
    split.
    + destruct Hqueues as [[-> _]|[-> _]]; [done | by rewrite map_id_clearLink].
    + by rewrite Htrace, descriptors_app, Hnone, app_nil_r.
  - destruct (pushSuperpage_steps superpage s)
      as [[e ->]|(link & Hi & Hroom & [[Hzero ->]| ->])]; cbn [fst snd].
    + by apply Hquiet.
    + apply Hquiet. split; [|done].
      cbn [enqueued mLinks]. by rewrite (map_id_insert _ _ link).
    + cbn [acceptedPushes finalState map].
      rewrite (IH _ links0).
      * cbn [announced trace]. rewrite descriptors_app, <- app_assoc. do 2 f_equal.
        unfold descriptorAt, descriptorOf. cbn [fst snd].
        rewrite <- (map_id_lookup _ _ _ Hids), Hi. done.
      * cbn [announced enqueued mLinks]. by rewrite (map_id_insert _ _ link).
  - apply Hquiet. by apply (fillSuperpages_keeps P).
  - apply Hquiet. by rewrite getSuperpage_state.
  - destruct (popSuperpage_steps s) as [[_ ->]|(front & rest & Hready & ->)];
      cbn [fst snd]; by apply Hquiet.
  - apply Hquiet. by apply (deviceStopDma_keeps P).
  - apply Hquiet. by apply (deviceResetChannel_keeps P).
Qed.

(** X10. Through any sequence of calls, the superpage descriptors handed
    to the card are those of the pushes that returned, one for each and in
    the order of the pushes: each names the id of the link that the push
    chose, the size of the superpage in pages, and its bus address.  No
    other call hands a descriptor to the card. *)
Theorem runCalls_descriptors calls s :
  descriptors (trace (finalState (runCalls calls s)))
  = descriptors (trace s)
    ++ map (descriptorAt (mLinks s)) (acceptedPushes (runCalls calls s)).
Proof. by apply descriptors_from_ids. Qed.

(** ** Sessions: capacities, completed superpages, the debug register *)

Lemma runCalls_fits calls s :
  withinCapacity s -> withinCapacity (finalState (runCalls calls s)).
Proof.
  apply (runCalls_keeps withinCapacity).
  - intros i m link s1 [Hready Hlinks] Hi Hm Hroom.
    apply Forall_forall in Hlinks. split.
    + cbn [transferred mReadyQueue]. unfold readyRoom, queue_size in *.
      rewrite length_app, length_map, length_take_le by done. lia.
    + apply Forall_forall. cbn [transferred mLinks].
      apply Forall_insert; [done|]. cbn [queue].
      pose proof (Forall_lookup_1 _ _ _ _ Hlinks Hi) as Hq. cbn beta in Hq.
      unfold queue_size in *. rewrite length_drop. lia.
  - intros e s1 HP _ _. exact HP.
  - intros link superpage s1 HP. exact HP.
  - intros i link superpage s1 [Hready Hlinks] Hi Hroom. split; [done|].
    apply Forall_forall in Hlinks. apply Forall_forall. cbn [enqueued mLinks].
    apply Forall_insert; [done|]. cbn [queue].
    unfold queue_size in *. rewrite length_app. simpl. lia.
  - intros front rest s1 [Hready Hlinks] Hq. split; [|done].
    cbn [set_mReadyQueue mReadyQueue]. rewrite Hq in Hready.
    unfold queue_size in *. simpl in Hready. lia.
  - intros s1 [Hready Hlinks].
    destruct (deviceStartDma_effect s1) as (calls1 & _ & _ & Hqueues & _).
    unfold withinCapacity.
    destruct Hqueues as [[-> ->]|[-> ->]]; [done|].
    split; [unfold queue_size; simpl; lia|].
    intros link Hin. apply list_elem_of_In, in_map_iff in Hin as (l0 & <- & _).
    unfold queue_size. simpl. lia.
Qed.

Lemma drainsInOrder_then k pushed s s1
    (later popped finalQueue finalReady : list Superpage) :
  drainsInOrder k pushed s s1 ->
  (exists left arrived,
     linkQueue k s1 ++ later = left ++ finalQueue
     /\ popped ++ finalReady = mReadyQueue s1 ++ arrived
     /\ map markArrived left `sublist_of` arrived) ->
  exists left arrived,
    linkQueue k s ++ pushed ++ later = left ++ finalQueue
    /\ popped ++ finalReady = mReadyQueue s ++ arrived
    /\ map markArrived left `sublist_of` arrived.
Proof.
  intros (out & added & Hqueue & Hready & Hsub) (left & arrived & Hleft & Harrived & Hsub1).
  exists (out ++ left), (added ++ arrived). split; [|split].
  - by rewrite app_assoc, Hqueue, <- !app_assoc, Hleft.
  - by rewrite Harrived, Hready, <- app_assoc.
  - rewrite map_app. by apply sublist_app.
Qed.

Lemma runCalls_drains k calls : forall s,
  mDmaPageSize config <> 0 ->
  CallStart ∉ calls ->
  exists left arrived,
    linkQueue k s ++ pushedTo k (acceptedPushes (runCalls calls s))
    = left ++ linkQueue k (finalState (runCalls calls s))
    /\ poppedSuperpages (runCalls calls s) ++ mReadyQueue (finalState (runCalls calls s))
       = mReadyQueue s ++ arrived
    /\ map markArrived left `sublist_of` arrived.
Proof.
  induction calls as [|call calls IH]; intros s Hpage Hstart.
  { exists [], []. cbn. rewrite !app_nil_r. split; [done|]. split; [done|]. constructor. }
  apply not_elem_of_cons in Hstart as [Hcall Hstart].
  destruct call as [|superpage|hw| | |hw|resetLevel]; cbn [runCalls]; [done|..].
  - pose proof (pushSuperpage_drains k superpage s Hpage) as Hpush.
    destruct (pushSuperpage superpage s) as [[[]|e] s1]; cbn [fst snd] in *.
    + cbn [acceptedPushes poppedSuperpages finalState pushedTo].
      destruct (Nat.eqb (N.to_nat (getNextLinkIndex s)) k).
      * apply (drainsInOrder_then k [superpage] s s1); [done | by apply IH].
      * apply (drainsInOrder_then k [] s s1); [done | by apply IH].
    + apply (drainsInOrder_then k [] s s1); [done | by apply IH].
  - apply (drainsInOrder_then k [] s (fillSuperpages hw s).2);
      [apply fillSuperpages_drains | by apply IH].
  - rewrite getSuperpage_state. by apply IH.
  - destruct (popSuperpage_steps s) as [[_ ->]|(front & rest & Hready & ->)];
      cbn [fst snd]; [by apply IH|].
    destruct (IH (set_mReadyQueue rest s) Hpage Hstart) as (left & arrived & Hleft & Hpop & Hsub).
    exists left, arrived. cbn [acceptedPushes poppedSuperpages finalState].
    split; [exact Hleft|]. split; [|done].
    rewrite Hready, <- !app_comm_cons. f_equal. exact Hpop.
  - apply (drainsInOrder_then k [] s (deviceStopDma hw s).2);
      [apply deviceStopDma_drains | by apply IH].
  - apply (drainsInOrder_then k [] s (deviceResetChannel resetLevel s).2); [|by apply IH].
    apply (deviceResetChannel_keeps (drainsInOrder k [] s)); [|apply drainsInOrder_refl].
    intros e s1 HP _ _. exact HP.
Qed.

(** X11. Through any sequence of calls without a start, on a channel with
    a page size other than zero, the queues change at their ends only, so
    that no superpage is overwritten: what the ready queue held is popped
    or still there, in front of the superpages that arrived since; what a
    link queue held, followed by the superpages pushed to it, has left it
    from the front or is still there; and the superpages that left a link
    are among those that arrived in the ready queue, in the same order.
    If no queue held more than its capacity at first, none does in the
    end. *)
Theorem runCalls_never_overwrites calls s k :
  mDmaPageSize config <> 0 ->
  CallStart ∉ calls ->
  let session := runCalls calls s in
  exists left arrived,
    linkQueue k s ++ pushedTo k (acceptedPushes session)
    = left ++ linkQueue k (finalState session)
    /\ poppedSuperpages session ++ mReadyQueue (finalState session)
       = mReadyQueue s ++ arrived
    /\ map markArrived left `sublist_of` arrived
    /\ (withinCapacity s -> withinCapacity (finalState session)).
Proof.
  intros Hpage Hstart session.
  destruct (runCalls_drains k calls s Hpage Hstart) as (left & arrived & Hleft & Hpop & Hsub).
  exists left, arrived. split; [done|]. split; [done|]. split; [done|].
  apply runCalls_fits.
Qed.

Lemma markArrived_complete superpage : complete (markArrived superpage).
Proof. done. Qed.

Lemma map_markArrived_complete superpages :
  Forall complete (map markArrived superpages).
Proof.
  induction superpages; constructor; [apply markArrived_complete | done].
Qed.

(** X12. If the superpages of the ready queue are marked ready and count
    as received in full, then so is every superpage that a pop returns,
    whatever is called before it. *)
Theorem runCalls_pops_complete calls s :
  Forall complete (mReadyQueue s) ->
  Forall complete (poppedSuperpages (runCalls calls s)).
Proof.
  apply (runCalls_popped_keeps (fun s1 => Forall complete (mReadyQueue s1))).
  - intros i m link s1 HP _ _ _. cbn [transferred mReadyQueue].
    apply Forall_app_2; [done | apply map_markArrived_complete].
  - intros e s1 HP _ _. exact HP.
  - intros link superpage s1 HP. exact HP.
  - intros i link superpage s1 HP _ _. exact HP.
  - intros front rest s1 HP Hq. cbn [set_mReadyQueue mReadyQueue].
    rewrite Hq in HP. by apply Forall_cons in HP as [_ ?].
  - intros s1 HP.
    destruct (deviceStartDma_effect s1) as (calls1 & _ & _ & [[_ ->]|[_ ->]] & _);
      [done | constructor].
  - intros s1 front rest HP Hq. rewrite Hq in HP. by apply Forall_cons in HP as [? _].
Qed.

(** X13. A channel that has not yet touched the debug register leaves it
    as it found it: whatever was called, after the destructor the debug
    mode of the card is what it was at first (the register being written
    by this channel only). *)
Theorem destructor_restores_debug_mode calls s :
  mDebugRegisterReset s = false ->
  debugModeEnabled (destructor (finalState (runCalls calls s))).2 = debugModeEnabled s.
Proof.
  intros Hfresh.
  set (P := fun s1 : State =>
              (mDebugRegisterReset s1 = false
               /\ debugModeEnabled s1 = debugModeEnabled s)
              \/ (mDebugRegisterReset s1 = true
                  /\ debugModeEnabled s = false /\ mLoopbackMode config = Internal)).
  assert (P (finalState (runCalls calls s))) as Hfinal.
  { apply (runCalls_keeps P).
    - intros i m link s1 HP _ _ _. exact HP.
    - intros e s1 HP _ _. exact HP.
    - intros link superpage s1 HP. exact HP.
    - intros i link superpage s1 HP _ _. exact HP.
    - intros front rest s1 HP _. exact HP.
    - intros s1 HP.
      destruct (deviceStartDma_effect s1) as (calls1 & _ & _ & _ & Hflags).
      unfold P in *.
      destruct Hflags as [[-> ->]|(Hmode & Hoff & -> & _)]; [done|].
      right. destruct HP as [[_ <-]|(_ & ? & _)]; done.
    - by left. }
  set (s' := finalState (runCalls calls s)) in *.
  unfold destructor, setBufferNonReady, resetDebugMode, bind, get, call, modify, ret.
  cbn [fst snd mDebugRegisterReset debugModeEnabled].
  destruct Hfinal as [[Hreset Hsame]|(Hreset & Hoff & Hmode)].
  - destruct (mLoopbackMode config); cbn [mDebugRegisterReset debugModeEnabled snd];
      rewrite ?Hreset; done.
  - rewrite Hmode. cbn [mDebugRegisterReset debugModeEnabled snd].
    rewrite Hreset. cbn [debugModeEnabled snd]. done.
Qed.

Lemma deviceStartDma_keeps_invariant s :
  slotsInvariant s -> slotsInvariant (deviceStartDma s).2.
Proof.
  intros Hinv.
  destruct (deviceStartDma s) as [[[]|e] s'] eqn:Hstart.
  - apply (deviceStartDma_invariant s s'); [by destruct Hinv | done].
  - rewrite deviceStartDma_phases in Hstart. unfold bind in Hstart.
    destruct supportedConfiguration eqn:Hconf.
    + destruct (startUpToQueues_supported s Hconf) as (dss & s1 & pre & Hup & _).
      rewrite Hup in Hstart.
      destruct (startFromArming_spec dss s1) as (s2 & post & Harm & _).
      rewrite Harm in Hstart. done.
    + destruct (startUpToQueues_unsupported s Hconf)
        as (e1 & s1 & Hup & _ & Hlinks & _ & Hslots).
      rewrite Hup in Hstart. simplify_eq. cbn [snd].
      unfold slotsInvariant, fullCapacity in *. by rewrite Hlinks, Hslots.
Qed.

(** X19. Whatever is called, starts that throw and resets included, the
    free-slot counter keeps agreeing with the queues: on a channel where
    the counter plus the lengths of the link queues is the capacity of all
    the links (and that capacity fits the counter), it still is after any
    sequence of calls. *)
Theorem runCalls_slotsInvariant calls : forall s,
  slotsInvariant s -> slotsInvariant (finalState (runCalls calls s)).
Proof.
  induction calls as [|call calls IH]; intros s Hinv; [done|].
  destruct call as [|superpage|hw| | |hw|resetLevel]; cbn [runCalls].
  - by apply IH, deviceStartDma_keeps_invariant.
  - pose proof (IH _ (pushSuperpage_invariant superpage s Hinv)) as Hlater.
    by destruct (pushSuperpage superpage s).1.
  - by apply IH, fillSuperpages_invariant.
  - apply IH. by rewrite getSuperpage_state.
  - pose proof (IH _ (popSuperpage_invariant s Hinv)) as Hlater.
    by destruct (popSuperpage s).1.
  - by apply IH, deviceStopDma_invariant.
  - apply IH. destruct resetLevel; [done|..]; by rewrite resetCru_announced.
Qed.

(** ** Sessions on one link: pops come in push order *)

Lemma servesInOrder_held history s : servesInOrder history s -> history = held s.
Proof.
  intros (link & Hlinks & <-). unfold held, allPending. rewrite Hlinks. cbn.
  by rewrite app_nil_r.
Qed.

Lemma runCalls_serves calls : forall history s,
  mDmaPageSize config <> 0 ->
  CallStart ∉ calls ->
  servesInOrder history s ->
  exists rest,
    servesInOrder rest (finalState (runCalls calls s))
    /\ poppedSuperpages (runCalls calls s) ++ rest
       = history ++ map markArrived (map snd (acceptedPushes (runCalls calls s))).
Proof.
  induction calls as [|call calls IH]; intros history s Hpage Hstart Hserves.
  { exists history. cbn. by rewrite app_nil_r. }
  apply not_elem_of_cons in Hstart as [Hcall Hstart].
  destruct call as [|superpage|hw| | |hw|resetLevel]; cbn [runCalls]; [done|..].
  - pose proof (pushSuperpage_serves history superpage s Hpage Hserves) as Hpush.
    destruct (pushSuperpage superpage s) as [[[]|e] s1]; cbn [fst snd] in *.
    + destruct (IH _ s1 Hpage Hstart Hpush) as (rest & Hrest & Heq).
      exists rest. split; [done|].
      cbn [acceptedPushes poppedSuperpages map]. by rewrite Heq, <- app_assoc.
    + by apply IH.
  - by apply IH, fillSuperpages_serves.
  - apply IH; [done..|]. by rewrite getSuperpage_state.
  - destruct (popSuperpage_steps s) as [[_ ->]|(front & rest & Hready & ->)];
      cbn [fst snd].
    + by apply IH.
    + destruct Hserves as (link & Hlinks & Hview). rewrite Hready in Hview.
      destruct (IH (rest ++ map markArrived (queue link)) (set_mReadyQueue rest s))
        as (rest' & Hrest & Heq); [done..| |].
      { by exists link. }
      exists rest'. split; [done|].
      cbn [acceptedPushes poppedSuperpages]. by rewrite <- app_comm_cons, Heq, <- Hview.
  - by apply IH, deviceStopDma_serves.
  - apply IH; [done..|].
    by apply (deviceResetChannel_keeps (servesInOrder history)).
Qed.

(** X14. On a channel with one link and a page size other than zero,
    through any sequence of calls without a start, the superpages leave in
    the order in which they came: those that the pops returned, followed
    by those in the ready queue and those in the link queue, are those the
    channel held at first followed by those whose push returned, in the
    order of the pushes. *)
Theorem runCalls_single_link_order calls s link :
  mDmaPageSize config <> 0 ->
  CallStart ∉ calls ->
  mLinks s = [link] ->
  poppedSuperpages (runCalls calls s) ++ held (finalState (runCalls calls s))
  = held s ++ map markArrived (map snd (acceptedPushes (runCalls calls s))).
Proof.
  intros Hpage Hstart Hlinks.
  assert (servesInOrder (held s) s) as Hserves.
  { exists link. split; [done|]. unfold held, allPending. rewrite Hlinks. cbn.
    by rewrite app_nil_r. }
  destruct (runCalls_serves calls (held s) s Hpage Hstart Hserves) as (rest & Hrest & Heq).
  by rewrite <- (servesInOrder_held rest _ Hrest).
Qed.

(** ** A burst of pushes *)

Lemma pushSuperpage_accepted superpage s :
  slotsInvariant s ->
  mDmaPageSize config <> 0 ->
  checkSuperpage superpage = true ->
  mLinkQueuesTotalAvailable s <> 0 ->
  (pushSuperpage superpage s).1 = Returned tt
  /\ slotsInvariant (pushSuperpage superpage s).2
  /\ mLinkQueuesTotalAvailable (pushSuperpage superpage s).2
     = mLinkQueuesTotalAvailable s - 1.
Proof.
  intros Hinv Hpage Hcheck Hfree. rewrite pushSuperpage_cases, Hcheck.
  destruct (N.eqb_spec (mLinkQueuesTotalAvailable s) 0); [done|].
  destruct (getNextLinkIndex_least_loaded s Hinv Hfree)
    as (i & link & Hidx & Hi & Hroom & _).
  rewrite Hidx, Nat2N.id, Hi.
  destruct (N.leb_spec LINK_QUEUE_CAPACITY (queue_size (queue link))); [lia|].
  cbn zeta. destruct (N.eqb_spec (mDmaPageSize config) 0); [done|].
  destruct (enqueued_invariant i link superpage s Hi Hfree Hinv) as [Hinv' Hslots].
  done.
Qed.

(** X15. Of a burst of pushes of valid superpages, on a channel whose
    counter agrees with its queues and whose page size is not zero, as
    many are accepted as there are free transfer slots, and no more; the
    counter goes down by their number. *)
Theorem pushSuperpage_burst superpages : forall s,
  slotsInvariant s ->
  mDmaPageSize config <> 0 ->
  Forall (fun superpage => checkSuperpage superpage = true) superpages ->
  let session := runCalls (map CallPush superpages) s in
  length (acceptedPushes session)
  = (length superpages `min` N.to_nat (mLinkQueuesTotalAvailable s))%nat
  /\ map snd (acceptedPushes session) = take (length (acceptedPushes session)) superpages
  /\ mLinkQueuesTotalAvailable (finalState session)
     = mLinkQueuesTotalAvailable s - N.of_nat (length (acceptedPushes session)).
Proof.
  induction superpages as [|superpage superpages IH]; intros s Hinv Hpage Hvalid.
  { cbn. split; [done|]. split; [done|]. lia. }
  apply Forall_cons in Hvalid as [Hcheck Hvalid].
  cbn zeta. cbn [map runCalls].
  destruct (N.eq_dec (mLinkQueuesTotalAvailable s) 0) as [Hfull|Hfree].
  - assert (pushSuperpage superpage s = (Thrown TransferQueueFull, s)) as ->.
    { rewrite pushSuperpage_cases, Hcheck, Hfull. done. }
    cbn [fst snd].
    destruct (IH s Hinv Hpage Hvalid) as (Hcount & Horder & Hslots).
    assert (acceptedPushes (runCalls (map CallPush superpages) s) = []) as Hnone
      by (apply length_zero_iff_nil; lia).
    rewrite Hnone in *. cbn [length map take] in *.
    split; [lia|]. split; done.
  - destruct (pushSuperpage_accepted superpage s Hinv Hpage Hcheck Hfree)
      as (-> & Hinv' & Hslots').
    destruct (IH _ Hinv' Hpage Hvalid) as (Hcount & Horder & Hslots).
    cbn [acceptedPushes finalState length map].
    rewrite Hcount, Hslots' in *.
    split; [lia|]. split.
    + cbn [take]. by rewrite Horder.
    + rewrite Hslots. lia.
Qed.

(** ** The constructor *)

Lemma insertLinks_cases linkMask : forall links,
  match insertLinks linkMask links with
  | inr links' =>
      Forall (fun linkId => linkId < MAX_LINKS) linkMask
      /\ links' = links ++ map (fun linkId =>
                                {| id := linkId; superpageCounter := 0; queue := [] |})
                             linkMask
  | inl (InvalidLinkId linkId) =>
      exists before after,
        linkMask = before ++ linkId :: after
        /\ Forall (fun linkId => linkId < MAX_LINKS) before
        /\ MAX_LINKS <= linkId
  | inl (LoopbackModeNotSupported _) => False
  end.
Proof.
  induction linkMask as [|linkId linkMask IH]; intros links; cbn [insertLinks].
  - split; [constructor|]. cbn. by rewrite app_nil_r.
  - destruct (N.leb_spec MAX_LINKS linkId) as [Hbad|Hgood].
    + exists [], linkMask. split; [done|]. split; [constructor|done].
    + specialize (IH (links ++ [ {| id := linkId; superpageCounter := 0; queue := [] |} ])).
      destruct (insertLinks linkMask _) as [[mode|bad]|links'].
      * done.
      * destruct IH as (before & after & -> & Hbefore & Hbad).
        exists (linkId :: before), after. split; [done|]. split; [by constructor|done].
      * destruct IH as [Hall ->]. split; [by constructor|].
        cbn [map]. by rewrite <- app_assoc.
Qed.

(** X16. The constructor validates its parameters: it throws for the
    loopback modes [Diu] and [Siu], and otherwise for the first id of the
    link mask that is not below [MAX_LINKS]; when it returns, the loopback
    mode is neither of the two, every id of the mask is below [MAX_LINKS],
    and the channel has one link for each id, in the order of the mask,
    with a counter of zero and an empty queue.  Without a link mask the
    channel has the one link 0. *)
Theorem constructor_validates parameters dataSelectionFeature :
  let mode := default Internal (getGeneratorLoopback parameters) in
  let linkMask := default [0] (getLinkMask parameters) in
  match constructor parameters dataSelectionFeature with
  | inr (members, links) =>
      mode <> Diu /\ mode <> Siu
      /\ Forall (fun linkId => linkId < MAX_LINKS) linkMask
      /\ links = map (fun linkId => {| id := linkId; superpageCounter := 0; queue := [] |})
                   linkMask
      /\ mLoopbackMode members = mode
      /\ mGeneratorEnabled members = default true (getGeneratorEnabled parameters)
      /\ mDmaPageSize members = default DMA_PAGE_SIZE (getDmaPageSize parameters)
  | inl (LoopbackModeNotSupported rejected) =>
      rejected = mode /\ (mode = Diu \/ mode = Siu)
  | inl (InvalidLinkId linkId) =>
      mode <> Diu /\ mode <> Siu
      /\ exists before after,
           linkMask = before ++ linkId :: after
           /\ Forall (fun linkId => linkId < MAX_LINKS) before
           /\ MAX_LINKS <= linkId
  end.
Proof.
  cbn zeta. unfold constructor. cbn [mLoopbackMode].
  pose proof (insertLinks_cases (default [0] (getLinkMask parameters)) []) as Hlinks.
  destruct (default Internal (getGeneratorLoopback parameters)) eqn:Hmode;
    try (split; [done|]; first [by left | by right]);
    (destruct (insertLinks _ []) as [[rejected|linkId]|links]; [done| |]);
    (split; [done|]); (split; [done|]); try done;
    destruct Hlinks as [Hall ->]; done.
Qed.

Lemma deviceStartDma_returns_iff s :
  (exists s', deviceStartDma s = (Returned tt, s')) <-> supportedConfiguration = true.
Proof.
  rewrite deviceStartDma_phases. unfold bind.
  destruct supportedConfiguration eqn:Hconf.
  - destruct (startUpToQueues_supported s Hconf) as (dss & s1 & pre & -> & _).
    destruct (startFromArming_spec dss s1) as (s2 & post & -> & _).
    split; [done | by exists s2].
  - destruct (startUpToQueues_unsupported s Hconf) as (e & s1 & -> & _).
    split; [by intros [s' ?] | done].
Qed.

(** X17. A channel that was constructed starts without an exception
    exactly when its parameters enable the generator with a loopback mode
    other than [None], or disable it with the loopback mode [None]; the
    defaults are the generator with the loopback mode [Internal].  So a
    channel constructed without these two parameters starts. *)
Theorem constructed_channel_starts parameters dataSelectionFeature links s :
  constructor parameters dataSelectionFeature = inr (config, links) ->
  let mode := default Internal (getGeneratorLoopback parameters) in
  let enabled := default true (getGeneratorEnabled parameters) in
  ((exists s', deviceStartDma s = (Returned tt, s'))
   <-> (enabled = true /\ mode <> None_) \/ (enabled = false /\ mode = None_))
  /\ (getGeneratorLoopback parameters = None ->
      getGeneratorEnabled parameters = None ->
      exists s', deviceStartDma s = (Returned tt, s')).
Proof.
  intros Hmade. cbn zeta.
  assert (mLoopbackMode config = default Internal (getGeneratorLoopback parameters)
          /\ mGeneratorEnabled config = default true (getGeneratorEnabled parameters)
          /\ mLoopbackMode config <> Diu /\ mLoopbackMode config <> Siu)
    as (Hmode & Henabled & Hdiu & Hsiu).
  { unfold constructor in Hmade. cbn [mLoopbackMode] in Hmade.
    destruct (default Internal (getGeneratorLoopback parameters)) eqn:Hloop; try done;
      destruct (insertLinks _ []); try done; simplify_eq; cbn; by rewrite ?Hloop. }
  rewrite deviceStartDma_returns_iff. unfold supportedConfiguration.
  rewrite <- Hmode, <- Henabled.
  split.
  - destruct (mGeneratorEnabled config), (mLoopbackMode config); split; try done;
      try (intros _; first [by left | by right]); intros [[? ?]|[? ?]]; done.
  - intros Hloop Hgen. rewrite Hloop, Hgen in *. cbn in Hmode, Henabled.
    by rewrite Hmode, Henabled.
Qed.

End CruDmaChannel.

(** * The claims on a concrete channel *)

(** C1 on the busy channel: after a start and after each operation the counter agrees with the queues. *)
Lemma slots_counter_matches_queues_witness :
  let started := (deviceStartDma 4 0 1 exampleConfig exampleBusy).2 in
  let pushed := (pushSuperpage 4 4294967295 exampleCheck exampleBusAddress exampleConfig
                   (exampleSuperpage 9) started).2 in
  slotsInvariant 4 started
  /\ mLinkQueuesTotalAvailable pushed + pendingTotal (mLinks pushed) = 8
  /\ slotsInvariant 4
       (pushSuperpage 4 4294967295 exampleCheck exampleBusAddress exampleConfig
          (exampleSuperpage 9) exampleBusy).2
  /\ slotsInvariant 4 (fillSuperpages 8 (exampleCounts 4 3) exampleBusy).2
  /\ slotsInvariant 4 (popSuperpage exampleBusy).2
  /\ slotsInvariant 4 (deviceStopDma 4 8 false (exampleCounts 4 3) exampleBusy).2.
Proof.
  intros started pushed.
  destruct (slots_counter_matches_queues 4 8 4294967295 0 1 exampleCheck
              exampleBusAddress exampleConfig false exampleBusy) as (Hstart & Hkeep & _).
  assert (deviceStartDma 4 0 1 exampleConfig exampleBusy = (Returned tt, started))
    as Hstarted by (vm_compute; reflexivity).
  split; [|split].
  - apply Hstart; [reflexivity | exact Hstarted].
  - destruct (slots_counter_matches_queues 4 8 4294967295 0 1 exampleCheck
                exampleBusAddress exampleConfig false pushed) as (_ & _ & Hreachable).
    destruct Hreachable as [Hsum _]; [|rewrite Hsum; vm_compute; reflexivity].
    apply reachable_push.
    eapply reachable_start; [|exact Hstarted]. reflexivity.
  - destruct Hkeep as (_ & _ & Hpush & Hfill & Hpop & Hstop).
    + split; reflexivity.
    + split; [apply Hpush|]. split; [apply Hfill|]. split; [apply Hpop | apply Hstop].
Defined.

(** C2 on the full channel: a ninth superpage is refused and the state stays. *)
Lemma pushSuperpage_full_is_rejected_witness :
  mLinkQueuesTotalAvailable exampleFull = 0
  /\ pushSuperpage 4 4294967295 exampleCheck exampleBusAddress exampleConfig
       (exampleSuperpage 9) exampleFull
     = (Thrown TransferQueueFull, exampleFull).
Proof.
  split; [reflexivity|].
  destruct (pushSuperpage_full_is_rejected 4 4294967295 exampleCheck exampleBusAddress
              exampleConfig (exampleSuperpage 9) exampleFull eq_refl) as [_ Hthrown].
  apply Hthrown. reflexivity.
Defined.

(** C3 on the busy channel: the superpage goes to link 1, which holds one superpage against three. *)
Lemma pushSuperpage_least_loaded_link_witness :
  exists s',
    pushSuperpage 4 4294967295 exampleCheck exampleBusAddress exampleConfig
      (exampleSuperpage 4) exampleBusy = (Returned tt, s')
    /\ mLinks s' !! 1%nat =
       Some {| id := 1; superpageCounter := 2;
               queue := [exampleSuperpage 2; exampleSuperpage 4] |}
    /\ mLinkQueuesTotalAvailable s' + 1 = 4
    /\ trace s' = [pushSuperpageDescriptor 1 128 (4294967296 + 4194304)].
Proof.
  destruct (pushSuperpage_least_loaded_link 4 4294967295 exampleCheck exampleBusAddress
              exampleConfig (exampleSuperpage 4) exampleBusy)
    as (i & link & s' & Hpush & Hindex & Hlink & _ & _ & Hlinks & _ & Hslots & Htrace).
  - split; reflexivity.
  - reflexivity.
  - reflexivity.
  - discriminate.
  - assert (i = 1%nat) as -> by (apply Nat2N.inj; rewrite <- Hindex; reflexivity).
    assert (link = {| id := 1; superpageCounter := 2; queue := [exampleSuperpage 2] |})
      as -> by (apply (inj Some); rewrite <- Hlink; reflexivity).
    exists s'. split; [exact Hpush|]. split; [rewrite Hlinks; reflexivity|].
    split; [exact Hslots | rewrite Htrace; reflexivity].
Defined.

(** C4 on the busy channel: the card claims two arrivals on link 1, which holds one superpage. *)
Lemma fillSuperpages_rejects_excess_arrivals_witness :
  exists s',
    fillSuperpages 8 (exampleCounts 2 4) exampleBusy
      = (Thrown FirmwareReportedTooMany, s')
    /\ mLinks s' !! 1%nat = mLinks exampleBusy !! 1%nat.
Proof.
  destruct (fillSuperpages_rejects_excess_arrivals 8 (exampleCounts 2 4) exampleBusy 1
              {| id := 1; superpageCounter := 2; queue := [exampleSuperpage 2] |})
    as [_ (s' & Hthrown & Hlink)].
  - reflexivity.
  - reflexivity.
  - exists s'. split; [exact Hthrown | exact Hlink].
Defined.

(** C5 with two places left in the ready queue: link 0 has two arrivals
    and takes both places, link 1 has one arrival and keeps it. *)
Lemma fillSuperpages_moves_arrivals_witness :
  let hw := exampleCounts 4 3 in
  let s' := (fillSuperpages 8 hw exampleNearlyFull).2 in
  s' = filled 8 hw exampleNearlyFull
  /\ mLinks s'
     = [ {| id := 0; superpageCounter := 4; queue := [exampleSuperpage 5] |};
         {| id := 1; superpageCounter := 2; queue := [exampleSuperpage 2] |} ]
  /\ mReadyQueue s'
     = mReadyQueue exampleNearlyFull
       ++ [markArrived (exampleSuperpage 1); markArrived (exampleSuperpage 3)]
  /\ mLinkQueuesTotalAvailable s' = 6.
Proof.
  intros hw s'.
  destruct (fillSuperpages_moves_arrivals 4 8 hw exampleNearlyFull
              [ {| id := 0; superpageCounter := 2;
                   queue := [exampleSuperpage 1; exampleSuperpage 3; exampleSuperpage 5] |} ]
              {| id := 1; superpageCounter := 2; queue := [exampleSuperpage 2] |} [])
    as (Hstate & Hlinks & Hready & Hslots & _).
  - split; reflexivity.
  - reflexivity.
  - intros earlier Hin. apply list_elem_of_In in Hin. simpl in Hin.
    destruct Hin as [<-|[]]. vm_compute. discriminate.
  - reflexivity.
  - vm_compute. discriminate.
  - unfold s'. split; [exact Hstate|]. split; [rewrite Hlinks; reflexivity|].
    split; [rewrite Hready; reflexivity | rewrite Hslots; reflexivity].
Defined.

(** C5 as the claim states it fails where an earlier link is
    over-reported: the card reports four arrivals for link 0, which holds
    three superpages, and one for link 1, which holds one; the ready queue
    is empty.  The fill throws at link 0 and link 1 keeps its superpage. *)
Lemma fillSuperpages_moves_arrivals_counterexample :
  let hw := exampleCounts 6 3 in
  let link := {| id := 1; superpageCounter := 2; queue := [exampleSuperpage 2] |} in
  let s' := (fillSuperpages 8 hw exampleBusy).2 in
  mLinks exampleBusy !! 1%nat = Some link
  /\ uint32 (hw (id link)) - superpageCounter link = 1
  /\ 1 <= queue_size (queue link)
  /\ readyRoom 8 exampleBusy = 8%nat
  /\ (fillSuperpages 8 hw exampleBusy).1 = Thrown FirmwareReportedTooMany
  /\ mLinks s' !! 1%nat = Some link
  /\ mLinks s' !! 1%nat <> Some (movedFrom 1 link)
  /\ mReadyQueue s' = []
  /\ mLinkQueuesTotalAvailable s' = mLinkQueuesTotalAvailable exampleBusy.
Proof.
  vm_compute. repeat split; try reflexivity; discriminate.
Qed.

(** C6 on a channel stopped before any of its three superpages has
    arrived: the card reports no superpage, so each link gives one.
    Compiled with [NDEBUG] the stop returns, link 0 keeps a superpage and
    seven of the eight slots are free; with assertions it is aborted at
    link 0. *)
Lemma deviceStopDma_drains_links_witness :
  let hw := exampleCounts 0 0 in
  let release := deviceStopDma 4 8 true hw exampleUnfilled in
  let debug := deviceStopDma 4 8 false hw exampleUnfilled in
  release.1 = Returned tt
  /\ map queue (mLinks release.2) = [[exampleSuperpage 3]; []]
  /\ mReadyQueue release.2 = [markArrived (exampleSuperpage 1); markArrived (exampleSuperpage 2)]
  /\ mLinkQueuesTotalAvailable release.2 = 7
  /\ debug.1 = Thrown AssertionFailed
  /\ map queue (mLinks debug.2) = [[exampleSuperpage 3]; [exampleSuperpage 2]]
  /\ ~ drainable 8 hw exampleUnfilled.
Proof.
  intros hw release debug.
  destruct (deviceStopDma_drains_links 4 8 true hw exampleUnfilled)
    as (Hstate & Hempty & _ & Hreturns & _); [split; reflexivity|].
  destruct (deviceStopDma_drains_links 4 8 false hw exampleUnfilled)
    as (Hstate' & _ & _ & _ & Hiff & Hthrown & _); [split; reflexivity|].
  assert (~ drainable 8 hw exampleUnfilled) as Hnot.
  { intros Hdrainable. pose proof (proj2 Hempty Hdrainable) as Hnone.
    specialize (Hnone (movedFrom 1 {| id := 0; superpageCounter := 0;
                                      queue := [exampleSuperpage 1; exampleSuperpage 3] |})).
    discriminate Hnone. left. }
  split; [apply Hreturns; reflexivity|].
  split; [unfold release; rewrite Hstate; reflexivity|].
  split; [unfold release; rewrite Hstate; reflexivity|].
  split; [unfold release; rewrite Hstate; reflexivity|].
  split.
  { destruct debug.1 as [[]|e] eqn:Houtcome.
    - destruct Hnot. apply (Hiff eq_refl). exact Houtcome.
    - rewrite (Hthrown e Houtcome). reflexivity. }
  split; [unfold debug; rewrite Hstate'; reflexivity | exact Hnot].
Defined.


(** C8 on the busy channel: the card reports the counters of the links. *)
Lemma fillSuperpages_idle_witness :
  fillSuperpages 8 (exampleCounts 2 2) exampleBusy = (Returned tt, exampleBusy).
Proof.
  apply (fillSuperpages_idle 8 (exampleCounts 2 2) exampleBusy).
  intros link Hin.
  repeat (apply elem_of_cons in Hin as [->|Hin]; [reflexivity|]).
  by apply elem_of_nil in Hin.
Defined.

(** C9: three pushes and two fills on one link. *)
Lemma ready_queue_keeps_push_order_witness :
  let r := runOperations 4 8 4294967295 exampleCheck exampleBusAddress exampleConfig false
             exampleRun exampleSingle in
  map snd r.2 = [exampleSuperpage 1; exampleSuperpage 2; exampleSuperpage 3]
  /\ mReadyQueue r.1 = take (length (mReadyQueue r.1)) (map markArrived (map snd r.2))
  /\ length (mReadyQueue r.1) = 2%nat.
Proof.
  intros r.
  destruct (ready_queue_keeps_push_order 4 8 4294967295 exampleCheck exampleBusAddress
              exampleConfig false exampleRun exampleSingle r.1 r.2)
    as (_ & Hsingle).
  - discriminate.
  - vm_compute; reflexivity.
  - destruct (Hsingle {| id := 0; superpageCounter := 0; queue := [] |} eq_refl)
      as (link' & _ & _ & Hprefix).
    split; [vm_compute; reflexivity|].
    split; [apply Hprefix; reflexivity | vm_compute; reflexivity].
Defined.

(** C10 on the busy channel: the card reports less for link 0 than its counter. *)
Lemma fillSuperpages_ignores_stale_count_witness :
  fillLink 8 (exampleCounts 1 3) 0 exampleBusy = (Returned tt, exampleBusy)
  /\ mLinks (fillSuperpages 8 (exampleCounts 1 3) exampleBusy).2 !! 0%nat
     = mLinks exampleBusy !! 0%nat.
Proof.
  destruct (fillSuperpages_ignores_stale_count 8 (exampleCounts 1 3) exampleBusy 0
              {| id := 0; superpageCounter := 2;
                 queue := [exampleSuperpage 1; exampleSuperpage 3; exampleSuperpage 5] |})
    as (Hstep & Hfinal & _).
  - reflexivity.
  - vm_compute. discriminate.
  - split; [apply Hstep; reflexivity | exact Hfinal].
Defined.

(** * The scenarios of the specification, run on the model *)

(** Nine pushes on three links of capacity 4 leave three superpages on
    each link. *)
Example scenario_fair_distribution :
  map (fun link => length (queue link))
    (mLinks (runOperations 4 12 4294967295 exampleCheck exampleBusAddress exampleConfig false
               (examplePushes [1; 2; 3; 4; 5; 6; 7; 8; 9]) exampleThreeLinks).1)
  = [3; 3; 3]%nat.
Proof. vm_compute. reflexivity. Qed.

(** Two links of capacity 4: eight pushes are accepted and the ninth is
    refused; after one arrival on link 0 a fill moves one superpage, one
    slot is free and the next push is accepted. *)
Example scenario_backpressure :
  let push := pushSuperpage 4 4294967295 exampleCheck exampleBusAddress exampleConfig in
  let full := (runOperations 4 8 4294967295 exampleCheck exampleBusAddress exampleConfig false
                 (examplePushes [1; 2; 3; 4; 5; 6; 7; 8]) exampleStarted).1 in
  let filled := (fillSuperpages 8 (exampleCounts 1 0) full).2 in
  mLinkQueuesTotalAvailable full = 0
  /\ (push (exampleSuperpage 9) full).1 = Thrown TransferQueueFull
  /\ mReadyQueue filled = [markArrived (exampleSuperpage 1)]
  /\ mLinkQueuesTotalAvailable filled = 1
  /\ (push (exampleSuperpage 9) filled).1 = Returned tt.
Proof. vm_compute. repeat split; reflexivity. Qed.

(** The card reports more arrivals on link 0 than superpages wait there:
    the fill throws and no queue changes. *)
Example scenario_excess_arrivals :
  fillSuperpages 8 (exampleCounts 6 2) exampleBusy
  = (Thrown FirmwareReportedTooMany, exampleBusy).
Proof. vm_compute. reflexivity. Qed.

(** A stop with two superpages on link 0, both reported by the card: both
    are in the ready queue afterwards and the link queue is empty. *)
Example scenario_stop_drains :
  let stopped := (deviceStopDma 4 8 false (exampleCounts 4 2) exampleDraining).2 in
  mReadyQueue stopped = [markArrived (exampleSuperpage 1); markArrived (exampleSuperpage 3)]
  /\ map queue (mLinks stopped) = [[]; []].
Proof. vm_compute. split; reflexivity. Qed.

(** A stop with three superpages on link 0 of which the card reports none:
    one is moved and two stay.  With assertions the one on the queue fails;
    compiled with [NDEBUG] the stop goes on to link 1 and returns. *)
Example scenario_stop_leaves_superpages :
  let debug := deviceStopDma 4 8 false (exampleCounts 2 2) exampleBusy in
  let release := deviceStopDma 4 8 true (exampleCounts 2 2) exampleBusy in
  debug.1 = Thrown AssertionFailed
  /\ map (fun link => length (queue link)) (mLinks debug.2) = [2; 1]%nat
  /\ mReadyQueue debug.2 = [markArrived (exampleSuperpage 1)]
  /\ release.1 = Returned tt
  /\ map (fun link => length (queue link)) (mLinks release.2) = [2; 0]%nat
  /\ mLinkQueuesTotalAvailable release.2 = 6.
Proof. vm_compute. repeat split; reflexivity. Qed.

(** A stop right after a start and three pushes: the channel is then as
    in [exampleUnfilled]; compiled with [NDEBUG] the stop returns with a
    superpage left on link 0 and seven of the eight slots free. *)
Example scenario_stop_before_arrivals :
  let calls := [ CallStart; CallPush (exampleSuperpage 1); CallPush (exampleSuperpage 2);
                 CallPush (exampleSuperpage 3) ] in
  let pushed := finalState (runCalls 4 8 4294967295 0 1 exampleCheck exampleBusAddress
                              exampleConfig true calls exampleBusy) in
  let stopped := finalState (runCalls 4 8 4294967295 0 1 exampleCheck exampleBusAddress
                               exampleConfig true (calls ++ [CallStop (exampleCounts 0 0)])
                               exampleBusy) in
  mLinks pushed = mLinks exampleUnfilled
  /\ mReadyQueue pushed = mReadyQueue exampleUnfilled
  /\ mLinkQueuesTotalAvailable pushed = mLinkQueuesTotalAvailable exampleUnfilled
  /\ map queue (mLinks stopped) = [[exampleSuperpage 3]; []]
  /\ mLinkQueuesTotalAvailable stopped = 7.
Proof. vm_compute. repeat split; reflexivity. Qed.

(** * The further properties on a concrete channel *)

(** X2: the card reports arrivals on both links, and the ready queue is full. *)
Lemma fillSuperpages_full_ready_queue_witness :
  isReadyQueueFull 8 exampleReadyFull = true
  /\ (fillSuperpages 8 (exampleCounts 4 3) exampleReadyFull).2 = exampleReadyFull.
Proof.
  split; [reflexivity|].
  apply (fillSuperpages_full_ready_queue 8 (exampleCounts 4 3) exampleReadyFull).
  reflexivity.
Defined.

(** X3 on the channel just started: every slot is free, so no link holds a superpage. *)
Lemma isTransferQueueEmpty_iff_no_pending_witness :
  isTransferQueueEmpty 4 exampleStarted = true
  /\ (forall link, link ∈ mLinks exampleStarted -> queue link = []).
Proof.
  split; [reflexivity|].
  apply (isTransferQueueEmpty_iff_no_pending 4 exampleStarted).
  - split; reflexivity.
  - reflexivity.
Defined.

(** X4 on the busy channel: a valid superpage is accepted, an empty one is not. *)
Lemma pushSuperpage_outcome_witness :
  (pushSuperpage 4 4294967295 exampleCheck exampleBusAddress exampleConfig
     (exampleSuperpage 4) exampleBusy).1 = Returned tt
  /\ (pushSuperpage 4 4294967295 exampleCheck exampleBusAddress exampleConfig
        {| offset := 0; size := 0; received := 0; ready := false; userData := 0 |}
        exampleBusy).1 = Thrown InvalidSuperpage.
Proof.
  split.
  - apply (pushSuperpage_outcome 4 4294967295 exampleCheck exampleBusAddress exampleConfig
             (exampleSuperpage 4) exampleBusy).
    + split; reflexivity.
    + discriminate.
  - apply (pushSuperpage_outcome 4 4294967295 exampleCheck exampleBusAddress exampleConfig
             {| offset := 0; size := 0; received := 0; ready := false; userData := 0 |}
             exampleBusy).
    + split; reflexivity.
    + discriminate.
Defined.

(** X5 on the channel just started: after a push the queues hold one and no superpage. *)
Lemma pushSuperpage_keeps_links_level_witness :
  balanced exampleStarted
  /\ balanced (pushSuperpage 4 4294967295 exampleCheck exampleBusAddress exampleConfig
                 (exampleSuperpage 1) exampleStarted).2.
Proof.
  assert (balanced exampleStarted) as Hlevel.
  { intros link other Hlink Hother.
    apply list_elem_of_In in Hlink, Hother. simpl in Hlink, Hother.
    destruct Hlink as [<-|[<-|[]]], Hother as [<-|[<-|[]]]; vm_compute; discriminate. }
  split; [exact Hlevel|].
  apply (pushSuperpage_keeps_links_level 4 4294967295 exampleCheck exampleBusAddress
           exampleConfig (exampleSuperpage 1) exampleStarted).
  - split; reflexivity.
  - exact Hlevel.
Defined.

(** X6 on the busy channel: two arrivals on link 0 and one on link 1 are plausible. *)
Lemma fillSuperpages_returns_iff_plausible_witness :
  exists s', fillSuperpages 8 (exampleCounts 4 3) exampleBusy = (Returned tt, s').
Proof.
  apply (fillSuperpages_returns_iff_plausible 8 (exampleCounts 4 3) exampleBusy).
  intros link Hlink. apply list_elem_of_In in Hlink. simpl in Hlink.
  destruct Hlink as [<-|[<-|[]]]; vm_compute; discriminate.
Defined.

(** X7 on the busy channel: the three arrivals enter the ready queue, link 0 first. *)
Lemma fillSuperpages_moves_every_arrival_witness :
  fillSuperpages 8 (exampleCounts 4 3) exampleBusy
    = (Returned tt, afterFill (exampleCounts 4 3) exampleBusy)
  /\ mReadyQueue (afterFill (exampleCounts 4 3) exampleBusy)
     = map (fun n => markArrived (exampleSuperpage n)) [1; 3; 2]
  /\ mLinkQueuesTotalAvailable (afterFill (exampleCounts 4 3) exampleBusy) = 7.
Proof.
  split; [|split; reflexivity].
  apply (fillSuperpages_moves_every_arrival 4 8 (exampleCounts 4 3) exampleBusy).
  - split; reflexivity.
  - intros link Hlink. apply list_elem_of_In in Hlink. simpl in Hlink.
    destruct Hlink as [<-|[<-|[]]]; vm_compute; discriminate.
  - vm_compute. lia.
Defined.

(** X18 on the busy channel: the second fill finds nothing new. *)
Lemma fillSuperpages_twice_witness :
  (fillSuperpages 8 (exampleCounts 4 3) ;;; fillSuperpages 8 (exampleCounts 4 3)) exampleBusy
  = fillSuperpages 8 (exampleCounts 4 3) exampleBusy.
Proof.
  apply (fillSuperpages_twice 4 8 (exampleCounts 4 3) exampleBusy).
  - split; reflexivity.
  - intros link Hlink. apply list_elem_of_In in Hlink. simpl in Hlink.
    destruct Hlink as [<-|[<-|[]]]; vm_compute; discriminate.
  - vm_compute. lia.
Defined.

(** X8: two superpages wait on link 0, the card reports both, and the
    ready queue is empty; the stop returns in either build. *)
Lemma deviceStopDma_returns_iff_drainable_witness :
  drainable 8 (exampleCounts 4 2) exampleDraining
  /\ deviceStopDma 4 8 false (exampleCounts 4 2) exampleDraining
     = (Returned tt, afterDrain exampleDraining)
  /\ deviceStopDma 4 8 true (exampleCounts 4 2) exampleDraining
     = (Returned tt, afterDrain exampleDraining)
  /\ mReadyQueue (afterDrain exampleDraining)
     = map (fun n => markArrived (exampleSuperpage n)) [1; 3].
Proof.
  assert (drainable 8 (exampleCounts 4 2) exampleDraining) as Hdrainable.
  { split.
    - intros link Hlink. apply list_elem_of_In in Hlink. simpl in Hlink.
      destruct Hlink as [<-|[<-|[]]]; vm_compute; discriminate.
    - vm_compute. lia. }
  split; [exact Hdrainable|].
  split; [|split; [|reflexivity]].
  - destruct (deviceStopDma_returns_iff_drainable 4 8 false (exampleCounts 4 2)
                exampleDraining) as (Hreturns & _); [split; reflexivity|].
    exact (Hreturns Hdrainable).
  - destruct (deviceStopDma_returns_iff_drainable 4 8 true (exampleCounts 4 2)
                exampleDraining) as (Hreturns & _); [split; reflexivity|].
    exact (Hreturns Hdrainable).
Defined.

(** X9 on two links: of the three superpages pushed, two were popped and one is still held. *)
Lemma runCalls_conserves_superpages_witness :
  let session := runCalls 4 8 4294967295 0 1 exampleCheck exampleBusAddress exampleConfig false
                   exampleSession exampleStarted in
  poppedSuperpages session ++ held (finalState session)
  ≡ₚ map (fun n => markArrived (exampleSuperpage n)) [1; 2; 3].
Proof.
  apply (runCalls_conserves_superpages 4 8 4294967295 0 1 exampleCheck exampleBusAddress
           exampleConfig false exampleSession exampleStarted).
  - discriminate.
  - intros Hstart. apply list_elem_of_In in Hstart. simpl in Hstart.
    repeat (destruct Hstart as [Hstart|Hstart]; [discriminate|]). exact Hstart.
Defined.

(** X10 on the busy channel, started: the three descriptors of the three pushes. *)
Lemma runCalls_descriptors_witness :
  descriptors
    (trace (finalState (runCalls 4 8 4294967295 0 1 exampleCheck exampleBusAddress
                          exampleConfig false (CallStart :: exampleSession) exampleBusy)))
  = [ pushSuperpageDescriptor 0 128 4296015872;
      pushSuperpageDescriptor 1 128 4297064448;
      pushSuperpageDescriptor 0 128 4298113024 ].
Proof.
  exact (runCalls_descriptors 4 8 4294967295 0 1 exampleCheck exampleBusAddress
           exampleConfig false (CallStart :: exampleSession) exampleBusy).
Defined.

(** X11 on two links, for link 0: superpages 1 and 3 were pushed to it,
    and what left it arrived in the ready queue. *)
Lemma runCalls_never_overwrites_witness :
  let session := runCalls 4 8 4294967295 0 1 exampleCheck exampleBusAddress exampleConfig
                   false exampleSession exampleStarted in
  pushedTo 0 (acceptedPushes session) = [exampleSuperpage 1; exampleSuperpage 3]
  /\ exists left arrived,
       linkQueue 0 exampleStarted ++ pushedTo 0 (acceptedPushes session)
       = left ++ linkQueue 0 (finalState session)
       /\ poppedSuperpages session ++ mReadyQueue (finalState session)
          = mReadyQueue exampleStarted ++ arrived
       /\ map markArrived left `sublist_of` arrived
       /\ (withinCapacity 4 8 exampleStarted -> withinCapacity 4 8 (finalState session)).
Proof.
  split; [reflexivity|].
  apply (runCalls_never_overwrites 4 8 4294967295 0 1 exampleCheck exampleBusAddress
           exampleConfig false exampleSession exampleStarted 0%nat).
  - discriminate.
  - intros Hstart. apply list_elem_of_In in Hstart. simpl in Hstart.
    repeat (destruct Hstart as [Hstart|Hstart]; [discriminate|]). exact Hstart.
Defined.

(** X12 on two links: the two superpages popped are marked ready and received in full. *)
Lemma runCalls_pops_complete_witness :
  Forall complete
    (poppedSuperpages (runCalls 4 8 4294967295 0 1 exampleCheck exampleBusAddress
                         exampleConfig false exampleSession exampleStarted)).
Proof.
  apply (runCalls_pops_complete 4 8 4294967295 0 1 exampleCheck exampleBusAddress
           exampleConfig false exampleSession exampleStarted).
  simpl. constructor.
Defined.

(** X13 on the busy channel: the start switches the debug mode on, the destructor off again. *)
Lemma destructor_restores_debug_mode_witness :
  debugModeEnabled
    (finalState (runCalls 4 8 4294967295 0 1 exampleCheck exampleBusAddress
                   exampleConfig false (CallStart :: exampleSession) exampleBusy)) = true
  /\ debugModeEnabled
       (destructor exampleConfig
          (finalState (runCalls 4 8 4294967295 0 1 exampleCheck exampleBusAddress
                         exampleConfig false (CallStart :: exampleSession) exampleBusy))).2
     = false.
Proof.
  split; [reflexivity|].
  apply (destructor_restores_debug_mode 4 8 4294967295 0 1 exampleCheck exampleBusAddress
           exampleConfig false (CallStart :: exampleSession) exampleBusy).
  reflexivity.
Defined.

(** X14 on one link: the pops return superpages 1 and 2, and 3 is next. *)
Lemma runCalls_single_link_order_witness :
  let session := runCalls 4 8 4294967295 0 1 exampleCheck exampleBusAddress exampleConfig false
                   exampleSession exampleSingle in
  poppedSuperpages session ++ held (finalState session)
  = map (fun n => markArrived (exampleSuperpage n)) [1; 2; 3].
Proof.
  apply (runCalls_single_link_order 4 8 4294967295 0 1 exampleCheck exampleBusAddress
           exampleConfig false exampleSession exampleSingle
           {| id := 0; superpageCounter := 0; queue := [] |}).
  - discriminate.
  - intros Hstart. apply list_elem_of_In in Hstart. simpl in Hstart.
    repeat (destruct Hstart as [Hstart|Hstart]; [discriminate|]). exact Hstart.
  - reflexivity.
Defined.

(** X15 on two links of capacity 4: of ten superpages the first eight are accepted. *)
Lemma pushSuperpage_burst_witness :
  let session := runCalls 4 8 4294967295 0 1 exampleCheck exampleBusAddress exampleConfig false
                   (map CallPush exampleBurst) exampleStarted in
  length (acceptedPushes session) = 8%nat
  /\ map snd (acceptedPushes session) = take 8 exampleBurst
  /\ mLinkQueuesTotalAvailable (finalState session) = 0.
Proof.
  destruct (pushSuperpage_burst 4 8 4294967295 0 1 exampleCheck exampleBusAddress
              exampleConfig false exampleBurst exampleStarted) as (Hcount & Horder & Hslots).
  - split; reflexivity.
  - discriminate.
  - repeat constructor.
  - cbn zeta. rewrite Hslots, Horder, Hcount. repeat split; reflexivity.
Defined.

(** X16: the third id of the mask is 30, and the CRU of the example has 24 links. *)
Lemma constructor_validates_witness :
  constructor 24 8192 0 exampleBadMask true = inl (InvalidLinkId 30)
  /\ exists before after,
       [0; 1; 30] = before ++ 30 :: after /\ Forall (fun linkId => linkId < 24) before.
Proof.
  split; [reflexivity|].
  pose proof (constructor_validates 24 8192 0 exampleBadMask true) as Hvalid.
  change (constructor 24 8192 0 exampleBadMask true)
    with (@inl ConstructorError (Config * list Link) (InvalidLinkId 30)) in Hvalid.
  destruct Hvalid as (_ & _ & before & after & Hmask & Hbefore & _).
  exists before, after. split; [exact Hmask | exact Hbefore].
Defined.

(** X17: the channel constructed from the defaults starts. *)
Lemma constructed_channel_starts_witness :
  constructor 24 8192 0 exampleParameters true
    = inr (exampleConfig, [ {| id := 0; superpageCounter := 0; queue := [] |} ])
  /\ exists s', deviceStartDma 4 0 1 exampleConfig exampleSingle = (Returned tt, s').
Proof.
  split; [reflexivity|].
  destruct (constructed_channel_starts 4 0 1 exampleConfig 24 8192 0 exampleParameters true
              [ {| id := 0; superpageCounter := 0; queue := [] |} ] exampleSingle eq_refl)
    as [_ Hdefaults].
  apply Hdefaults; reflexivity.
Defined.

(** X19 on the busy channel: after the start and the session eight slots are free and no superpage waits on a link. *)
Lemma runCalls_slotsInvariant_witness :
  let session := runCalls 4 8 4294967295 0 1 exampleCheck exampleBusAddress exampleConfig false
                   (CallStart :: exampleSession) exampleBusy in
  slotsInvariant 4 (finalState session)
  /\ mLinkQueuesTotalAvailable (finalState session) = 8.
Proof.
  split; [|reflexivity].
  apply (runCalls_slotsInvariant 4 8 4294967295 0 1 exampleCheck exampleBusAddress
           exampleConfig false (CallStart :: exampleSession) exampleBusy).
  split; reflexivity.
Defined.
